(** * Legacy integration gateway: resilience and dispatch core

    A shallow embedding of the Python sources

      - [src/legacy-integration/src/error_handler.py]
        (RetryPolicy, CircuitBreakerManager, ErrorHandler),
      - [src/legacy-integration/src/auth_bridge.py]
        (TokenCache, AuthenticationBridge),
      - [src/legacy-integration/src/api_gateway.py]
        (predict, batch_predict),

    and the properties the specification states about them.

    Conventions of the embedding:
      - Python [str] is [string]; [int] is [Z]; [float] is an exact
        rational [Q] (rounding is outside the model);
      - a [dict] used as a map is a [gmap]; a [dict] literal with fixed keys
        is a record;
      - [datetime.utcnow()] and [time.time()] are an explicit clock reading
        passed to the function that reads them;
      - code that can raise returns [Result A], [Raise e] carrying the Python
        exception; [try/except] is a [match] on it;
      - mutable objects ([ErrorHandler], [TokenCache], the circuit table)
        become explicit state passing. *)

From Stdlib Require Import ZArith QArith Qabs Qminmax Qpower Qround Lqa Lia Ascii String.
From stdpp Require Import gmap strings list fin_maps pretty.

Close Scope Q_scope.
Open Scope string_scope.
Open Scope list_scope.
Open Scope Z_scope.

(** ** Python strings *)

Module PyStr.

Definition is_upper (c : ascii) : bool :=
  let n := nat_of_ascii c in ((65 <=? n) && (n <=? 90))%nat.

Definition is_lower (c : ascii) : bool :=
  let n := nat_of_ascii c in ((97 <=? n) && (n <=? 122))%nat.

Definition lower_char (c : ascii) : ascii :=
  if is_upper c then ascii_of_nat (nat_of_ascii c + 32) else c.

Definition upper_char (c : ascii) : ascii :=
  if is_lower c then ascii_of_nat (nat_of_ascii c - 32) else c.

(** [s.lower()] and [s.upper()] on ASCII text. *)
Fixpoint lower (s : string) : string :=
  match s with
  | EmptyString => EmptyString
  | String c r => String (lower_char c) (lower r)
  end.

Fixpoint upper (s : string) : string :=
  match s with
  | EmptyString => EmptyString
  | String c r => String (upper_char c) (upper r)
  end.

(** [s.startswith(p)] *)
Definition startswith (s p : string) : bool := String.prefix p s.

(** [s[n:]] for [n >= 0] *)
Fixpoint drop (n : nat) (s : string) : string :=
  match n, s with
  | O, _ => s
  | S _, EmptyString => EmptyString
  | S k, String _ r => drop k r
  end.

(** [s[:n]] for [n >= 0] *)
Fixpoint take (n : nat) (s : string) : string :=
  match n, s with
  | O, _ => EmptyString
  | S _, EmptyString => EmptyString
  | S k, String c r => String c (take k r)
  end.

(** [s[-n:]] for [n > 0]: the last [n] characters, the whole string when
    it is shorter. *)
Definition last (n : nat) (s : string) : string :=
  drop (String.length s - n) s.

(** [needle in s] *)
Fixpoint contains (needle s : string) : bool :=
  String.prefix needle s ||
  match s with
  | EmptyString => false
  | String _ r => contains needle r
  end.

(** [s.split(sep)] for a one-character separator: the list of segments,
    never empty; [acc] holds the segment being read, reversed. *)
Fixpoint split_go (sep : ascii) (acc : string) (s : string) : list string :=
  match s with
  | EmptyString => [String.rev acc]
  | String c r =>
      if Ascii.eqb c sep
      then String.rev acc :: split_go sep EmptyString r
      else split_go sep (String c acc) r
  end.

Definition split (sep : ascii) (s : string) : list string :=
  split_go sep EmptyString s.

(** Number of occurrences of a character. *)
Fixpoint count (sep : ascii) (s : string) : nat :=
  match s with
  | EmptyString => O
  | String c r => ((if Ascii.eqb c sep then 1 else 0) + count sep r)%nat
  end.

End PyStr.

(** ** Python exceptions and results *)

(** The exception classes the gateway tells apart with [isinstance].
    Subclasses the code never distinguishes are folded into their base:
    [httpx.ConnectTimeout] and [httpx.ReadTimeout] into
    [httpx.TimeoutException], [httpx.ConnectError] into
    [httpx.NetworkError]. *)
Inductive ExcClass : Type :=
| PermissionError
| ValueError
| AsyncioTimeoutError
| HttpxTimeoutException
| HttpxNetworkError
| ConnectionError
| HTTPStatusError (response_status_code : Z)
| CircuitBreakerError
| HTTPException (status_code : Z) (detail : option string)
| AttributeError
| TypeError
| NameError
| OverflowError
| OtherException.

(** An exception instance: its class and [str(e)]. *)
Record PyExc : Type := mkExc { exc_class : ExcClass; exc_str : string }.

Inductive Result (A : Type) : Type :=
| Return (a : A)
| Raise (e : PyExc).
Arguments Return {A} a.
Arguments Raise {A} e.

Definition is_Return {A : Type} (r : Result A) : bool :=
  match r with Return _ => true | Raise _ => false end.

#[global] Instance ExcClass_eq_dec : EqDecision ExcClass.
Proof. solve_decision. Defined.

#[global] Instance PyExc_eq_dec : EqDecision PyExc.
Proof. solve_decision. Defined.

(** ** error_handler.py: categories, severities, records *)

Inductive ErrorCategory : Type :=
| AUTHENTICATION
| AUTHORIZATION
| VALIDATION
| TIMEOUT
| RATE_LIMIT
| AZURE_ML_ERROR
| NETWORK_ERROR
| INTERNAL_ERROR
| CIRCUIT_BREAKER
| UNKNOWN.

Inductive ErrorSeverity : Type :=
| LOW
| MEDIUM
| HIGH
| CRITICAL.

(** [category.value] and [severity.value] *)
Definition category_value (c : ErrorCategory) : string :=
  match c with
  | AUTHENTICATION => "authentication"
  | AUTHORIZATION => "authorization"
  | VALIDATION => "validation"
  | TIMEOUT => "timeout"
  | RATE_LIMIT => "rate_limit"
  | AZURE_ML_ERROR => "azure_ml_error"
  | NETWORK_ERROR => "network_error"
  | INTERNAL_ERROR => "internal_error"
  | CIRCUIT_BREAKER => "circuit_breaker"
  | UNKNOWN => "unknown"
  end.

Definition severity_value (s : ErrorSeverity) : string :=
  match s with
  | LOW => "low"
  | MEDIUM => "medium"
  | HIGH => "high"
  | CRITICAL => "critical"
  end.

#[global] Instance ErrorCategory_eq_dec : EqDecision ErrorCategory.
Proof. solve_decision. Defined.

#[global] Instance ErrorSeverity_eq_dec : EqDecision ErrorSeverity.
Proof. solve_decision. Defined.

Definition category_index (c : ErrorCategory) : nat :=
  match c with
  | AUTHENTICATION => 0 | AUTHORIZATION => 1 | VALIDATION => 2 | TIMEOUT => 3
  | RATE_LIMIT => 4 | AZURE_ML_ERROR => 5 | NETWORK_ERROR => 6
  | INTERNAL_ERROR => 7 | CIRCUIT_BREAKER => 8 | UNKNOWN => 9
  end%nat.

Definition category_of_index (n : nat) : ErrorCategory :=
  match n with
  | 0 => AUTHENTICATION | 1 => AUTHORIZATION | 2 => VALIDATION | 3 => TIMEOUT
  | 4 => RATE_LIMIT | 5 => AZURE_ML_ERROR | 6 => NETWORK_ERROR
  | 7 => INTERNAL_ERROR | 8 => CIRCUIT_BREAKER | _ => UNKNOWN
  end%nat.

Definition severity_index (s : ErrorSeverity) : nat :=
  match s with LOW => 0 | MEDIUM => 1 | HIGH => 2 | CRITICAL => 3 end%nat.

Definition severity_of_index (n : nat) : ErrorSeverity :=
  match n with 0 => LOW | 1 => MEDIUM | 2 => HIGH | _ => CRITICAL end%nat.

#[global] Program Instance ErrorCategory_countable : Countable ErrorCategory :=
  inj_countable' category_index category_of_index _.
Next Obligation. by intros []. Qed.

#[global] Program Instance ErrorSeverity_countable : Countable ErrorSeverity :=
  inj_countable' severity_index severity_of_index _.
Next Obligation. by intros []. Qed.

(** [ErrorMetrics]: the aggregate counters. The three rates are declared
    [float]; the only one ever assigned receives the [int]
    [min(total_errors, 60)]. *)
Record ErrorMetrics : Type := mkErrorMetrics {
  total_errors : Z;
  errors_by_category : gmap ErrorCategory Z;
  errors_by_severity : gmap ErrorSeverity Z;
  last_error_time : option Z;
  error_rate_1min : Z;
  error_rate_5min : Z;
  error_rate_15min : Z
}.

(** [ErrorMetrics()] *)
Definition ErrorMetrics_init : ErrorMetrics :=
  {| total_errors := 0;
     errors_by_category := ∅;
     errors_by_severity := ∅;
     last_error_time := None;
     error_rate_1min := 0;
     error_rate_5min := 0;
     error_rate_15min := 0 |}.

(** [ErrorContext] of error_handler.py. *)
Record ErrorContext : Type := mkErrorContext {
  ec_request_id : string;
  ec_correlation_id : option string;
  ec_user_id : option string;
  ec_endpoint : string;
  ec_method : string;
  ec_timestamp : Z;
  ec_processing_time : Q;
  ec_retry_count : nat
}.

(** [RequestContext] of api_gateway.py: it has [request_id] and
    [correlation_id], and none of [endpoint], [method], [processing_time],
    [retry_count], [user_id]. *)
Record RequestContext : Type := mkRequestContext {
  rc_request_id : string;
  rc_correlation_id : option string;
  rc_start_time : Q;
  rc_legacy_format : bool;
  rc_auth_token : option string
}.

(** The [context] argument of the handler is untyped at run time: the
    handler's own callers pass an [ErrorContext], the gateway passes its
    [RequestContext]. *)
Inductive Context : Type :=
| ErrCtx (c : ErrorContext)
| ReqCtx (c : RequestContext).

Definition no_attribute (cls attr : string) : PyExc :=
  mkExc AttributeError ("'" +:+ cls +:+ "' object has no attribute '" +:+ attr +:+ "'").

(** [context.request_id], [context.correlation_id]: present on both. *)
Definition ctx_request_id (c : Context) : string :=
  match c with ErrCtx c => ec_request_id c | ReqCtx c => rc_request_id c end.

Definition ctx_correlation_id (c : Context) : option string :=
  match c with ErrCtx c => ec_correlation_id c | ReqCtx c => rc_correlation_id c end.

(** [context.endpoint]: the first attribute [_log_error] reads that a
    [RequestContext] lacks. *)
Definition ctx_endpoint (c : Context) : Result string :=
  match c with
  | ErrCtx c => Return (ec_endpoint c)
  | ReqCtx _ => Raise (no_attribute "RequestContext" "endpoint")
  end.

(** [ErrorResponse]; [timestamp] holds the clock reading that the source
    renders with [isoformat()]. *)
Record ErrorResponse : Type := mkErrorResponse {
  error_id : string;
  er_status_code : Z;
  error_code : string;
  message : string;
  er_detail : option string;
  category : ErrorCategory;
  severity : ErrorSeverity;
  timestamp : Z;
  request_id : option string;
  correlation_id : option string;
  retry_after : option Z;
  support_info : option (list (string * string))
}.

(** ** error_handler.py: RetryPolicy *)

Record RetryPolicy : Type := mkRetryPolicy {
  max_attempts : Z;
  base_delay : Q;
  max_delay : Q;
  exponential_base : Q;
  jitter : bool
}.

(** [RetryPolicy()] with the constructor's defaults. *)
Definition RetryPolicy_default : RetryPolicy :=
  {| max_attempts := 3;
     base_delay := 1%Q;
     max_delay := 60%Q;
     exponential_base := 2%Q;
     jitter := true |}.

(** [isinstance(exception, retryable_exceptions)] *)
Definition is_retryable_exception (c : ExcClass) : bool :=
  match c with
  | HttpxTimeoutException | HttpxNetworkError | ConnectionError
  | AsyncioTimeoutError => true
  | _ => false
  end.

(** [RetryPolicy.should_retry] *)
Definition should_retry (p : RetryPolicy) (exception : PyExc) (attempt : Z) : bool :=
  if max_attempts p <=? attempt then false
  else if is_retryable_exception (exc_class exception) then true
  else match exc_class exception with
       | HTTPStatusError status_code =>
           bool_decide (status_code ∈ [429; 502; 503; 504])
       | _ => false
       end.

(** The value the delay is capped to, before jitter:
    [min(base_delay * exponential_base ** attempt, max_delay)], with the
    power read as the exact power; [FloatRange.capped_delay] keeps the
    float range of the power. *)
Definition capped_delay (p : RetryPolicy) (attempt : nat) : Q :=
  Qmin (base_delay p * exponential_base p ^ Z.of_nat attempt)%Q (max_delay p).

(** The value [RetryPolicy.get_delay] returns when it returns; [rnd] is
    the value [random.random()] returns, drawn from [0, 1). The call
    itself, which raises when the power is out of the float range, is
    [FloatRange.get_delay]. *)
Definition get_delay (p : RetryPolicy) (rnd : Q) (attempt : nat) : Q :=
  let delay := capped_delay p attempt in
  if jitter p then (delay * ((1 # 2) + rnd * (1 # 2)))%Q else delay.

(** ** error_handler.py: ErrorHandler *)

(** An entry of [_error_log] (the formatted traceback is left out). *)
Record LogEntry : Type := mkLogEntry {
  log_timestamp : Z;
  log_exception : PyExc;
  log_error_response : ErrorResponse;
  log_context : Context
}.

(** The mutable part of an [ErrorHandler]. [alerts] records the calls of
    [_trigger_alert], which only writes to the logger. *)
Record ErrorHandler : Type := mkErrorHandler {
  error_metrics : ErrorMetrics;
  _error_log : list LogEntry;
  alerts : list string
}.

(** [ErrorHandler()] *)
Definition ErrorHandler_init : ErrorHandler :=
  {| error_metrics := ErrorMetrics_init; _error_log := []; alerts := [] |}.

(** [ErrorHandler._classify_error]: the first matching test wins. *)
Definition _classify_error (exception : PyExc) : ErrorCategory * ErrorSeverity :=
  let cls := exc_class exception in
  let after_http :=
    match cls with
    | CircuitBreakerError => (CIRCUIT_BREAKER, HIGH)
    | HttpxNetworkError | ConnectionError => (NETWORK_ERROR, MEDIUM)
    | _ => (UNKNOWN, MEDIUM)
    end in
  if (match cls with PermissionError | ValueError => true | _ => false end)
       && PyStr.contains "auth" (PyStr.lower (exc_str exception))
  then (AUTHENTICATION, MEDIUM)
  else match cls with
       | AsyncioTimeoutError | HttpxTimeoutException => (TIMEOUT, MEDIUM)
       | HTTPStatusError status_code =>
           if status_code =? 401 then (AUTHENTICATION, MEDIUM)
           else if status_code =? 403 then (AUTHORIZATION, MEDIUM)
           else if status_code =? 429 then (RATE_LIMIT, LOW)
           else if (400 <=? status_code) && (status_code <? 500)
                then (VALIDATION, LOW)
           else if (500 <=? status_code) && (status_code <? 600)
                then (AZURE_ML_ERROR, HIGH)
           else after_http
       | _ => after_http
       end.

Definition status_code_map (c : ErrorCategory) : Z :=
  match c with
  | AUTHENTICATION => 401
  | AUTHORIZATION => 403
  | VALIDATION => 400
  | TIMEOUT => 408
  | RATE_LIMIT => 429
  | AZURE_ML_ERROR => 502
  | NETWORK_ERROR => 503
  | CIRCUIT_BREAKER => 503
  | INTERNAL_ERROR => 500
  | UNKNOWN => 500
  end.

Definition message_map (c : ErrorCategory) : string :=
  match c with
  | AUTHENTICATION => "Authentication failed"
  | AUTHORIZATION => "Access denied"
  | VALIDATION => "Invalid request data"
  | TIMEOUT => "Request timeout"
  | RATE_LIMIT => "Rate limit exceeded"
  | AZURE_ML_ERROR => "ML service temporarily unavailable"
  | NETWORK_ERROR => "Network connectivity issue"
  | CIRCUIT_BREAKER => "Service temporarily unavailable"
  | INTERNAL_ERROR => "Internal server error"
  | UNKNOWN => "An unexpected error occurred"
  end.

Definition support_information : list (string * string) :=
  [("documentation", "https://docs.company.com/legacy-integration");
   ("support_email", "ml-support@company.com");
   ("status_page", "https://status.company.com")].

(** [ErrorHandler._create_error_response]; [now] is the clock in
    milliseconds. *)
Definition _create_error_response (now : Z) (exception : PyExc)
    (cat : ErrorCategory) (sev : ErrorSeverity) (context : Context)
    : ErrorResponse :=
  {| error_id := "err_" +:+ pretty now +:+ "_" +:+ PyStr.last 8 (ctx_request_id context);
     er_status_code := status_code_map cat;
     error_code := PyStr.upper (category_value cat) +:+ "_" +:+ PyStr.upper (severity_value sev);
     message := message_map cat;
     er_detail := if bool_decide (sev ∈ [HIGH; CRITICAL])
                  then Some (exc_str exception) else None;
     category := cat;
     severity := sev;
     timestamp := now;
     request_id := Some (ctx_request_id context);
     correlation_id := ctx_correlation_id context;
     retry_after := if bool_decide (cat ∈ [RATE_LIMIT; CIRCUIT_BREAKER])
                    then Some 60 else None;
     support_info := Some support_information |}.

(** [d[k] += 1] after [if k not in d: d[k] = 0] *)
Definition bump `{Countable K} (k : K) (d : gmap K Z) : gmap K Z :=
  <[k := default 0 (d !! k) + 1]> d.

(** [ErrorHandler._record_error_metrics] *)
Definition _record_error_metrics (now : Z) (cat : ErrorCategory)
    (sev : ErrorSeverity) (m : ErrorMetrics) : ErrorMetrics :=
  let total := total_errors m + 1 in
  {| total_errors := total;
     errors_by_category := bump cat (errors_by_category m);
     errors_by_severity := bump sev (errors_by_severity m);
     last_error_time := Some now;
     error_rate_1min := Z.min total 60;
     error_rate_5min := error_rate_5min m;
     error_rate_15min := error_rate_15min m |}.

(** [log[-1000:]] *)
Definition keep_last (n : nat) {A : Type} (l : list A) : list A :=
  drop (length l - n) l.

(** [ErrorHandler._log_error]: building [log_data] reads
    [context.endpoint] (and further attributes only an [ErrorContext] has)
    before anything is stored. *)
Definition _log_error (now : Z) (exception : PyExc)
    (error_response : ErrorResponse) (context : Context)
    (log : list LogEntry) : Result (list LogEntry) :=
  match ctx_endpoint context with
  | Raise e => Raise e
  | Return _ =>
      let log := log ++ [mkLogEntry now exception error_response context] in
      Return (if bool_decide (1000 < length log)%nat then keep_last 1000 log else log)
  end.

(** [ErrorHandler._check_alert_conditions]: the alerts it triggers, in
    order. *)
Definition _check_alert_conditions (m : ErrorMetrics) (cat : ErrorCategory)
    (sev : ErrorSeverity) : list string :=
  (if bool_decide (sev = CRITICAL) then ["critical_error"] else []) ++
  (if 10 <? error_rate_1min m then ["high_error_rate"] else []) ++
  (if bool_decide (cat = CIRCUIT_BREAKER) then ["circuit_breaker_open"] else []).

(** The response built in the [except] branch of
    [handle_prediction_error]. *)
Definition fallback_response (now : Z) (e : PyExc) (context : Context)
    : ErrorResponse :=
  {| error_id := "err_" +:+ pretty now;
     er_status_code := 500;
     error_code := "HANDLER_ERROR";
     message := "Internal error in error handler";
     er_detail := Some (exc_str e);
     category := INTERNAL_ERROR;
     severity := CRITICAL;
     timestamp := now;
     request_id := Some (ctx_request_id context);
     correlation_id := ctx_correlation_id context;
     retry_after := None;
     support_info := None |}.

(** [ErrorHandler.handle_prediction_error]: classify, build the response,
    record metrics, log, check alerts; any exception on the way is caught
    and answered with the fallback response. State changes made before the
    exception stay. *)
Definition handle_prediction_error (now : Z) (exception : PyExc)
    (context : Context) (h : ErrorHandler) : ErrorResponse * ErrorHandler :=
  let '(cat, sev) := _classify_error exception in
  let error_response := _create_error_response now exception cat sev context in
  let metrics := _record_error_metrics now cat sev (error_metrics h) in
  match _log_error now exception error_response context (_error_log h) with
  | Raise e =>
      (fallback_response now e context,
       {| error_metrics := metrics; _error_log := _error_log h; alerts := alerts h |})
  | Return log =>
      (error_response,
       {| error_metrics := metrics;
          _error_log := log;
          alerts := alerts h ++ _check_alert_conditions metrics cat sev |})
  end.

(** What one run of [retry_with_backoff] does besides returning: the calls
    of [func] (by attempt index, which is also the value left in
    [context.retry_count]) and the [asyncio.sleep] delays, in order. *)
Inductive RetryEvent : Type :=
| Attempt (attempt : nat)
| Sleep (delay : Q).

Definition is_Attempt (ev : RetryEvent) : bool :=
  match ev with Attempt _ => true | Sleep _ => false end.

(** Number of times the operation was invoked. *)
Definition attempts_made (tr : list RetryEvent) : nat :=
  length (List.filter is_Attempt tr).

(** [raise last_exception]; raising [None] is a [TypeError]. *)
Definition raise_last {A : Type} (last_exception : option PyExc) : Result A :=
  match last_exception with
  | Some e => Raise e
  | None => Raise (mkExc TypeError "exceptions must derive from BaseException")
  end.

(** The [for attempt in range(max_attempts)] loop of
    [ErrorHandler.retry_with_backoff], [remaining] iterations from index
    [attempt] on. [func i] is the outcome of the [i]-th invocation of the
    operation, [rnd i] the random draw of the [i]-th delay. Every delay
    is taken as computed; [FloatRange.retry_loop] keeps the case in which
    [get_delay] raises, and agrees with this loop while the powers stay in
    the float range. *)
Fixpoint retry_loop {A : Type} (p : RetryPolicy) (func : nat -> Result A)
    (rnd : nat -> Q) (remaining attempt : nat) (last_exception : option PyExc)
    : Result A * list RetryEvent :=
  match remaining with
  | O => (raise_last last_exception, [])
  | S remaining' =>
      match func attempt with
      | Return a => (Return a, [Attempt attempt])
      | Raise e =>
          if negb (should_retry p e (Z.of_nat attempt))
          then (raise_last (Some e), [Attempt attempt])
          else
            let sleep :=
              if Z.of_nat attempt <? max_attempts p - 1
              then [Sleep (get_delay p (rnd attempt) attempt)] else [] in
            let '(r, tr) := retry_loop p func rnd remaining' (S attempt) (Some e) in
            (r, Attempt attempt :: sleep ++ tr)
      end
  end.

(** [ErrorHandler.retry_with_backoff] *)
Definition retry_with_backoff {A : Type} (p : RetryPolicy)
    (func : nat -> Result A) (rnd : nat -> Q) : Result A * list RetryEvent :=
  retry_loop p func rnd (Z.to_nat (max_attempts p)) 0%nat None.

(** ** error_handler.py: the float range of the backoff *)

(** [get_delay] and [retry_loop] above read [exponential_base ** attempt]
    as the exact power, which is what Python computes as long as the power
    stays in the range of a float. Outside that range the power raises
    [OverflowError] before [min] is applied, and inside
    [retry_with_backoff] the error leaves the [except] block that asked for
    the delay. This module keeps the range. *)
Module FloatRange.

(** [sys.float_info.max], the largest finite float:
    [(2 - 2^-52) * 2^1023]. *)
Definition float_max : Q := inject_Z (2 ^ 1024 - 2 ^ 971).

(** A value that lies in the range of a float. *)
Definition representable (x : Q) : bool := Qle_bool (Qabs x) float_max.

Definition overflow_error : PyExc :=
  mkExc OverflowError "(34, 'Numerical result out of range')".

(** [x ** n] for a float [x] and an [int] [n >= 0]. *)
Definition float_pow (x : Q) (n : nat) : Result Q :=
  let power := (x ^ Z.of_nat n)%Q in
  if representable power then Return power else Raise overflow_error.

(** [delay = self.base_delay * (self.exponential_base ** attempt)];
    [delay = min(delay, self.max_delay)] *)
Definition capped_delay (p : RetryPolicy) (attempt : nat) : Result Q :=
  match float_pow (exponential_base p) attempt with
  | Raise e => Raise e
  | Return power => Return (Qmin (base_delay p * power)%Q (max_delay p))
  end.

(** [RetryPolicy.get_delay]; [rnd] is the value [random.random()] returns,
    drawn from [0, 1). *)
Definition get_delay (p : RetryPolicy) (rnd : Q) (attempt : nat) : Result Q :=
  match capped_delay p attempt with
  | Raise e => Raise e
  | Return delay =>
      Return (if jitter p then (delay * ((1 # 2) + rnd * (1 # 2)))%Q else delay)
  end.

(** The [for attempt in range(max_attempts)] loop of
    [ErrorHandler.retry_with_backoff]; an exception of [get_delay] is
    raised inside the [except] block and ends the call. *)
Fixpoint retry_loop {A : Type} (p : RetryPolicy) (func : nat -> Result A)
    (rnd : nat -> Q) (remaining attempt : nat) (last_exception : option PyExc)
    : Result A * list RetryEvent :=
  match remaining with
  | O => (raise_last last_exception, [])
  | S remaining' =>
      match func attempt with
      | Return a => (Return a, [Attempt attempt])
      | Raise e =>
          if negb (should_retry p e (Z.of_nat attempt))
          then (raise_last (Some e), [Attempt attempt])
          else if Z.of_nat attempt <? max_attempts p - 1
          then
            match get_delay p (rnd attempt) attempt with
            | Raise overflow => (Raise overflow, [Attempt attempt])
            | Return delay =>
                let '(r, tr) :=
                  retry_loop p func rnd remaining' (S attempt) (Some e) in
                (r, Attempt attempt :: Sleep delay :: tr)
            end
          else
            let '(r, tr) := retry_loop p func rnd remaining' (S attempt) (Some e) in
            (r, Attempt attempt :: tr)
      end
  end.

(** [ErrorHandler.retry_with_backoff] *)
Definition retry_with_backoff {A : Type} (p : RetryPolicy)
    (func : nat -> Result A) (rnd : nat -> Q) : Result A * list RetryEvent :=
  retry_loop p func rnd (Z.to_nat (max_attempts p)) 0%nat None.

End FloatRange.

(** ** The circuit breaker and the dispatcher *)

Inductive Phase : Type :=
| Closed
| Open
| HalfOpen.

#[global] Instance Phase_eq_dec : EqDecision Phase.
Proof. solve_decision. Defined.

(** The arguments of [@circuit(failure_threshold, recovery_timeout,
    expected_exception=Exception)]. *)
Record CircuitConfig : Type := mkCircuitConfig {
  failure_threshold : Z;
  recovery_timeout : Z
}.

(** The decorator of [call_azure_ml_api] in api_gateway.py. *)
Definition call_azure_ml_api_circuit : CircuitConfig :=
  {| failure_threshold := 5; recovery_timeout := 30 |}.

(** The defaults of [CircuitBreakerManager.get_circuit_breaker]. *)
Definition get_circuit_breaker_defaults : CircuitConfig :=
  {| failure_threshold := 5; recovery_timeout := 30 |}.

(** Modelled from the spec: the state of one breaker. The breaker itself is
    the imported [circuitbreaker] package, whose code is not part of the
    sources; the specification (section 3) gives its state as phase,
    failure_count and opened_at, the recovery deadline being
    [opened_at + recovery_timeout]. *)
Record CircuitState : Type := mkCircuitState {
  phase : Phase;
  failure_count : Z;
  opened_at : Z
}.

(** Modelled from the spec: a breaker "starts Closed". *)
Definition circuit_init : CircuitState :=
  {| phase := Closed; failure_count := 0; opened_at := 0 |}.

(** Modelled from the spec: the instant from which an Open breaker lets a
    trial in, "opened_at + recovery_timeout" (section 4.2). *)
Definition recovery_deadline (cfg : CircuitConfig) (st : CircuitState) : Z :=
  opened_at st + recovery_timeout cfg.

(** Modelled from the spec: admission of a call at time [now] (section 4.2).
    "While Open, every call fails immediately with CircuitOpen and performs
    no network attempt, until now >= opened_at + recovery_timeout; the next
    call after that deadline is admitted as a single HalfOpen trial - only
    the first caller past the deadline may attempt it, all others still
    observe Open." [None] is the refusal. *)
Definition enter (cfg : CircuitConfig) (now : Z) (st : CircuitState)
    : option CircuitState :=
  match phase st with
  | Closed => Some st
  | Open =>
      if recovery_deadline cfg st <=? now
      then Some {| phase := HalfOpen;
                   failure_count := failure_count st;
                   opened_at := opened_at st |}
      else None
  | HalfOpen => None
  end.

(** Modelled from the spec: a failed call (section 4.2). A failure
    "increments failure_count; on reaching failure_threshold the breaker
    transitions to Open, recording opened_at"; a failed HalfOpen trial
    "returns to Open with opened_at refreshed". A failure reported while
    the breaker is already Open only counts. *)
Definition record_failure (cfg : CircuitConfig) (now : Z) (st : CircuitState)
    : CircuitState :=
  let count := failure_count st + 1 in
  match phase st with
  | Closed =>
      if failure_threshold cfg <=? count
      then {| phase := Open; failure_count := count; opened_at := now |}
      else {| phase := Closed; failure_count := count; opened_at := opened_at st |}
  | HalfOpen => {| phase := Open; failure_count := count; opened_at := now |}
  | Open => {| phase := Open; failure_count := count; opened_at := opened_at st |}
  end.

(** Modelled from the spec: a successful call (sections 4.2 and 8). "A
    successful HalfOpen trial resets the breaker to Closed
    (failure_count = 0)"; a success in any other phase "leaves
    failure_count unchanged". *)
Definition record_success (st : CircuitState) : CircuitState :=
  match phase st with
  | HalfOpen => {| phase := Closed; failure_count := 0; opened_at := opened_at st |}
  | _ => st
  end.

(** The [CircuitBreakerError] a refused call raises. *)
Definition circuit_open_error : PyExc :=
  mkExc CircuitBreakerError "Circuit breaker is open".

(** What one dispatch yields: the result, the retry trace (empty when no
    attempt was made) and the breaker afterwards. *)
Record Dispatch (A : Type) : Type := mkDispatch {
  d_result : Result A;
  d_trace : list RetryEvent;
  d_circuit : CircuitState
}.
Arguments mkDispatch {A} _ _ _.
Arguments d_result {A} _.
Arguments d_trace {A} _.
Arguments d_circuit {A} _.

(** Modelled from the spec: [Dispatcher.execute] (section 4.2). The sources
    hold the two parts, [ErrorHandler.retry_with_backoff] and the breaker
    decorator, but no function that composes them; the specification nests
    the retry inside what the breaker admits: "an Open circuit at entry
    surfaces CircuitOpen without consuming an attempt", "exhausted retries
    surface the last underlying error", and the call as a whole counts once.
    In the sources this nesting is what the wrapper of
    [get_circuit_breaker], [protected_call(func, ...)], gives when [func]
    is [retry_with_backoff]. [now] is the clock at entry, [now_done] the
    clock when the call completes. *)
Definition execute {A : Type} (cfg : CircuitConfig) (p : RetryPolicy)
    (now now_done : Z) (operation : nat -> Result A) (rnd : nat -> Q)
    (st : CircuitState) : Dispatch A :=
  match enter cfg now st with
  | None => mkDispatch (Raise circuit_open_error) [] st
  | Some st_entered =>
      let '(r, tr) := retry_with_backoff p operation rnd in
      match r with
      | Return a => mkDispatch (Return a) tr (record_success st_entered)
      | Raise e => mkDispatch (Raise e) tr (record_failure cfg now_done st_entered)
      end
  end.

(** [CircuitBreakerManager._circuit_breakers]: one breaker per endpoint,
    each with the configuration it was created with. *)
Record Breaker : Type := mkBreaker {
  b_config : CircuitConfig;
  b_state : CircuitState
}.

(** [CircuitBreakerManager.get_circuit_breaker]: the breaker of [endpoint],
    created with the given configuration when the table has none; an
    existing breaker keeps the configuration of its creation. *)
Definition get_circuit_breaker (endpoint : string) (cfg : CircuitConfig)
    (table : gmap string Breaker) : gmap string Breaker * Breaker :=
  match table !! endpoint with
  | Some b => (table, b)
  | None =>
      let b := {| b_config := cfg; b_state := circuit_init |} in
      (<[endpoint := b]> table, b)
  end.

(** Modelled from the spec: [Dispatcher.execute(target_key, operation)] on
    the table of breakers (section 4.2, "per target_key"). *)
Definition execute_target {A : Type} (p : RetryPolicy) (target_key : string)
    (now now_done : Z) (operation : nat -> Result A) (rnd : nat -> Q)
    (table : gmap string Breaker)
    : Result A * list RetryEvent * gmap string Breaker :=
  let '(table1, b) := get_circuit_breaker target_key get_circuit_breaker_defaults table in
  let d := execute (b_config b) p now now_done operation rnd (b_state b) in
  (d_result d, d_trace d,
   <[target_key := {| b_config := b_config b; b_state := d_circuit d |}]> table1).

(** ** auth_bridge.py: TokenCache *)

(** A cached [token_data] dict: the payload and the ["expires_at"] key that
    [set] adds. The clock counts microseconds, the resolution of
    [datetime]. *)
Record CacheEntry (T : Type) : Type := mkCacheEntry {
  token_data : T;
  expires_at : Z
}.
Arguments mkCacheEntry {T} _ _.
Arguments token_data {T} _.
Arguments expires_at {T} _.

(** [timedelta(seconds=ttl_seconds)] *)
Definition seconds (ttl_seconds : Z) : Z := ttl_seconds * 1000000.

(** [TokenCache.get]: the entry when present and not expired; an expired
    entry is deleted. *)
Definition TokenCache_get {T : Type} (now : Z) (key : string)
    (cache : gmap string (CacheEntry T))
    : option (CacheEntry T) * gmap string (CacheEntry T) :=
  match cache !! key with
  | Some entry =>
      if now <? expires_at entry then (Some entry, cache)
      else (None, delete key cache)
  | None => (None, cache)
  end.

(** [TokenCache.set] *)
Definition TokenCache_set {T : Type} (now : Z) (key : string) (data : T)
    (ttl_seconds : Z) (cache : gmap string (CacheEntry T))
    : gmap string (CacheEntry T) :=
  <[key := {| token_data := data; expires_at := now + seconds ttl_seconds |}]> cache.

(** [TokenCache.clear]: [if key:] is false for [None] and for the empty
    string. *)
Definition TokenCache_clear {T : Type} (key : option string)
    (cache : gmap string (CacheEntry T)) : gmap string (CacheEntry T) :=
  match key with
  | Some k => if bool_decide (k = "") then ∅ else delete k cache
  | None => ∅
  end.

(** ** auth_bridge.py: AuthenticationBridge *)

Record UserInfo : Type := mkUserInfo {
  user_id : string;
  username : string;
  roles : list string;
  permissions : list string;
  user_expires_at : Z
}.

(** The four strings [_detect_auth_method] returns. *)
Inductive AuthMethod : Type :=
| bearer_jwt
| api_key
| basic_auth
| legacy_token.

#[global] Instance AuthMethod_eq_dec : EqDecision AuthMethod.
Proof. solve_decision. Defined.

(** [AuthenticationBridge._is_jwt_token] *)
Definition _is_jwt_token (token : string) : bool :=
  let parts := PyStr.split "." token in
  (length parts =? 3)%nat.

(** [AuthenticationBridge._detect_auth_method] *)
Definition _detect_auth_method (auth_token : string) : AuthMethod :=
  if PyStr.startswith auth_token "Bearer " then
    let token_part := PyStr.drop 7 auth_token in
    if _is_jwt_token token_part then bearer_jwt else api_key
  else if PyStr.startswith auth_token "Basic " then basic_auth
  else if PyStr.startswith auth_token "Legacy " then legacy_token
  else api_key.

(** What [validate_credentials] ran besides the cache lookup. *)
Inductive AuthEvent : Type :=
| DetectedScheme (m : AuthMethod)
| RanValidator (m : AuthMethod).

Section AuthenticationBridge.

(** [hashlib.sha256(s.encode()).hexdigest()] *)
Variable sha256_hexdigest : string -> string.

(** The scheme-specific validators, [_validate_jwt_token],
    [_validate_api_key], [_validate_basic_auth] and
    [_validate_legacy_token]: each catches every exception and returns a
    [UserInfo] or [None]; the outcome depends on the clock and on the
    collaborators (JWT library, Key Vault, Fernet), so they are taken as
    given. *)
Variable _validate_jwt_token : Z -> string -> option UserInfo.
Variable _validate_api_key : Z -> string -> option UserInfo.
Variable _validate_basic_auth : Z -> string -> option UserInfo.
Variable _validate_legacy_token : Z -> string -> option UserInfo.

(** [config.token_cache_ttl] *)
Variable token_cache_ttl : Z.

(** [AuthenticationBridge._generate_cache_key] *)
Definition _generate_cache_key (auth_token : string) : string :=
  PyStr.take 32 (sha256_hexdigest auth_token).

Definition run_validator (m : AuthMethod) (now : Z) (auth_token : string)
    : option UserInfo :=
  match m with
  | bearer_jwt => _validate_jwt_token now auth_token
  | api_key => _validate_api_key now auth_token
  | basic_auth => _validate_basic_auth now auth_token
  | legacy_token => _validate_legacy_token now auth_token
  end.

(** [AuthenticationBridge.validate_credentials]. [now] is the clock at the
    cache lookup and the validation, [now_set] the clock when the result is
    cached. *)
Definition validate_credentials (now now_set : Z) (auth_token : string)
    (cache : gmap string (CacheEntry UserInfo))
    : option UserInfo * gmap string (CacheEntry UserInfo) * list AuthEvent :=
  let cache_key := _generate_cache_key auth_token in
  let '(cached_user, cache) := TokenCache_get now cache_key cache in
  match cached_user with
  | Some entry => (Some (token_data entry), cache, [])
  | None =>
      let auth_method := _detect_auth_method auth_token in
      let user_info := run_validator auth_method now auth_token in
      let events := [DetectedScheme auth_method; RanValidator auth_method] in
      match user_info with
      | Some u =>
          (Some u, TokenCache_set now_set cache_key u token_cache_ttl cache, events)
      | None => (None, cache, events)
      end
  end.

End AuthenticationBridge.

(** ** api_gateway.py *)

(** JSON values carried by requests and responses. *)
#[warnings="-register-all"]
Inductive Json : Type :=
| JNull
| JBool (b : bool)
| JNumber (q : Q)
| JString (s : string)
| JArray (l : list Json)
| JObject (l : list (string * Json)).

Record LegacyPredictionRequest : Type := mkLegacyPredictionRequest {
  input_data : list (string * Json);
  model_id : option string;
  req_correlation_id : option string
}.

Record LegacyPredictionResponse : Type := mkLegacyPredictionResponse {
  prediction : Json;
  confidence : option Q;
  model_version : option string;
  resp_request_id : string;
  resp_timestamp : Z;
  status : string
}.

(** [obj[key]] on an instance of a dataclass: such a class has no
    [__getitem__]. *)
Definition subscript_dataclass {A : Type} (cls : string) (key : string) : Result A :=
  Raise (mkExc TypeError ("'" +:+ cls +:+ "' object is not subscriptable")).

(** [predict], from the point where the body of its [try] block (request
    transformation, endpoint and header lookup, [call_azure_ml_api],
    response transformation) has produced [outcome]. *)
Definition predict (now : Z) (outcome : Result LegacyPredictionResponse)
    (context : RequestContext) (h : ErrorHandler)
    : Result LegacyPredictionResponse * ErrorHandler :=
  match outcome with
  | Return legacy_response => (Return legacy_response, h)
  | Raise e =>
      match exc_class e with
      | HTTPException _ _ => (Raise e, h)
      | _ =>
          let '(error_response, h) := handle_prediction_error now e (ReqCtx context) h in
          match subscript_dataclass "ErrorResponse" "status_code" with
          | Raise e' => (Raise e', h)
          | Return status_code =>
              match subscript_dataclass "ErrorResponse" "detail" with
              | Raise e' => (Raise e', h)
              | Return detail => (Raise (mkExc (HTTPException status_code detail) ""), h)
              end
          end
      end
  end.

(** An element of [processed_responses]: the dict built for a failed
    request, or the response object of a successful one. *)
Inductive BatchItem : Type :=
| ErrorItem (error : bool) (status_code : Z) (detail : option string) (request_index : nat)
| ResponseItem (r : LegacyPredictionResponse).

(** [r.get("error")]: a dict answers; a [LegacyPredictionResponse] is a
    pydantic model and has no [get]. *)
Definition item_get_error (r : BatchItem) : Result bool :=
  match r with
  | ErrorItem error _ _ _ => Return error
  | ResponseItem _ => Raise (no_attribute "LegacyPredictionResponse" "get")
  end.

(** The value [batch_predict] returns. *)
Record BatchResult : Type := mkBatchResult {
  batch_id : string;
  total_requests : nat;
  successful_predictions : nat;
  failed_predictions : nat;
  responses : list BatchItem
}.

(** The loop [for i, response in enumerate(responses)] of [batch_predict],
    from index [i] on. *)
Fixpoint process_responses (now : Z) (context : RequestContext) (i : nat)
    (gathered : list (Result LegacyPredictionResponse)) (h : ErrorHandler)
    : Result (list BatchItem) * ErrorHandler :=
  match gathered with
  | [] => (Return [], h)
  | Return response :: rest =>
      match process_responses now context (S i) rest h with
      | (Return items, h) => (Return (ResponseItem response :: items), h)
      | (Raise e, h) => (Raise e, h)
      end
  | Raise exception :: rest =>
      let '(error_response, h) :=
        handle_prediction_error now exception (ReqCtx context) h in
      match subscript_dataclass "ErrorResponse" "status_code" with
      | Raise e => (Raise e, h)
      | Return status_code =>
          match subscript_dataclass "ErrorResponse" "detail" with
          | Raise e => (Raise e, h)
          | Return detail =>
              match process_responses now context (S i) rest h with
              | (Return items, h) =>
                  (Return (ErrorItem true status_code detail i :: items), h)
              | (Raise e, h) => (Raise e, h)
              end
          end
      end
  end.

(** [len([r for r in processed_responses if cond(r.get("error"))])], with
    [cond] the identity for the failed count and [not] for the successful
    one. *)
Fixpoint count_where (cond : bool -> bool) (items : list BatchItem) : Result nat :=
  match items with
  | [] => Return O
  | r :: rest =>
      match item_get_error r with
      | Raise e => Raise e
      | Return error =>
          match count_where cond rest with
          | Raise e => Raise e
          | Return n => Return (if cond error then S n else n)
          end
      end
  end.

Definition batch_failed : PyExc :=
  mkExc (HTTPException 500 (Some "Batch prediction failed")) "".

(** [batch_predict]. [limit] is [config.max_concurrent_requests];
    [worker i req] is the outcome of [process_single_request] on the
    request at index [i], which [asyncio.gather(...,
    return_exceptions=True)] hands back at that index. Every exception
    inside the [try] block is answered with HTTP 500. The answer is [None]
    when the call does not return: a semaphore of value 0 never lets a
    worker in. *)
Definition batch_predict (limit : Z) (now : Z)
    (worker : nat -> LegacyPredictionRequest -> Result LegacyPredictionResponse)
    (requests : list LegacyPredictionRequest)
    (context : RequestContext) (h : ErrorHandler)
    : option (Result BatchResult) * ErrorHandler :=
  if limit <? 0 then (Some (Raise batch_failed), h)
  else if (limit =? 0) && negb (bool_decide (requests = [])) then (None, h)
  else
    let gathered := imap worker requests in
    match process_responses now context 0 gathered h with
    | (Raise _, h) => (Some (Raise batch_failed), h)
    | (Return processed_responses, h) =>
        match count_where negb processed_responses with
        | Raise _ => (Some (Raise batch_failed), h)
        | Return successful =>
            match count_where id processed_responses with
            | Raise _ => (Some (Raise batch_failed), h)
            | Return failed =>
                (Some (Return {| batch_id := rc_request_id context;
                                 total_requests := length requests;
                                 successful_predictions := successful;
                                 failed_predictions := failed;
                                 responses := processed_responses |}), h)
            end
        end
    end.

(** ** Notions used to state the properties *)

(** Sum of the values of a counter dict. *)
Definition sum_values `{Countable K} (d : gmap K Z) : Z :=
  map_fold (fun _ v acc => v + acc) 0 d.

(** [d.get(k, 0)] *)
Definition counter `{Countable K} (d : gmap K Z) (k : K) : Z :=
  default 0 (d !! k).

(** The counters agree with each other and none is negative. *)
Definition metrics_consistent (m : ErrorMetrics) : Prop :=
  total_errors m = sum_values (errors_by_category m) /\
  total_errors m = sum_values (errors_by_severity m) /\
  0 <= total_errors m /\
  (forall c, 0 <= counter (errors_by_category m) c) /\
  (forall s, 0 <= counter (errors_by_severity m) s).

(** No counter of [m'] is below the same counter of [m]. *)
Definition metrics_le (m m' : ErrorMetrics) : Prop :=
  total_errors m <= total_errors m' /\
  (forall c, counter (errors_by_category m) c <= counter (errors_by_category m') c) /\
  (forall s, counter (errors_by_severity m) s <= counter (errors_by_severity m') s).

(** One error-handling call: the clock, the exception, the context. *)
Definition HandlerCall : Type := Z * PyExc * Context.

(** The handler after a sequence of error-handling calls. *)
Definition handle_all (calls : list HandlerCall) (h : ErrorHandler) : ErrorHandler :=
  fold_left (fun h '(now, exception, context) =>
               snd (handle_prediction_error now exception context h)) calls h.

(** One dispatch as the dispatcher receives it. *)
Record Call (A : Type) : Type := mkCall {
  c_now : Z;
  c_done : Z;
  c_operation : nat -> Result A;
  c_rnd : nat -> Q
}.
Arguments mkCall {A} _ _ _ _.
Arguments c_now {A} _.
Arguments c_done {A} _.
Arguments c_operation {A} _.
Arguments c_rnd {A} _.

Definition execute_call {A : Type} (cfg : CircuitConfig) (p : RetryPolicy)
    (c : Call A) (st : CircuitState) : Dispatch A :=
  execute cfg p (c_now c) (c_done c) (c_operation c) (c_rnd c) st.

(** The breaker after a sequence of dispatches to one target. *)
Definition execute_all {A : Type} (cfg : CircuitConfig) (p : RetryPolicy)
    (calls : list (Call A)) (st : CircuitState) : CircuitState :=
  fold_left (fun st c => d_circuit (execute_call cfg p c st)) calls st.

(** The breaker a dispatch to [target_key] runs under: the one
    [get_circuit_breaker] hands out for it. *)
Definition breaker_of (target_key : string) (table : gmap string Breaker)
    : Breaker :=
  (get_circuit_breaker target_key get_circuit_breaker_defaults table).2.

(** One dispatch to a target, on the table of breakers. *)
Definition dispatch {A : Type} (p : RetryPolicy) (target_key : string)
    (c : Call A) (table : gmap string Breaker)
    : Result A * list RetryEvent * gmap string Breaker :=
  execute_target p target_key (c_now c) (c_done c) (c_operation c) (c_rnd c) table.

(** The table of breakers after a sequence of dispatches, each to the
    target it names. *)
Definition dispatch_all {A : Type} (p : RetryPolicy)
    (calls : list (string * Call A)) (table : gmap string Breaker)
    : gmap string Breaker :=
  fold_left (fun table call => (dispatch p call.1 call.2 table).2) calls table.

(** The dispatches of a sequence that go to [target_key], in order. *)
Definition calls_to {A : Type} (target_key : string)
    (calls : list (string * Call A)) : list (Call A) :=
  map snd (filter (fun call => call.1 = target_key) calls).


(** A dispatch whose retry loop ends with an error. *)
Definition call_fails {A : Type} (p : RetryPolicy) (c : Call A) : Prop :=
  is_Return (fst (retry_with_backoff p (c_operation c) (c_rnd c))) = false.

(** Every attempt the policy allows fails. *)
Definition fails_every_attempt {A : Type} (p : RetryPolicy)
    (operation : nat -> Result A) : Prop :=
  forall i : nat, Z.of_nat i < max_attempts p -> exists e, operation i = Raise e.

(** Every attempt the policy allows fails with an error the policy
    retries. *)
Definition fails_retryably {A : Type} (p : RetryPolicy)
    (operation : nat -> Result A) : Prop :=
  forall i : nat, Z.of_nat i < max_attempts p ->
    exists e, operation i = Raise e /\ should_retry p e (Z.of_nat i) = true.

(** The operation fails with a retryable error on the attempts before
    index [k] and returns [a] on attempt [k], within the allowed number. *)
Definition succeeds_at {A : Type} (p : RetryPolicy)
    (operation : nat -> Result A) (k : nat) (a : A) : Prop :=
  Z.of_nat k < max_attempts p /\
  operation k = Return a /\
  forall i : nat, (i < k)%nat ->
    exists e, operation i = Raise e /\ should_retry p e (Z.of_nat i) = true.

(** The moves of a breaker: admitting a call, and the completion of an
    admitted call with success or failure. *)
Inductive circuit_step (cfg : CircuitConfig) : CircuitState -> CircuitState -> Prop :=
| step_enter now st st' :
    enter cfg now st = Some st' -> circuit_step cfg st st'
| step_success st :
    circuit_step cfg st (record_success st)
| step_failure now st :
    circuit_step cfg st (record_failure cfg now st).

(** The edges Closed->Open->HalfOpen->{Closed|Open}. *)
Definition phase_edge (a b : Phase) : Prop :=
  (a, b) ∈ [(Closed, Open); (Open, HalfOpen); (HalfOpen, Closed); (HalfOpen, Open)].

(** The failure [predict] passes on when it subscripts the handler's
    answer. *)
Definition not_subscriptable : PyExc :=
  mkExc TypeError "'ErrorResponse' object is not subscriptable".

(** The responses of a batch in which exactly the requests at indices 1
    and 3 fail. *)
Definition fails_at_1_and_3 (ok : LegacyPredictionResponse) (e : PyExc)
    (i : nat) (_ : LegacyPredictionRequest) : Result LegacyPredictionResponse :=
  if bool_decide (i ∈ [1; 3]%nat) then Raise e else Return ok.

Definition is_ResponseItem (r : BatchItem) : bool :=
  match r with ResponseItem _ => true | ErrorItem _ _ _ _ => false end.

(** The answers [handle_prediction_error] can give: the response built
    from the classification of the error, or the fallback. *)
Definition is_fallback (r : ErrorResponse) : Prop :=
  category r = INTERNAL_ERROR /\ severity r = CRITICAL /\
  er_status_code r = 500 /\ error_code r = "HANDLER_ERROR".

(** Operations and calls used in the worked examples: one that always
    times out, one that times out twice and then succeeds (the function of
    the repository's test [test_retry_with_backoff]), a fixed random draw,
    and a dispatch that always fails to connect. *)
Definition always_times_out : nat -> Result string :=
  fun _ => Raise (mkExc HttpxTimeoutException "Timeout").

Definition succeeds_third_time : nat -> Result string :=
  fun i => if (i <? 2)%nat then Raise (mkExc HttpxTimeoutException "Timeout")
           else Return "success".

Definition fixed_draw : nat -> Q := fun _ => (1 # 2)%Q.

Definition connection_fails (now : Z) : Call string :=
  {| c_now := now; c_done := now + 1;
     c_operation := fun _ => Raise (mkExc HttpxNetworkError "Connection failed");
     c_rnd := fixed_draw |}.

(** A principal used in the worked examples. *)
Definition sample_user : UserInfo :=
  {| user_id := "u1"; username := "u1"; roles := ["user"];
     permissions := ["predict"]; user_expires_at := 86400000000 |}.

(** ** Further notions: retry traces *)

(** The delays a retry run slept, in order. *)
Fixpoint slept (tr : list RetryEvent) : list Q :=
  match tr with
  | [] => []
  | Sleep d :: tr => d :: slept tr
  | Attempt _ :: tr => slept tr
  end.

(** The sum of the delays a retry run slept. *)
Definition total_slept (tr : list RetryEvent) : Q :=
  fold_right Qplus 0%Q (slept tr).

(** The delays computed after the failed attempts [0 .. n-1]. *)
Definition delays_before (p : RetryPolicy) (rnd : nat -> Q) (n : nat) : list Q :=
  map (fun i => get_delay p (rnd i) i) (seq 0 n).

(** The operation fails retryably on the attempts before index [j] and
    fails with [e] on attempt [j], where retrying ends: [e] is not
    retried, or [j] is the last attempt the policy allows. *)
Definition stops_at {A : Type} (p : RetryPolicy)
    (operation : nat -> Result A) (j : nat) (e : PyExc) : Prop :=
  Z.of_nat j < max_attempts p /\
  operation j = Raise e /\
  (should_retry p e (Z.of_nat j) = false \/ Z.of_nat j = max_attempts p - 1) /\
  forall i : nat, (i < j)%nat ->
    exists e', operation i = Raise e' /\ should_retry p e' (Z.of_nat i) = true.

(** A policy whose delays are not negative. *)
Definition nonneg_policy (p : RetryPolicy) : Prop :=
  (0 <= base_delay p)%Q /\ (0 <= exponential_base p)%Q /\ (0 <= max_delay p)%Q.

(** The powers [exponential_base ** i] of the attempts before [n] lie in
    the float range. *)
Definition powers_representable (p : RetryPolicy) (n : nat) : Prop :=
  forall i : nat, (i < n)%nat ->
    FloatRange.representable (exponential_base p ^ Z.of_nat i)%Q = true.

(** Attempt [i] is the first whose power leaves the float range. *)
Definition first_overflow (p : RetryPolicy) (i : nat) : Prop :=
  powers_representable p i /\
  FloatRange.representable (exponential_base p ^ Z.of_nat i)%Q = false.

(** The backoff rule at attempt [n]: [get_delay] returns
    [min(base_delay * exponential_base^n, max_delay)] times a factor of
    [[1/2, 1]], a delay that does not exceed [max_delay] and is not below
    half the capped exponential value. *)
Definition delay_follows_rule (p : RetryPolicy) (rnd : Q) (n : nat) : Prop :=
  let capped :=
    Qmin (base_delay p * exponential_base p ^ Z.of_nat n)%Q (max_delay p) in
  exists delay factor : Q,
    FloatRange.get_delay p rnd n = Return delay /\
    ((1 # 2) <= factor)%Q /\ (factor <= 1)%Q /\
    (delay == capped * factor)%Q /\
    (delay <= max_delay p)%Q /\
    (capped * (1 # 2) <= delay)%Q.

(** A policy built with a negative cap. *)
Definition negative_cap_policy : RetryPolicy :=
  {| max_attempts := 3;
     base_delay := 1%Q;
     max_delay := (-1)%Q;
     exponential_base := 2%Q;
     jitter := true |}.


(** Operations used in the worked examples: one that is refused with HTTP
    401 after one timeout. *)
Definition unauthorized_after_timeout : nat -> Result string :=
  fun i => if (i <? 1)%nat then Raise (mkExc HttpxTimeoutException "Timeout")
           else Raise (mkExc (HTTPStatusError 401) "Unauthorized").


(** ** Further notions: the error handler's read side *)

(** [l[start:]]: a negative [start] counts from the end and is clamped at
    the beginning of the list. *)
Definition py_slice_from {A : Type} (start : Z) (l : list A) : list A :=
  if start <? 0 then drop (length l - Z.to_nat (- start)) l
  else drop (Z.to_nat start) l.

(** An element of the list [get_recent_errors] returns. *)
Record ErrorSummary : Type := mkErrorSummary {
  es_timestamp : Z;
  es_error_id : string;
  es_category : string;
  es_severity : string;
  es_message : string;
  es_request_id : string;
  es_endpoint : string
}.

(** The dict built for one log entry; [error["context"].endpoint] is the
    only lookup that can fail. *)
Definition summarize (entry : LogEntry) : Result ErrorSummary :=
  match ctx_endpoint (log_context entry) with
  | Raise e => Raise e
  | Return endpoint =>
      Return {| es_timestamp := log_timestamp entry;
                es_error_id := error_id (log_error_response entry);
                es_category := category_value (category (log_error_response entry));
                es_severity := severity_value (severity (log_error_response entry));
                es_message := message (log_error_response entry);
                es_request_id := ctx_request_id (log_context entry);
                es_endpoint := endpoint |}
  end.

Fixpoint summarize_all (entries : list LogEntry) : Result (list ErrorSummary) :=
  match entries with
  | [] => Return []
  | entry :: rest =>
      match summarize entry with
      | Raise e => Raise e
      | Return s =>
          match summarize_all rest with
          | Raise e => Raise e
          | Return l => Return (s :: l)
          end
      end
  end.

(** [ErrorHandler.get_recent_errors]: [self._error_log[-limit:] if
    self._error_log else []], summarized. *)
Definition get_recent_errors (limit : Z) (h : ErrorHandler)
    : Result (list ErrorSummary) :=
  let recent_errors :=
    match _error_log h with
    | [] => []
    | _ => py_slice_from (- limit) (_error_log h)
    end in
  summarize_all recent_errors.

(** [ErrorHandler.clear_metrics] *)
Definition clear_metrics (h : ErrorHandler) : ErrorHandler :=
  {| error_metrics := ErrorMetrics_init; _error_log := []; alerts := alerts h |}.

Definition is_ReqCtx (call : HandlerCall) : Prop :=
  exists c, call.2 = ReqCtx c.

Definition is_ErrCtx_entry (entry : LogEntry) : Prop :=
  exists c, log_context entry = ErrCtx c.

(** A context used in the worked examples. *)
Definition sample_error_context : ErrorContext :=
  {| ec_request_id := "test_123"; ec_correlation_id := Some "corr_456";
     ec_user_id := Some "test_user"; ec_endpoint := "/predict";
     ec_method := "POST"; ec_timestamp := 0; ec_processing_time := (3 # 2)%Q;
     ec_retry_count := 0 |}.

Definition sample_request_context : RequestContext :=
  {| rc_request_id := "req_1"; rc_correlation_id := None;
     rc_start_time := 0%Q; rc_legacy_format := false; rc_auth_token := None |}.


(** ** auth_bridge.py: the scheme validators *)

(** [s.replace(old, new)] for a non-empty [old]: the occurrences are found
    from left to right and do not overlap. [skip] counts the characters of
    a matched occurrence still to be passed over. *)
Fixpoint replace_go (old new : string) (skip : nat) (s : string) : string :=
  match s with
  | EmptyString => EmptyString
  | String c r =>
      match skip with
      | S k => replace_go old new k r
      | O =>
          if String.prefix old s
          then new +:+ replace_go old new (String.length old - 1) r
          else String c (replace_go old new 0 r)
      end
  end.

Definition str_replace (old new s : string) : string := replace_go old new 0 s.

(** [s.split(sep, 1)] unpacked into two names: the text before and after
    the first separator, [None] (the [ValueError] of the unpacking) when
    there is no separator. *)
Fixpoint split_once (sep : ascii) (s : string) : option (string * string) :=
  match s with
  | EmptyString => None
  | String c r =>
      if Ascii.eqb c sep then Some (EmptyString, r)
      else match split_once sep r with
           | Some (before, after) => Some (String c before, after)
           | None => None
           end
  end.

(** [timedelta(hours=h)] on the microsecond clock. *)
Definition hours (h : Z) : Z := h * 3600 * 1000000.

(** An entry of [config.valid_api_keys]: every attribute is optional. *)
Record ApiKeyInfo : Type := mkApiKeyInfo {
  ki_user_id : option string;
  ki_username : option string;
  ki_roles : option (list string);
  ki_permissions : option (list string)
}.

(** The [UserInfo] built for a key of the static table. *)
Definition api_key_user (key_info : ApiKeyInfo) (now : Z) : UserInfo :=
  {| user_id := default "api_user" (ki_user_id key_info);
     username := default "api_user" (ki_username key_info);
     roles := default ["user"] (ki_roles key_info);
     permissions := default ["predict"] (ki_permissions key_info);
     user_expires_at := now + hours 24 |}.

(** [AuthenticationBridge._validate_api_key]. [secret_client] is [None]
    when no Key Vault is configured; otherwise it answers, for a secret
    name, the [UserInfo] built from the JSON value of that secret, and
    [None] when the secret is missing or empty or any step raises (the
    source catches every exception there). *)
Definition _validate_api_key (valid_api_keys : gmap string ApiKeyInfo)
    (secret_client : option (string -> option UserInfo))
    (sha256_hexdigest : string -> string) (now : Z) (auth_token : string)
    : option UserInfo :=
  let api_key := str_replace "ApiKey " "" (str_replace "Bearer " "" auth_token) in
  match valid_api_keys !! api_key with
  | Some key_info => Some (api_key_user key_info now)
  | None =>
      match secret_client with
      | Some get_secret =>
          let key_hash := sha256_hexdigest api_key in
          let secret_name := "api-key-" +:+ PyStr.take 16 key_hash in
          get_secret secret_name
      | None => None
      end
  end.

(** An entry of [config.basic_auth_users]. *)
Record BasicAuthUser : Type := mkBasicAuthUser {
  bu_password : option string;
  bu_roles : option (list string);
  bu_permissions : option (list string)
}.

(** [AuthenticationBridge._validate_basic_auth]. [b64decode] is
    [base64.b64decode(s).decode("utf-8")], [None] when it raises; every
    exception of the body ends in [None]. *)
Definition _validate_basic_auth (basic_auth_users : gmap string BasicAuthUser)
    (b64decode : string -> option string) (now : Z) (auth_token : string)
    : option UserInfo :=
  let encoded_credentials := str_replace "Basic " "" auth_token in
  match b64decode encoded_credentials with
  | None => None
  | Some decoded_credentials =>
      match split_once ":" decoded_credentials with
      | None => None
      | Some (username, password) =>
          match basic_auth_users !! username with
          | Some user_config =>
              match bu_password user_config with
              | None => None
              | Some configured =>
                  if bool_decide (configured = password)
                  then Some {| user_id := username;
                               username := username;
                               roles := default ["user"] (bu_roles user_config);
                               permissions := default ["predict"] (bu_permissions user_config);
                               user_expires_at := now + hours 8 |}
                  else None
              end
          | None => None
          end
      end
  end.

(** The part of [_validate_legacy_token] that parses the (decrypted) token
    and checks its age. [py_int] is [int], [None] when it raises;
    [fromtimestamp] is [datetime.fromtimestamp], [None] when it raises (a
    time outside the years 1 to 9999, or outside what the platform
    converts); [time_time] is [time.time()]. The subtraction converts the
    [int] to a float, which raises beyond the float range. Every exception
    is caught and answered with [None]. *)
Definition parse_legacy_token (py_int : string -> option Z)
    (fromtimestamp : Z -> option Z) (time_time : Q)
    (legacy_token : string) : option UserInfo :=
  let parts := PyStr.split ":" legacy_token in
  match parts with
  | uid :: ts :: _ =>
      match py_int ts with
      | None => None
      | Some timestamp =>
          if negb (FloatRange.representable (inject_Z timestamp)) then None
          else
            let token_age := (time_time - inject_Z timestamp)%Q in
            if Qle_bool 86400 token_age then None
            else
              match fromtimestamp (timestamp + 86400) with
              | None => None
              | Some expires_at =>
                  Some {| user_id := uid;
                          username := uid;
                          roles := ["legacy_user"];
                          permissions := ["predict"];
                          user_expires_at := expires_at |}
              end
      end
  | _ => None
  end.

(** [AuthenticationBridge._validate_legacy_token]. [decrypt] is the Fernet
    decryption, [None] when it raises. *)
Definition _validate_legacy_token (encrypt_legacy_tokens : bool)
    (decrypt : string -> option string) (py_int : string -> option Z)
    (fromtimestamp : Z -> option Z)
    (time_time : Q) (auth_token : string) : option UserInfo :=
  let legacy_token := str_replace "Legacy " "" auth_token in
  if encrypt_legacy_tokens then
    match decrypt legacy_token with
    | None => None
    | Some decrypted_token =>
        parse_legacy_token py_int fromtimestamp time_time decrypted_token
    end
  else parse_legacy_token py_int fromtimestamp time_time legacy_token.

(** A [datetime.fromtimestamp] for the worked examples: times from the
    epoch to the end of the year 9999, in microseconds. *)
Definition sample_fromtimestamp (t : Z) : option Z :=
  if (0 <=? t) && (t <=? 253402300799) then Some (t * 1000000) else None.

(** Values used in the worked examples. *)
Definition sample_keys : gmap string ApiKeyInfo :=
  {["k1" := {| ki_user_id := Some "u1"; ki_username := None;
               ki_roles := Some ["user"]; ki_permissions := None |}]}.

Definition sample_users : gmap string BasicAuthUser :=
  {["test_user" := {| bu_password := Some "a:b"; bu_roles := None;
                      bu_permissions := None |}]}.

Definition sample_int (s : string) : option Z :=
  if bool_decide (s = "1000") then Some 1000
  else if bool_decide (s = "1000000000000") then Some 1000000000000
  else None.


(** ** auth_bridge.py: endpoints and headers *)

Record AzureMLEndpointInfo : Type := mkAzureMLEndpointInfo {
  endpoint_url : string;
  ep_api_key : string;
  model_name : string;
  ep_model_version : string;
  deployment_name : string
}.

(** The keyword arguments that build a given [AzureMLEndpointInfo]. *)
Definition config_of_endpoint (info : AzureMLEndpointInfo) : gmap string string :=
  <["endpoint_url" := endpoint_url info]>
  (<["api_key" := ep_api_key info]>
  (<["model_name" := model_name info]>
  (<["model_version" := ep_model_version info]>
  (<["deployment_name" := deployment_name info]> ∅)))).

(** The constructor called with [endpoint_config] unpacked as keyword
    arguments: the dict must give the five
    fields and nothing else, or the constructor raises [TypeError], which
    [_get_endpoint_info] turns into [None]. *)
Definition endpoint_of_config (endpoint_config : gmap string string)
    : option AzureMLEndpointInfo :=
  match endpoint_config !! "endpoint_url", endpoint_config !! "api_key",
        endpoint_config !! "model_name", endpoint_config !! "model_version",
        endpoint_config !! "deployment_name" with
  | Some u, Some k, Some n, Some v, Some d =>
      if (size endpoint_config =? 5)%nat
      then Some {| endpoint_url := u; ep_api_key := k; model_name := n;
                   ep_model_version := v; deployment_name := d |}
      else None
  | _, _, _, _, _ => None
  end.

(** [AuthenticationBridge._get_endpoint_info]. [secret_client] is [None]
    when no Key Vault is configured; otherwise it answers, for a secret
    name, the endpoint built from the JSON value of that secret, and [None]
    when the secret is missing or empty or any step raises. *)
Definition _get_endpoint_info
    (secret_client : option (string -> option AzureMLEndpointInfo))
    (model_endpoints : gmap string (gmap string string)) (model_id : string)
    : option AzureMLEndpointInfo :=
  let from_config :=
    match model_endpoints !! model_id with
    | Some endpoint_config => endpoint_of_config endpoint_config
    | None => None
    end in
  match secret_client with
  | Some get_secret =>
      match get_secret ("ml-endpoint-" +:+ model_id) with
      | Some info => Some info
      | None => from_config
      end
  | None => from_config
  end.

(** [if not model_id: model_id = self.config.default_model_id] *)
Definition effective_model_id (default_model_id : string)
    (model_id : option string) : string :=
  match model_id with
  | Some m => if bool_decide (m = "") then default_model_id else m
  | None => default_model_id
  end.

(** [AuthenticationBridge.get_azure_ml_endpoint], with [_endpoint_cache]
    passed explicitly. *)
Definition get_azure_ml_endpoint
    (secret_client : option (string -> option AzureMLEndpointInfo))
    (model_endpoints : gmap string (gmap string string))
    (default_model_id : string) (model_id : option string)
    (_endpoint_cache : gmap string AzureMLEndpointInfo)
    : Result string * gmap string AzureMLEndpointInfo :=
  let model_id := effective_model_id default_model_id model_id in
  match _endpoint_cache !! model_id with
  | Some info => (Return (endpoint_url info), _endpoint_cache)
  | None =>
      match _get_endpoint_info secret_client model_endpoints model_id with
      | Some endpoint_info =>
          (Return (endpoint_url endpoint_info),
           <[model_id := endpoint_info]> _endpoint_cache)
      | None =>
          (Raise (mkExc ValueError ("No endpoint configured for model: " +:+ model_id)),
           _endpoint_cache)
      end
  end.

(** [secret.value] when [get_secret(name)] succeeds and the value is
    truthy. *)
Definition secret_value (secret_client : option (string -> option string))
    (name : string) : option string :=
  match secret_client with
  | Some get_secret =>
      match get_secret name with
      | Some v => if bool_decide (v = "") then None else Some v
      | None => None
      end
  | None => None
  end.

(** [AuthenticationBridge._get_azure_ml_api_key]. [secret_client] answers
    the value of a secret, [None] when it is missing or the lookup
    raises. *)
Definition _get_azure_ml_api_key (secret_client : option (string -> option string))
    (azure_ml_api_key : string) (user_info : UserInfo) : Result string :=
  match secret_value secret_client ("azure-ml-key-" +:+ user_id user_info) with
  | Some v => Return v
  | None =>
      if negb (bool_decide (azure_ml_api_key = "")) then Return azure_ml_api_key
      else match secret_value secret_client "azure-ml-api-key" with
           | Some v => Return v
           | None => Raise (mkExc ValueError "No Azure ML API key available")
           end
  end.

(** [AuthenticationBridge.get_azure_ml_headers]; [request_time] is
    [datetime.utcnow().isoformat()]. The dict is given as its items in
    insertion order. *)
Definition get_azure_ml_headers (secret_client : option (string -> option string))
    (azure_ml_api_key : string) (add_correlation_headers : bool)
    (request_time : string) (user_info : UserInfo)
    : Result (list (string * string)) :=
  match _get_azure_ml_api_key secret_client azure_ml_api_key user_info with
  | Raise e => Raise e
  | Return key =>
      Return ([("Authorization", "Bearer " +:+ key);
               ("Content-Type", "application/json");
               ("User-Agent", "Legacy-Integration-Gateway/1.0")] ++
              (if add_correlation_headers
               then [("X-User-ID", user_id user_info);
                     ("X-Request-Time", request_time)]
               else []))
  end.

(** Values used in the worked examples. *)
Definition sample_endpoint : AzureMLEndpointInfo :=
  {| endpoint_url := "https://test-endpoint.azureml.net/score";
     ep_api_key := "test-key"; model_name := "test-model";
     ep_model_version := "1.0"; deployment_name := "default" |}.

Definition partial_endpoint_config : gmap string string :=
  <["endpoint_url" := "https://test.azureml.net/score"]>
  (<["api_key" := "test-key"]> ∅).


(** ** api_gateway.py: authenticate_request *)

(** The body of the [try] block of [authenticate_request]; [validated] is
    what [auth_bridge.validate_credentials] answered. *)
Definition authenticate_request_body (validated : Result (option UserInfo))
    : Result UserInfo :=
  match validated with
  | Raise e => Raise e
  | Return None =>
      Raise (mkExc (HTTPException 401 (Some "Invalid authentication credentials")) "")
  | Return (Some user_info) => Return user_info
  end.

(** [authenticate_request]: [except Exception] also catches the
    [HTTPException] raised inside the [try] block. *)
Definition authenticate_request (validated : Result (option UserInfo))
    : Result UserInfo :=
  match authenticate_request_body validated with
  | Return user_info => Return user_info
  | Raise _ => Raise (mkExc (HTTPException 401 (Some "Authentication failed")) "")
  end.

(** ** monitoring.py *)

Module Monitoring.

(** [ServiceMetrics]. Floats are read as exact rationals;
    [min_processing_time] is [None] while it is [float('inf')]; times are
    clock readings. [response_times] is a [deque(maxlen=10000)]. *)
Record ServiceMetrics : Type := mkServiceMetrics {
  total_requests : Z;
  successful_requests : Z;
  failed_requests : Z;
  total_processing_time : Q;
  min_processing_time : option Q;
  max_processing_time : Q;
  response_times : list Q;
  errors_by_status : gmap Z Z;
  errors_by_category : gmap string Z;
  predictions_made : Z;
  batch_requests : Z;
  avg_batch_size : Q;
  cpu_usage : Q;
  memory_usage : Q;
  disk_usage : Q;
  start_time : Z;
  last_updated : Z
}.

(** [ServiceMetrics()] created at time [now]. *)
Definition ServiceMetrics_init (now : Z) : ServiceMetrics :=
  {| total_requests := 0; successful_requests := 0; failed_requests := 0;
     total_processing_time := 0; min_processing_time := None;
     max_processing_time := 0; response_times := [];
     errors_by_status := ∅; errors_by_category := ∅;
     predictions_made := 0; batch_requests := 0; avg_batch_size := 0;
     cpu_usage := 0; memory_usage := 0; disk_usage := 0;
     start_time := now; last_updated := now |}.

(** [min(a, b)] and [max(a, b)] of Python: the first argument unless the
    second is strictly smaller (greater). *)
Definition py_min (a b : Q) : Q := if Qle_bool a b then a else b.
Definition py_max (a b : Q) : Q := if Qle_bool b a then a else b.

(** [deque.append] on a deque with [maxlen]. *)
Definition deque_append (maxlen : nat) (x : Q) (d : list Q) : list Q :=
  keep_last maxlen (d ++ [x]).

(** Truth value of an [Optional[str]]. *)
Definition truthy (s : option string) : bool :=
  match s with
  | Some s => negb (bool_decide (s = ""))
  | None => false
  end.

(** [MetricsCollector.record_request], the part under the lock; [now] is
    [datetime.utcnow()]. What follows the lock only sends telemetry. *)
Definition record_request (now : Z) (method endpoint : string)
    (status_code : Z) (processing_time : Q) (error_category : option string)
    (m : ServiceMetrics) : ServiceMetrics :=
  let ok := (200 <=? status_code) && (status_code <? 400) in
  {| total_requests := total_requests m + 1;
     successful_requests :=
       if ok then successful_requests m + 1 else successful_requests m;
     failed_requests := if ok then failed_requests m else failed_requests m + 1;
     total_processing_time := (total_processing_time m + processing_time)%Q;
     min_processing_time :=
       Some (match min_processing_time m with
             | None => processing_time
             | Some a => py_min a processing_time
             end);
     max_processing_time := py_max (max_processing_time m) processing_time;
     response_times := deque_append (Z.to_nat 10000) processing_time (response_times m);
     errors_by_status :=
       if ok then errors_by_status m else bump status_code (errors_by_status m);
     errors_by_category :=
       if ok then errors_by_category m
       else match error_category with
            | Some c => if truthy error_category
                        then bump c (errors_by_category m)
                        else errors_by_category m
            | None => errors_by_category m
            end;
     predictions_made :=
       if bool_decide (endpoint = "/predict") then predictions_made m + 1
       else predictions_made m;
     batch_requests :=
       if bool_decide (endpoint = "/predict") then batch_requests m
       else if bool_decide (endpoint = "/batch-predict") then batch_requests m + 1
       else batch_requests m;
     avg_batch_size := avg_batch_size m;
     cpu_usage := cpu_usage m;
     memory_usage := memory_usage m;
     disk_usage := disk_usage m;
     start_time := start_time m;
     last_updated := now |}.

(** [MetricsCollector.record_batch_prediction] *)
Definition record_batch_prediction (batch_size : Z) (m : ServiceMetrics)
    : ServiceMetrics :=
  let total_batches := batch_requests m in
  {| total_requests := total_requests m;
     successful_requests := successful_requests m;
     failed_requests := failed_requests m;
     total_processing_time := total_processing_time m;
     min_processing_time := min_processing_time m;
     max_processing_time := max_processing_time m;
     response_times := response_times m;
     errors_by_status := errors_by_status m;
     errors_by_category := errors_by_category m;
     predictions_made := predictions_made m + batch_size;
     batch_requests := batch_requests m;
     avg_batch_size :=
       if 0 <? total_batches
       then ((avg_batch_size m * inject_Z (total_batches - 1) + inject_Z batch_size)
             / inject_Z total_batches)%Q
       else avg_batch_size m;
     cpu_usage := cpu_usage m;
     memory_usage := memory_usage m;
     disk_usage := disk_usage m;
     start_time := start_time m;
     last_updated := last_updated m |}.

(** [error_rate] as [get_current_metrics] computes it, before rounding. *)
Definition error_rate (m : ServiceMetrics) : Q :=
  if 0 <? total_requests m
  then (inject_Z (failed_requests m) / inject_Z (total_requests m) * 100)%Q
  else 0%Q.

(** [int(k)] on a float: truncation towards zero. *)
Definition py_int_of_float (k : Q) : Z := Z.quot (Qnum k) (Zpos (Qden k)).

(** [l[i]] on a list: a negative index counts from the end; [None] stands
    for [IndexError]. *)
Definition py_getitem {A : Type} (l : list A) (i : Z) : option A :=
  if i <? 0
  then (if 0 <=? Z.of_nat (length l) + i
        then l !! Z.to_nat (Z.of_nat (length l) + i) else None)
  else l !! Z.to_nat i.

(** [MetricsCollector._calculate_percentile]; [None] stands for
    [IndexError]. *)
Definition _calculate_percentile (sorted_values : list Q) (percentile : Z)
    : option Q :=
  match sorted_values with
  | [] => Some 0%Q
  | _ =>
      let len := Z.of_nat (length sorted_values) in
      let k := (inject_Z (len - 1) * inject_Z percentile / 100)%Q in
      let f := py_int_of_float k in
      let c := (k - inject_Z f)%Q in
      if f =? len - 1 then py_getitem sorted_values f
      else
        match py_getitem sorted_values f, py_getitem sorted_values (f + 1) with
        | Some a, Some b => Some (a + c * (b - a))%Q
        | _, _ => None
        end
  end.

(** [HealthStatus]; [status] is one of the strings the checks write. *)
Record HealthStatus : Type := mkHealthStatus {
  service : string;
  status : string;
  last_check : Z;
  response_time : Q;
  error_message : option string;
  details : list (string * Json)
}.

(** [d[k] = v] on a dict given as its items in insertion order. *)
Fixpoint dict_set {V : Type} (k : string) (v : V) (d : list (string * V))
    : list (string * V) :=
  match d with
  | [] => [(k, v)]
  | (k', v') :: rest =>
      if bool_decide (k' = k) then (k', v) :: rest
      else (k', v') :: dict_set k v rest
  end.

(** [d.get(k)] *)
Fixpoint dict_get {V : Type} (k : string) (d : list (string * V)) : option V :=
  match d with
  | [] => None
  | (k', v') :: rest => if bool_decide (k' = k) then Some v' else dict_get k rest
  end.

(** [HealthChecker.initialize], the table it builds. *)
Definition initialize (now : Z) : list (string * HealthStatus) :=
  foldl (fun table service =>
           dict_set service
             {| service := service; status := "unknown"; last_check := now;
                response_time := 0; error_message := None; details := [] |}
             table)
        [] ["gateway"; "azure_ml"; "key_vault"; "app_insights"].

(** What [psutil] and [platform] report to [_check_gateway_health]. *)
Record SystemProbe : Type := mkSystemProbe {
  memory_percent : Q;
  memory_available : Z;
  cpu_percent : Q;
  python_version : string
}.

(** [os.getpid()] as the module evaluates it when it is imported:
    monitoring.py has no [import os] at its top level (the only one is
    under [if __name__ == "__main__"]), so the global name is undefined. *)
Definition os_getpid_imported : Result Z :=
  Raise (mkExc NameError "name 'os' is not defined").

(** [HealthChecker._check_gateway_health]. [probe] is what reading
    [psutil] gives, [os_getpid] the outcome of [os.getpid()], evaluated
    after it while the [details] dict is built; [elapsed] is the time the
    check took, [now] is [datetime.utcnow()]. Every exception is answered
    by the [except] branch. *)
Definition _check_gateway_health (os_getpid : Result Z)
    (probe : Result SystemProbe) (elapsed : Q)
    (now : Z) (health_status : list (string * HealthStatus))
    : list (string * HealthStatus) :=
  let failed e :=
    dict_set "gateway"
      {| service := "gateway"; status := "unhealthy"; last_check := now;
         response_time := 0; error_message := Some (exc_str e);
         details := [] |}
      health_status in
  match probe with
  | Raise e => failed e
  | Return p =>
      match os_getpid with
      | Raise e => failed e
      | Return process_id =>
          let details :=
            [("memory_usage_percent", JNumber (memory_percent p));
             ("cpu_usage_percent", JNumber (cpu_percent p));
             ("available_memory_mb",
              JNumber (inject_Z (memory_available p / (1024 * 1024))));
             ("process_id", JNumber (inject_Z process_id));
             ("python_version", JString (python_version p))] in
          let '(status, error_message) :=
            if negb (Qle_bool (memory_percent p) 90)
               || negb (Qle_bool (cpu_percent p) 95)
            then ("degraded", Some "High resource usage")
            else if negb (Qle_bool (memory_percent p) 95)
            then ("unhealthy", Some "Critical resource usage")
            else ("healthy", None) in
          dict_set "gateway"
            {| service := "gateway"; status := status; last_check := now;
               response_time := elapsed; error_message := error_message;
               details := details |}
            health_status
      end
  end.

(** The dict [get_health_status] returns; [hr_last_check] is the time
    whose [isoformat()] is reported. *)
Record HealthReport : Type := mkHealthReport {
  hr_status : string;
  uptime : Q;
  azure_ml_status : string;
  dependencies : list (string * string);
  unhealthy_services : list string;
  hr_last_check : Z
}.

(** One round of the loop of [get_health_status], on
    [(overall_status, unhealthy_services, service_statuses)]. *)
Definition health_step (acc : string * list string * list (string * string))
    (item : string * HealthStatus) : string * list string * list (string * string) :=
  let '(overall_status, unhealthy, service_statuses) := acc in
  let '(name, health) := item in
  let service_statuses := dict_set name (status health) service_statuses in
  if bool_decide (status health = "unhealthy")
  then ("unhealthy", unhealthy ++ [name], service_statuses)
  else if bool_decide (status health = "degraded") &&
          bool_decide (overall_status = "healthy")
  then ("degraded", unhealthy, service_statuses)
  else (overall_status, unhealthy, service_statuses).

(** [min(...)] and [max(...)] over a generator of times; [None] when the
    sequence is empty. *)
Definition min_of (l : list Z) : option Z :=
  match l with
  | [] => None
  | x :: rest => Some (foldl Z.min x rest)
  end.

Definition max_of (l : list Z) : option Z :=
  match l with
  | [] => None
  | x :: rest => Some (foldl Z.max x rest)
  end.

(** [total_seconds()] of a difference of times given in microseconds. *)
Definition total_seconds (microseconds : Z) : Q := Qmake microseconds 1000000.

(** [HealthChecker.get_health_status]. [now] is [datetime.utcnow()];
    [empty_message] is the text the interpreter gives the [ValueError] of
    [min] on an empty sequence. *)
Definition get_health_status (empty_message : string) (now : Z)
    (health_status : list (string * HealthStatus)) : Result HealthReport :=
  let '(overall_status, unhealthy, service_statuses) :=
    foldl health_step ("healthy", [], []) health_status in
  let checks := map (fun item => last_check (snd item)) health_status in
  match min_of checks, max_of checks with
  | Some oldest, Some newest =>
      Return {| hr_status := overall_status;
                uptime := total_seconds (now - oldest);
                azure_ml_status :=
                  match dict_get "azure_ml" health_status with
                  | Some health => status health
                  | None => "unknown"
                  end;
                dependencies := service_statuses;
                unhealthy_services := unhealthy;
                hr_last_check := newest |}
  | _, _ => Raise (mkExc ValueError empty_message)
  end.

End Monitoring.

(** ** Further notions: recorded requests *)

(** One call of [record_request]. *)
Record RequestRecord : Type := mkRequestRecord {
  rr_now : Z;
  rr_method : string;
  rr_endpoint : string;
  rr_status_code : Z;
  rr_processing_time : Q;
  rr_error_category : option string
}.

Definition record_one (m : Monitoring.ServiceMetrics) (r : RequestRecord)
    : Monitoring.ServiceMetrics :=
  Monitoring.record_request (rr_now r) (rr_method r) (rr_endpoint r)
    (rr_status_code r) (rr_processing_time r) (rr_error_category r) m.

(** The collector after the calls [rs], in order. *)
Definition record_all (rs : list RequestRecord) (m : Monitoring.ServiceMetrics)
    : Monitoring.ServiceMetrics :=
  foldl record_one m rs.

(** A list of floats in non-decreasing order. *)
Definition nondecreasing (l : list Q) : Prop :=
  forall (i j : nat) (a b : Q),
    (i <= j)%nat -> l !! i = Some a -> l !! j = Some b -> (a <= b)%Q.

Definition has_status (s : string) (item : string * Monitoring.HealthStatus)
    : bool :=
  bool_decide (Monitoring.status (snd item) = s).


(** A call on the collector. *)
Inductive CollectorCall : Type :=
| RecordRequest (r : RequestRecord)
| RecordBatchPrediction (batch_size : Z).

Definition collect_one (m : Monitoring.ServiceMetrics) (c : CollectorCall)
    : Monitoring.ServiceMetrics :=
  match c with
  | RecordRequest r => record_one m r
  | RecordBatchPrediction batch_size =>
      Monitoring.record_batch_prediction batch_size m
  end.

(** The collector after the calls [cs], in order. *)
Definition collect_all (cs : list CollectorCall) (m : Monitoring.ServiceMetrics)
    : Monitoring.ServiceMetrics :=
  foldl collect_one m cs.

(** The requests among the calls, and the batch sizes, in order. *)
Fixpoint requests_of (cs : list CollectorCall) : list RequestRecord :=
  match cs with
  | [] => []
  | RecordRequest r :: rest => r :: requests_of rest
  | RecordBatchPrediction _ :: rest => requests_of rest
  end.

Fixpoint batch_sizes (cs : list CollectorCall) : list Z :=
  match cs with
  | [] => []
  | RecordRequest _ :: rest => batch_sizes rest
  | RecordBatchPrediction batch_size :: rest => batch_size :: batch_sizes rest
  end.

(** Number of requests recorded for [endpoint]. *)
Definition count_endpoint (endpoint : string) (rs : list RequestRecord) : Z :=
  Z.of_nat (length (filter (fun r => rr_endpoint r = endpoint) rs)).

Definition sum_list (l : list Z) : Z := foldr Z.add 0 l.

(** The overall status the loop of [get_health_status] reaches from
    [overall_status] over [items], in closed form. *)
Definition overall_of (overall_status : string)
    (items : list (string * Monitoring.HealthStatus)) : string :=
  if existsb (has_status "unhealthy") items then "unhealthy"
  else if bool_decide (overall_status = "healthy") &&
          existsb (has_status "degraded") items
  then "degraded"
  else overall_status.

Definition service_status (item : string * Monitoring.HealthStatus)
    : string * string :=
  (fst item, Monitoring.status (snd item)).


(** ** Strings *)

Lemma prefix_append (p v : string) : String.prefix p (p +:+ v) = true.
Proof.
  induction p as [|c p IH]; simpl.
  - by destruct v.
  - destruct (ascii_dec c c) as [_|Hne]; [exact IH | by destruct Hne].
Qed.

Lemma prefix_inv (p s : string) :
  String.prefix p s = true -> exists v, s = p +:+ v.
Proof.
  revert s. induction p as [|c p IH]; intros s Hp.
  - by exists s.
  - destruct s as [|d s]; simpl in Hp; [discriminate|].
    destruct (ascii_dec c d) as [->|_]; [|discriminate].
    destruct (IH s Hp) as [v ->]. by exists v.
Qed.

Lemma startswith_iff (s p : string) :
  PyStr.startswith s p = true <-> exists v, s = p +:+ v.
Proof.
  unfold PyStr.startswith. split.
  - apply prefix_inv.
  - intros [v ->]. apply prefix_append.
Qed.

Lemma split_go_length (sep : ascii) (s acc : string) :
  length (PyStr.split_go sep acc s) = S (PyStr.count sep s).
Proof.
  revert acc. induction s as [|c s IH]; intros acc; simpl; [done|].
  destruct (Ascii.eqb c sep); simpl; by rewrite IH.
Qed.

(** A string has one segment more than it has separators. *)
Lemma split_length (sep : ascii) (s : string) :
  length (PyStr.split sep s) = S (PyStr.count sep s).
Proof. apply split_go_length. Qed.

Lemma detect_bearer (v : string) :
  _detect_auth_method ("Bearer " +:+ v) =
  if _is_jwt_token v then bearer_jwt else api_key.
Proof.
  unfold _detect_auth_method, PyStr.startswith.
  by rewrite prefix_append.
Qed.

Lemma detect_basic (v : string) :
  _detect_auth_method ("Basic " +:+ v) = basic_auth.
Proof.
  unfold _detect_auth_method, PyStr.startswith.
  by rewrite (prefix_append "Basic " v).
Qed.

Lemma detect_legacy (v : string) :
  _detect_auth_method ("Legacy " +:+ v) = legacy_token.
Proof.
  unfold _detect_auth_method, PyStr.startswith.
  by rewrite (prefix_append "Legacy " v).
Qed.

(** ** Scheme detection *)

(** C5. A credential ["Bearer <v>"] is classified BearerJWT when [<v>] has
    exactly three dot-separated segments (that is, exactly two dots) and
    ApiKey otherwise; ["Basic <v>"] is Basic; ["Legacy <v>"] is
    LegacyToken; a string with none of the three prefixes is ApiKey. *)
Theorem detect_auth_method_classification :
  (forall v, length (PyStr.split "." v) = 3%nat ->
             _detect_auth_method ("Bearer " +:+ v) = bearer_jwt) /\
  (forall v, length (PyStr.split "." v) <> 3%nat ->
             _detect_auth_method ("Bearer " +:+ v) = api_key) /\
  (forall v, length (PyStr.split "." v) = 3%nat <-> PyStr.count "." v = 2%nat) /\
  (forall v, _detect_auth_method ("Basic " +:+ v) = basic_auth) /\
  (forall v, _detect_auth_method ("Legacy " +:+ v) = legacy_token) /\
  (forall s, (forall v, s <> "Bearer " +:+ v) ->
             (forall v, s <> "Basic " +:+ v) ->
             (forall v, s <> "Legacy " +:+ v) ->
             _detect_auth_method s = api_key).
Proof.
  repeat split.
  - intros v Hv. rewrite detect_bearer. unfold _is_jwt_token.
    by rewrite Hv.
  - intros v Hv. rewrite detect_bearer. unfold _is_jwt_token.
    by destruct (Nat.eqb_spec (length (PyStr.split "." v)) 3).
  - rewrite split_length. lia.
  - rewrite split_length. lia.
  - apply detect_basic.
  - apply detect_legacy.
  - intros s Hbearer Hbasic Hlegacy. unfold _detect_auth_method.
    destruct (PyStr.startswith s "Bearer ") eqn:H1.
    { apply startswith_iff in H1 as [v ->]. by destruct (Hbearer v). }
    destruct (PyStr.startswith s "Basic ") eqn:H2.
    { apply startswith_iff in H2 as [v ->]. by destruct (Hbasic v). }
    destruct (PyStr.startswith s "Legacy ") eqn:H3.
    { apply startswith_iff in H3 as [v ->]. by destruct (Hlegacy v). }
    reflexivity.
Qed.

Lemma detect_auth_method_classification_witness :
  _detect_auth_method "Bearer aaa.bbb.ccc" = bearer_jwt /\
  _detect_auth_method "Bearer k1" = api_key /\
  _detect_auth_method "Basic dTpw" = basic_auth /\
  _detect_auth_method "Legacy u:1" = legacy_token /\
  _detect_auth_method "k1" = api_key.
Proof.
  destruct detect_auth_method_classification
    as (Hjwt & Hkey & _ & Hbasic & Hlegacy & Hother).
  split; [apply (Hjwt "aaa.bbb.ccc"); reflexivity|].
  split; [apply (Hkey "k1"); vm_compute; lia|].
  split; [apply (Hbasic "dTpw")|].
  split; [apply (Hlegacy "u:1")|].
  apply (Hother "k1"); intros v; discriminate.
Defined.

(** ** Classification and response mapping *)

Lemma classify_http_status (status_code : Z) (msg : string) :
  _classify_error (mkExc (HTTPStatusError status_code) msg) =
  if status_code =? 401 then (AUTHENTICATION, MEDIUM)
  else if status_code =? 403 then (AUTHORIZATION, MEDIUM)
  else if status_code =? 429 then (RATE_LIMIT, LOW)
  else if (400 <=? status_code) && (status_code <? 500) then (VALIDATION, LOW)
  else if (500 <=? status_code) && (status_code <? 600) then (AZURE_ML_ERROR, HIGH)
  else (UNKNOWN, MEDIUM).
Proof. reflexivity. Qed.

(** With an [ErrorContext] nothing in the handler raises: the answer is the
    response built from the classification. *)
Lemma handle_prediction_error_ErrorContext now exception (c : ErrorContext) h :
  fst (handle_prediction_error now exception (ErrCtx c) h) =
  _create_error_response now exception
    (fst (_classify_error exception)) (snd (_classify_error exception)) (ErrCtx c).
Proof.
  unfold handle_prediction_error.
  by destruct (_classify_error exception) as [cat sev].
Qed.

(** C8. An upstream HTTP status 429 is classified (RateLimit, Low) and its
    response has status code 429 and [retry_after = 60]; an upstream HTTP
    status 503 is classified (UpstreamError, High) and its response has
    status code 502 and carries the raw error text as [detail]. This holds
    for the response the mapper builds in any context and for the response
    [handle_prediction_error] returns to a caller that passes an
    [ErrorContext]. *)
Theorem upstream_429_and_503 :
  forall (msg : string) (now : Z) (context : Context) (c : ErrorContext)
         (h : ErrorHandler),
    let e429 := mkExc (HTTPStatusError 429) msg in
    let e503 := mkExc (HTTPStatusError 503) msg in
    let r429 := _create_error_response now e429 RATE_LIMIT LOW context in
    let r503 := _create_error_response now e503 AZURE_ML_ERROR HIGH context in
    let h429 := fst (handle_prediction_error now e429 (ErrCtx c) h) in
    let h503 := fst (handle_prediction_error now e503 (ErrCtx c) h) in
    _classify_error e429 = (RATE_LIMIT, LOW) /\
    er_status_code r429 = 429 /\ retry_after r429 = Some 60 /\
    _classify_error e503 = (AZURE_ML_ERROR, HIGH) /\
    er_status_code r503 = 502 /\ er_detail r503 = Some msg /\
    (category h429, severity h429, er_status_code h429, retry_after h429)
      = (RATE_LIMIT, LOW, 429, Some 60) /\
    (category h503, severity h503, er_status_code h503, er_detail h503)
      = (AZURE_ML_ERROR, HIGH, 502, Some msg).
Proof.
  intros msg now context c h e429 e503 r429 r503 h429 h503.
  subst h429 h503. rewrite !handle_prediction_error_ErrorContext.
  repeat split.
Qed.

(** ** Error metrics *)

Section Counters.
Context `{Countable K}.

Lemma sum_values_empty : sum_values (∅ : gmap K Z) = 0.
Proof. apply map_fold_empty. Qed.

Lemma sum_values_insert_fresh (k : K) (v : Z) (d : gmap K Z) :
  d !! k = None -> sum_values (<[k := v]> d) = v + sum_values d.
Proof.
  intros Hk. unfold sum_values.
  rewrite map_fold_insert_L; [done | intros; lia | done].
Qed.

Lemma sum_values_lookup (k : K) (v : Z) (d : gmap K Z) :
  d !! k = Some v -> sum_values d = v + sum_values (delete k d).
Proof.
  intros Hk. unfold sum_values.
  rewrite (map_fold_delete_L _ _ k v d); [done | intros; lia | done].
Qed.

(** Incrementing one counter adds one to the sum. *)
Lemma sum_values_bump (k : K) (d : gmap K Z) :
  sum_values (bump k d) = sum_values d + 1.
Proof.
  unfold bump. destruct (d !! k) as [v|] eqn:Hk; simpl.
  - rewrite (sum_values_lookup k v d Hk).
    rewrite <- insert_delete_eq.
    rewrite sum_values_insert_fresh; [lia | apply lookup_delete_eq].
  - rewrite sum_values_insert_fresh; [lia | done].
Qed.

Lemma counter_bump (k j : K) (d : gmap K Z) :
  counter (bump k d) j = if decide (k = j) then counter d k + 1 else counter d j.
Proof.
  unfold counter, bump. destruct (decide (k = j)) as [->|Hne].
  - by rewrite lookup_insert_eq.
  - by rewrite lookup_insert_ne.
Qed.

Lemma counter_bump_le (k j : K) (d : gmap K Z) :
  counter d j <= counter (bump k d) j.
Proof. rewrite counter_bump. destruct (decide (k = j)) as [->|]; lia. Qed.

End Counters.

Lemma metrics_consistent_init : metrics_consistent ErrorMetrics_init.
Proof.
  unfold metrics_consistent; simpl.
  split; [symmetry; apply sum_values_empty|].
  split; [symmetry; apply sum_values_empty|].
  unfold counter.
  repeat split; try done; intros; by rewrite lookup_empty.
Qed.

(** Recording one error keeps the counters consistent. *)
Lemma record_error_metrics_consistent now cat sev m :
  metrics_consistent m -> metrics_consistent (_record_error_metrics now cat sev m).
Proof.
  intros (Hc & Hs & Ht & Hcs & Hss).
  unfold metrics_consistent; simpl.
  rewrite !sum_values_bump.
  repeat split; try lia.
  - intros c. pose proof (Hcs c). pose proof (Hcs cat).
    rewrite counter_bump. destruct (decide (cat = c)); lia.
  - intros s. pose proof (Hss s). pose proof (Hss sev).
    rewrite counter_bump. destruct (decide (sev = s)); lia.
Qed.

Lemma record_error_metrics_le now cat sev m :
  metrics_le m (_record_error_metrics now cat sev m).
Proof.
  unfold metrics_le; simpl.
  repeat split; [lia | intros; apply counter_bump_le..].
Qed.

(** The metrics after one error-handling call are those after one
    recording, whichever way the call ends. *)
Lemma handle_prediction_error_metrics now exception context h :
  error_metrics (snd (handle_prediction_error now exception context h)) =
  _record_error_metrics now (fst (_classify_error exception))
    (snd (_classify_error exception)) (error_metrics h).
Proof.
  unfold handle_prediction_error.
  destruct (_classify_error exception) as [cat sev].
  by destruct (_log_error _ _ _ _ _).
Qed.

Lemma handle_all_consistent calls h :
  metrics_consistent (error_metrics h) ->
  metrics_consistent (error_metrics (handle_all calls h)).
Proof.
  revert h. induction calls as [|[[now exception] context] calls IH];
    intros h Hh; simpl; [done|].
  apply IH. rewrite handle_prediction_error_metrics.
  by apply record_error_metrics_consistent.
Qed.

(** C10. After any sequence of error-handling calls on a fresh handler the
    metrics are consistent: [total_errors] equals the sum of the
    per-category counters and the sum of the per-severity counters, and no
    counter is negative. One more call keeps this so, raises
    [total_errors] by exactly one, and lowers no counter. *)
Theorem error_metrics_stay_consistent :
  forall (calls : list HandlerCall) (now : Z) (exception : PyExc)
         (context : Context),
    let h := handle_all calls ErrorHandler_init in
    let h' := snd (handle_prediction_error now exception context h) in
    metrics_consistent (error_metrics h) /\
    metrics_consistent (error_metrics h') /\
    metrics_le (error_metrics h) (error_metrics h') /\
    total_errors (error_metrics h') = total_errors (error_metrics h) + 1.
Proof.
  intros calls now exception context h h'.
  assert (Hh : metrics_consistent (error_metrics h))
    by apply handle_all_consistent, metrics_consistent_init.
  subst h'. rewrite handle_prediction_error_metrics.
  split; [done|]. split; [by apply record_error_metrics_consistent|].
  split; [apply record_error_metrics_le | done].
Qed.

(** ** Token cache *)

Section TokenCache.
Context {T : Type}.
Implicit Types (cache : gmap string (CacheEntry T)) (entry : CacheEntry T).

(** [get] answers with an entry exactly when the key holds it and its
    deadline is still ahead. *)
Lemma TokenCache_get_Some now key cache entry :
  fst (TokenCache_get now key cache) = Some entry <->
  cache !! key = Some entry /\ now < expires_at entry.
Proof.
  unfold TokenCache_get. destruct (cache !! key) as [entry'|]; simpl.
  - destruct (Z.ltb_spec now (expires_at entry')); simpl.
    + split; [intros [= ->]; done | intros [[= ->] _]; done].
    + split; [done | intros [[= ->] ?]; lia].
  - split; [done | intros [? _]; done].
Qed.

(** A read of a live entry, and a read of a missing key, leave the cache as
    it is. *)
Lemma TokenCache_get_live now key cache entry :
  cache !! key = Some entry -> now < expires_at entry ->
  TokenCache_get now key cache = (Some entry, cache).
Proof.
  intros Hk Hlt. unfold TokenCache_get. rewrite Hk.
  by destruct (Z.ltb_spec now (expires_at entry)); [|lia].
Qed.

Lemma TokenCache_get_missing now key cache :
  cache !! key = None -> TokenCache_get now key cache = (None, cache).
Proof. intros Hk. unfold TokenCache_get. by rewrite Hk. Qed.

(** A read of an expired entry answers [None] and removes the entry. *)
Lemma TokenCache_get_expired now key cache entry :
  cache !! key = Some entry -> expires_at entry <= now ->
  TokenCache_get now key cache = (None, delete key cache).
Proof.
  intros Hk Hle. unfold TokenCache_get. rewrite Hk.
  by destruct (Z.ltb_spec now (expires_at entry)); [lia|].
Qed.

(** The entry [set] stores is read back until its deadline. *)
Lemma TokenCache_get_set now now' key data ttl cache :
  now' < now + seconds ttl ->
  TokenCache_get now' key (TokenCache_set now key data ttl cache) =
  (Some {| token_data := data; expires_at := now + seconds ttl |},
   TokenCache_set now key data ttl cache).
Proof.
  intros Hlt. apply TokenCache_get_live; [|done].
  unfold TokenCache_set. apply lookup_insert_eq.
Qed.

End TokenCache.

Section Validation.

Variable sha256_hexdigest : string -> string.
Variables jwt api basic legacy : Z -> string -> option UserInfo.
Variable ttl : Z.

(** A validation that finds a live entry answers from it and runs
    nothing. *)
Lemma validate_hit now now_set auth_token cache entry :
  cache !! _generate_cache_key sha256_hexdigest auth_token = Some entry -> now < expires_at entry ->
  validate_credentials sha256_hexdigest jwt api basic legacy ttl
    now now_set auth_token cache = (Some (token_data entry), cache, []).
Proof.
  intros Hk Hlt. unfold validate_credentials.
  by rewrite (TokenCache_get_live _ _ _ _ Hk Hlt).
Qed.

(** A validation that finds no live entry detects the scheme and runs its
    validator. *)
Lemma validate_miss now now_set auth_token cache cache' :
  TokenCache_get now (_generate_cache_key sha256_hexdigest auth_token) cache = (None, cache') ->
  let m := _detect_auth_method auth_token in
  let user_info := run_validator jwt api basic legacy m now auth_token in
  validate_credentials sha256_hexdigest jwt api basic legacy ttl
    now now_set auth_token cache =
  (user_info,
   match user_info with
   | Some u => TokenCache_set now_set (_generate_cache_key sha256_hexdigest auth_token) u ttl cache'
   | None => cache'
   end,
   [DetectedScheme m; RanValidator m]).
Proof.
  intros Hget m user_info. unfold validate_credentials. rewrite Hget.
  fold m. fold user_info. by destruct user_info.
Qed.

(** After a successful validation the cache holds the principal under the
    credential's key; when the validation did not answer from the cache the
    deadline of that entry is the caching time plus the TTL. *)
Lemma validate_success_cached now now_set auth_token cache u cache1 events :
  validate_credentials sha256_hexdigest jwt api basic legacy ttl
    now now_set auth_token cache = (Some u, cache1, events) ->
  exists entry,
    cache1 !! _generate_cache_key sha256_hexdigest auth_token = Some entry /\ token_data entry = u /\
    (events = [] /\ now < expires_at entry \/
     events <> [] /\ expires_at entry = now_set + seconds ttl).
Proof.
  unfold validate_credentials.
  destruct (TokenCache_get now (_generate_cache_key sha256_hexdigest auth_token) cache) as [[entry|] cache0] eqn:Hget.
  - intros [= <- <- <-].
    assert (Hfst : fst (TokenCache_get now (_generate_cache_key sha256_hexdigest auth_token) cache) = Some entry)
      by (by rewrite Hget).
    apply TokenCache_get_Some in Hfst as [Hk Hlt].
    rewrite (TokenCache_get_live _ _ _ _ Hk Hlt) in Hget.
    injection Hget as <-. exists entry. split; [done|]. split; [done|]. by left.
  - destruct (run_validator _ _ _ _ _ _ _) as [u'|]; [|discriminate].
    intros [= <- <- <-]. eexists. split; [apply lookup_insert_eq|].
    split; [done|]. right. by split.
Qed.

End Validation.



(** C6. When a validation of a credential succeeds, the cache then holds an
    entry for it with some deadline (the caching time plus the TTL when the
    first validation did not itself answer from the cache), and a second
    validation of the same credential string at any time before that
    deadline returns the same principal, leaves the cache as it is, and
    runs neither scheme detection nor a scheme validator: its trace is
    empty and its answer is the same whatever the validators would have
    answered. *)
Theorem validate_twice_within_ttl :
  forall (sha256_hexdigest : string -> string)
         (jwt api basic legacy : Z -> string -> option UserInfo) (ttl : Z)
         (now now_set : Z) (auth_token : string)
         (cache cache1 : gmap string (CacheEntry UserInfo))
         (u : UserInfo) (events : list AuthEvent),
    validate_credentials sha256_hexdigest jwt api basic legacy ttl
      now now_set auth_token cache = (Some u, cache1, events) ->
    exists deadline : Z,
      (events <> [] -> deadline = now_set + seconds ttl) /\
      (events = [] -> now < deadline) /\
      forall (jwt' api' basic' legacy' : Z -> string -> option UserInfo)
             (now2 now_set2 : Z),
        now2 < deadline ->
        validate_credentials sha256_hexdigest jwt' api' basic' legacy' ttl
          now2 now_set2 auth_token cache1 = (Some u, cache1, []).
Proof.
  intros sha jwt api basic legacy ttl now now_set auth_token cache cache1 u
    events Hfirst.
  apply validate_success_cached in Hfirst as (entry & Hk & <- & Hdeadline).
  exists (expires_at entry). split; [|split].
  - intros Hev. destruct Hdeadline as [[-> _]|[_ ->]]; done.
  - intros ->. destruct Hdeadline as [[_ ?]|[? _]]; done.
  - intros jwt' api' basic' legacy' now2 now_set2 Hlt.
    by apply validate_hit.
Qed.

Lemma validate_twice_within_ttl_witness :
  let refuse := fun (_ : Z) (_ : string) => @None UserInfo in
  let cache1 := TokenCache_set 5 "Bearer k1" sample_user 3600 ∅ in
  validate_credentials (fun s => s) refuse refuse refuse refuse 3600
    3599000000 3599000001 "Bearer k1" cache1 = (Some sample_user, cache1, []).
Proof.
  intros refuse cache1.
  pose (validator := fun (_ : Z) (_ : string) => Some sample_user).
  assert (Hfirst :
    validate_credentials (fun s => s) validator validator validator validator
      3600 0 5 "Bearer k1" ∅ =
    (Some sample_user, cache1, [DetectedScheme api_key; RanValidator api_key]))
    by (vm_compute; reflexivity).
  destruct (validate_twice_within_ttl _ _ _ _ _ _ _ _ _ _ _ _ _ Hfirst)
    as (deadline & Hmiss & _ & Hsecond).
  apply Hsecond. rewrite Hmiss; [unfold seconds; lia | discriminate].
Defined.

(** ** Backoff delay *)

Lemma jitter_factor_bounds (rnd : Q) :
  (0 <= rnd)%Q -> (rnd < 1)%Q ->
  ((1 # 2) <= (1 # 2) + rnd * (1 # 2))%Q /\ ((1 # 2) + rnd * (1 # 2) <= 1)%Q.
Proof. intros H0 H1. split; lra. Qed.

Lemma capped_delay_le_max (p : RetryPolicy) (n : nat) :
  (capped_delay p n <= max_delay p)%Q.
Proof. apply Q.le_min_r. Qed.

Lemma capped_delay_nonneg (p : RetryPolicy) (n : nat) :
  (0 <= base_delay p)%Q -> (0 <= exponential_base p)%Q -> (0 <= max_delay p)%Q ->
  (0 <= capped_delay p n)%Q.
Proof.
  intros Hb He Hm. apply Q.min_glb; [|done].
  apply Qmult_le_0_compat; [done|]. by apply Qpower_0_le.
Qed.

Lemma float_pow_in_range (x : Q) (n : nat) :
  FloatRange.representable (x ^ Z.of_nat n)%Q = true ->
  FloatRange.float_pow x n = Return (x ^ Z.of_nat n)%Q.
Proof. intros H. unfold FloatRange.float_pow. by rewrite H. Qed.

Lemma float_pow_out_of_range (x : Q) (n : nat) :
  FloatRange.representable (x ^ Z.of_nat n)%Q = false ->
  FloatRange.float_pow x n = Raise FloatRange.overflow_error.
Proof. intros H. unfold FloatRange.float_pow. by rewrite H. Qed.

(** Inside the float range the call returns the value of [get_delay]. *)
Lemma get_delay_in_range (p : RetryPolicy) (rnd : Q) (n : nat) :
  FloatRange.representable (exponential_base p ^ Z.of_nat n)%Q = true ->
  FloatRange.get_delay p rnd n = Return (get_delay p rnd n).
Proof.
  intros H. unfold FloatRange.get_delay, FloatRange.capped_delay.
  by rewrite (float_pow_in_range _ _ H).
Qed.

(** Outside it the call raises, whatever the other parameters. *)
Lemma get_delay_out_of_range (p : RetryPolicy) (rnd : Q) (n : nat) :
  FloatRange.representable (exponential_base p ^ Z.of_nat n)%Q = false ->
  FloatRange.get_delay p rnd n = Raise FloatRange.overflow_error.
Proof.
  intros H. unfold FloatRange.get_delay, FloatRange.capped_delay.
  by rewrite (float_pow_out_of_range _ _ H).
Qed.




(** ** The error handler as the gateway calls it *)

(** The handler never raises: it answers with the response of the
    classification or, when a step after the classification raised, with
    the fallback response. *)
Lemma handle_prediction_error_structured now exception context h :
  let r := fst (handle_prediction_error now exception context h) in
  r = _create_error_response now exception
        (fst (_classify_error exception)) (snd (_classify_error exception)) context
  \/ is_fallback r.
Proof.
  unfold handle_prediction_error.
  destruct (_classify_error exception) as [cat sev]; simpl.
  destruct (_log_error _ _ _ _ _); simpl; [by left | by right].
Qed.

(** Called with the gateway's [RequestContext], the handler always ends in
    its fallback: [_log_error] reads [context.endpoint]. *)
Lemma handle_prediction_error_RequestContext now exception (c : RequestContext) h :
  fst (handle_prediction_error now exception (ReqCtx c) h) =
  fallback_response now (no_attribute "RequestContext" "endpoint") (ReqCtx c).
Proof.
  unfold handle_prediction_error.
  by destruct (_classify_error exception) as [cat sev].
Qed.

(** Whatever the dispatch raised, other than an [HTTPException], [predict]
    raises the [TypeError] of subscripting the handler's answer. *)
Lemma predict_raises_TypeError now e context h :
  (forall sc d, exc_class e <> HTTPException sc d) ->
  fst (predict now (Raise e) context h) = Raise not_subscriptable.
Proof.
  intros Hne. unfold predict.
  destruct (exc_class e) eqn:Hcls;
    try (by destruct (handle_prediction_error _ _ _ _)).
  by destruct (Hne status_code detail).
Qed.

(** C3. What the code does where the claim fails. The dispatch of a
    prediction raises the upstream error HTTP 500 (the input of the
    repository's test [test_prediction_azure_ml_error], which expects the
    mapped status 502). The error is classified (UpstreamError, High), but
    the handler, given the gateway's [RequestContext], ends in its
    hardcoded InternalError/Critical fallback, and [predict] then
    subscripts that dataclass instance: what leaves [predict] is the raw
    [TypeError], not a response with a status code. The second half of the
    claim holds: the handler itself always returns a structured response,
    the fallback when one of its own steps raised. *)
Theorem predict_upstream_error_leaves_raw :
  forall (now : Z) (context : RequestContext) (h : ErrorHandler),
    let e := mkExc (HTTPStatusError 500) "Internal Server Error" in
    let answer := fst (handle_prediction_error now e (ReqCtx context) h) in
    _classify_error e = (AZURE_ML_ERROR, HIGH) /\
    is_fallback answer /\
    fst (predict now (Raise e) context h) = Raise not_subscriptable /\
    (forall sc d, exc_class not_subscriptable <> HTTPException sc d) /\
    (forall exception ctx h0,
        let r := fst (handle_prediction_error now exception ctx h0) in
        r = _create_error_response now exception
              (fst (_classify_error exception))
              (snd (_classify_error exception)) ctx
        \/ is_fallback r).
Proof.
  intros now context h e answer.
  split; [reflexivity|]. split.
  { subst answer. rewrite handle_prediction_error_RequestContext. by repeat split. }
  split; [by apply predict_raises_TypeError|].
  split; [done|].
  intros. apply handle_prediction_error_structured.
Qed.

(** ** Batches *)

Lemma process_responses_items now context gathered :
  forall i h items h',
    process_responses now context i gathered h = (Return items, h') ->
    Forall (fun r => is_ResponseItem r = true) items /\
    length items = length gathered.
Proof.
  induction gathered as [|[response|exception] rest IH]; intros i h items h'; simpl.
  - intros [= <- <-]. by split.
  - destruct (process_responses now context (S i) rest h) as [[items0|e] h0] eqn:Hrest;
      [|discriminate].
    intros [= <- <-]. destruct (IH _ _ _ _ Hrest) as [Hall Hlen].
    split; [by constructor | simpl; by rewrite Hlen].
  - by destruct (handle_prediction_error _ _ _ _).
Qed.

(** One failed request makes the whole loop raise. *)
Lemma process_responses_failure now context gathered :
  forall i h,
    Exists (fun r => is_Return r = false) gathered ->
    fst (process_responses now context i gathered h) = Raise not_subscriptable.
Proof.
  induction gathered as [|[response|exception] rest IH]; intros i h Hex; simpl.
  - by apply Exists_nil in Hex.
  - apply Exists_cons in Hex as [Hex|Hex]; [discriminate|].
    specialize (IH (S i) h Hex).
    by destruct (process_responses now context (S i) rest h) as [[items0|e] h0];
      simpl in *; [discriminate | congruence].
  - by destruct (handle_prediction_error _ _ _ _).
Qed.

Lemma count_where_ResponseItem cond (r : BatchItem) (items : list BatchItem) :
  is_ResponseItem r = true ->
  count_where cond (r :: items) = Raise (no_attribute "LegacyPredictionResponse" "get").
Proof. by destruct r. Qed.

(** Every batch with at least one request ends with HTTP 500, whatever its
    workers returned. *)
Lemma batch_predict_nonempty_fails limit now worker requests context h :
  0 < limit -> requests <> [] ->
  fst (batch_predict limit now worker requests context h) = Some (Raise batch_failed).
Proof.
  intros Hlimit Hne. unfold batch_predict.
  destruct (Z.ltb_spec limit 0); [lia|].
  destruct (Z.eqb_spec limit 0); [lia|]. simpl.
  destruct (process_responses now context 0 (imap worker requests) h)
    as [[items|e] h'] eqn:Hproc; [|done].
  apply process_responses_items in Hproc as [Hall Hlen].
  rewrite length_imap in Hlen.
  destruct items as [|r items]; [by destruct requests|].
  apply Forall_cons in Hall as [Hr _].
  by rewrite (count_where_ResponseItem negb r items Hr).
Qed.

(** The empty batch is the only one that is answered. *)
Lemma batch_predict_empty limit now worker context h :
  0 <= limit ->
  batch_predict limit now worker [] context h =
  (Some (Return {| batch_id := rc_request_id context;
                   total_requests := 0;
                   successful_predictions := 0;
                   failed_predictions := 0;
                   responses := [] |}), h).
Proof.
  intros Hlimit. unfold batch_predict.
  destruct (Z.ltb_spec limit 0); [lia|].
  by rewrite andb_false_r.
Qed.

(** C2. What the code does where the claim fails. For five requests with
    limit 2 of which those at indices 1 and 3 fail, [batch_predict] does not
    return five entries and the counts 3 and 2: the loop over the gathered
    results raises at index 1, where it subscripts the handler's answer,
    and the surrounding [except] turns that into HTTP 500 "Batch prediction
    failed". *)
Theorem batch_predict_five_requests_two_failures :
  forall (now : Z) (ok : LegacyPredictionResponse) (e : PyExc)
         (r0 r1 r2 r3 r4 : LegacyPredictionRequest)
         (context : RequestContext) (h : ErrorHandler),
    let requests := [r0; r1; r2; r3; r4] in
    fst (process_responses now context 0
           (imap (fails_at_1_and_3 ok e) requests) h) = Raise not_subscriptable /\
    fst (batch_predict 2 now (fails_at_1_and_3 ok e) requests context h) =
    Some (Raise batch_failed).
Proof.
  intros now ok e r0 r1 r2 r3 r4 context h requests.
  split.
  - apply process_responses_failure. subst requests.
    apply Exists_cons_tl, Exists_cons_hd. reflexivity.
  - by apply batch_predict_nonempty_fails.
Qed.

(** ** Retry *)

Section Retry.
Context {A : Type}.
Variable p : RetryPolicy.
Variable func : nat -> Result A.
Variable rnd : nat -> Q.

Lemma raise_last_not_Return (last_exception : option PyExc) :
  is_Return (raise_last (A:=A) last_exception) = false.
Proof. by destruct last_exception. Qed.

Lemma attempts_made_cons_sleep (sleep tr : list RetryEvent) (i : nat) :
  Forall (fun ev => is_Attempt ev = false) sleep ->
  attempts_made (Attempt i :: sleep ++ tr) = S (attempts_made tr).
Proof.
  intros Hs. unfold attempts_made. simpl. f_equal.
  rewrite List.filter_app, length_app.
  induction Hs as [|ev sleep Hev _ IH]; simpl; [done|].
  by rewrite Hev.
Qed.

Lemma sleep_no_attempt (attempt : nat) :
  Forall (fun ev => is_Attempt ev = false)
    (if Z.of_nat attempt <? max_attempts p - 1
     then [Sleep (get_delay p (rnd attempt) attempt)] else []).
Proof. destruct (_ <? _); repeat constructor. Qed.

(** The loop never invokes the operation more often than it has
    iterations. *)
Lemma retry_loop_attempts_le (remaining attempt : nat) last_exception :
  (attempts_made (snd (retry_loop p func rnd remaining attempt last_exception))
   <= remaining)%nat.
Proof.
  revert attempt last_exception.
  induction remaining as [|remaining IH]; intros attempt last_exception; simpl.
  - done.
  - destruct (func attempt) as [a|e]; simpl; [unfold attempts_made; simpl; lia|].
    destruct (should_retry p e (Z.of_nat attempt)); simpl;
      [|unfold attempts_made; simpl; lia].
    specialize (IH (S attempt) (Some e)).
    destruct (retry_loop p func rnd remaining (S attempt) (Some e)) as [r tr].
    simpl in *. rewrite attempts_made_cons_sleep by apply sleep_no_attempt. lia.
Qed.

(** If the operation fails at every index the loop visits, the loop ends
    with an error. *)
Lemma retry_loop_fails (remaining attempt : nat) last_exception :
  (forall i, (attempt <= i < attempt + remaining)%nat -> exists e, func i = Raise e) ->
  is_Return (fst (retry_loop p func rnd remaining attempt last_exception)) = false.
Proof.
  revert attempt last_exception.
  induction remaining as [|remaining IH]; intros attempt last_exception Hfail; simpl.
  - apply raise_last_not_Return.
  - destruct (Hfail attempt) as [e ->]; [lia|].
    destruct (should_retry p e (Z.of_nat attempt)); simpl; [|done].
    specialize (IH (S attempt) (Some e)).
    destruct (retry_loop p func rnd remaining (S attempt) (Some e)) as [r tr].
    simpl in *. apply IH. intros i Hi. apply Hfail. lia.
Qed.

(** If moreover every such failure is one the policy retries, every
    iteration invokes the operation. *)
Lemma retry_loop_retryable_attempts (remaining attempt : nat) last_exception :
  (forall i, (attempt <= i < attempt + remaining)%nat ->
     exists e, func i = Raise e /\ should_retry p e (Z.of_nat i) = true) ->
  attempts_made (snd (retry_loop p func rnd remaining attempt last_exception))
  = remaining.
Proof.
  revert attempt last_exception.
  induction remaining as [|remaining IH]; intros attempt last_exception Hfail; simpl.
  - done.
  - destruct (Hfail attempt) as (e & -> & ->); [lia|]. simpl.
    specialize (IH (S attempt) (Some e)).
    destruct (retry_loop p func rnd remaining (S attempt) (Some e)) as [r tr].
    simpl in *. rewrite attempts_made_cons_sleep by apply sleep_no_attempt.
    f_equal. apply IH. intros i Hi. apply Hfail. lia.
Qed.

(** Retryable failures up to index [k] and a success at [k], reached within
    the iterations left, make the loop return that success after invoking
    the operation once per index. *)
Lemma retry_loop_succeeds (remaining attempt k : nat) (a : A) last_exception :
  (attempt <= k < attempt + remaining)%nat ->
  func k = Return a ->
  (forall i, (attempt <= i < k)%nat ->
     exists e, func i = Raise e /\ should_retry p e (Z.of_nat i) = true) ->
  let run := retry_loop p func rnd remaining attempt last_exception in
  fst run = Return a /\ attempts_made (snd run) = S (k - attempt).
Proof.
  revert attempt last_exception.
  induction remaining as [|remaining IH]; intros attempt last_exception Hk Hok Hfail;
    simpl; [lia|].
  destruct (decide (attempt = k)) as [->|Hne].
  - rewrite Hok. simpl. split; [done|]. unfold attempts_made. simpl. lia.
  - destruct (Hfail attempt) as (e & -> & ->); [lia|]. simpl.
    specialize (IH (S attempt) (Some e)).
    destruct (retry_loop p func rnd remaining (S attempt) (Some e)) as [r tr].
    simpl in *. rewrite attempts_made_cons_sleep by apply sleep_no_attempt.
    destruct IH as [-> ->]; [lia | done | intros i Hi; apply Hfail; lia |].
    split; [done | lia].
Qed.

Lemma retry_with_backoff_fails :
  fails_every_attempt p func ->
  is_Return (fst (retry_with_backoff p func rnd)) = false.
Proof.
  intros Hfail. apply retry_loop_fails. intros i Hi. apply Hfail. lia.
Qed.

Lemma retry_with_backoff_attempts_le :
  (attempts_made (snd (retry_with_backoff p func rnd)) <= Z.to_nat (max_attempts p))%nat.
Proof. apply retry_loop_attempts_le. Qed.

Lemma retry_with_backoff_retryable_attempts :
  fails_retryably p func ->
  attempts_made (snd (retry_with_backoff p func rnd)) = Z.to_nat (max_attempts p).
Proof.
  intros Hfail. apply retry_loop_retryable_attempts. intros i Hi. apply Hfail. lia.
Qed.

Lemma retry_with_backoff_succeeds (k : nat) (a : A) :
  succeeds_at p func k a ->
  fst (retry_with_backoff p func rnd) = Return a /\
  attempts_made (snd (retry_with_backoff p func rnd)) = S k.
Proof.
  intros (Hk & Hok & Hfail).
  destruct (retry_loop_succeeds (Z.to_nat (max_attempts p)) 0 k a None)
    as [Hr Hn]; [lia | done | intros i Hi; apply Hfail; lia |].
  unfold retry_with_backoff. rewrite Hr, Hn. split; [done | f_equal; lia].
Qed.

End Retry.

(** ** Dispatch under the circuit breaker *)

Section Dispatcher.
Context {A : Type}.
Variable cfg : CircuitConfig.
Variable p : RetryPolicy.

Lemma enter_Closed now st : phase st = Closed -> enter cfg now st = Some st.
Proof. intros Hp. unfold enter. by rewrite Hp. Qed.

(** A refused call makes no attempt and leaves the breaker as it is. *)
Lemma execute_refused now now_done (operation : nat -> Result A) rnd st :
  enter cfg now st = None ->
  execute cfg p now now_done operation rnd st =
  mkDispatch (Raise circuit_open_error) [] st.
Proof. intros Henter. unfold execute. by rewrite Henter. Qed.

(** An admitted call runs the retry loop once and reports its outcome to
    the breaker once. *)
Lemma execute_entered now now_done (operation : nat -> Result A) rnd st st1 :
  enter cfg now st = Some st1 ->
  let run := retry_with_backoff p operation rnd in
  let d := execute cfg p now now_done operation rnd st in
  d_result d = fst run /\ d_trace d = snd run /\
  d_circuit d = if is_Return (fst run) then record_success st1
                else record_failure cfg now_done st1.
Proof.
  intros Henter. unfold execute. rewrite Henter.
  destruct (retry_with_backoff p operation rnd) as [[a|e] tr]; by simpl.
Qed.

Lemma enter_failure_count now st st1 :
  enter cfg now st = Some st1 -> failure_count st1 = failure_count st.
Proof.
  unfold enter. destruct (phase st); [by intros [= <-]| |done].
  destruct (_ <=? _); [by intros [= <-] | done].
Qed.

Lemma enter_phase now st st1 :
  enter cfg now st = Some st1 ->
  phase st = Closed /\ st1 = st \/ phase st = Open /\ phase st1 = HalfOpen.
Proof.
  unfold enter. destruct (phase st) eqn:Hp; [intros [= <-]; by left| |done].
  destruct (_ <=? _); [intros [= <-]; by right | done].
Qed.

Lemma record_failure_count now st :
  failure_count (record_failure cfg now st) = failure_count st + 1.
Proof.
  unfold record_failure. destruct (phase st); [|done..].
  by destruct (_ <=? _).
Qed.

Lemma record_success_count st :
  failure_count (record_success st) =
  if decide (phase st = HalfOpen) then 0 else failure_count st.
Proof. unfold record_success. by destruct (phase st). Qed.

(** Every move of a breaker keeps its phase or follows an edge of
    Closed->Open->HalfOpen->{Closed|Open}. *)
Lemma circuit_step_edge st st' :
  circuit_step cfg st st' ->
  phase st = phase st' \/ phase_edge (phase st) (phase st').
Proof.
  unfold phase_edge. intros [now s s' Henter|s|now s].
  - destruct (enter_phase _ _ _ Henter) as [[_ ->]|[-> ->]]; [by left|].
    right. set_solver.
  - unfold record_success. destruct (phase s) eqn:Hp; simpl; rewrite ?Hp;
      [by left | by left | right; set_solver].
  - unfold record_failure. destruct (phase s) eqn:Hp; simpl.
    + destruct (_ <=? _); simpl; [right; set_solver | by left].
    + by left.
    + right. set_solver.
Qed.

(** Failing dispatches to a Closed breaker that stay below the threshold
    leave it Closed and are counted one each. *)
Lemma execute_all_below_threshold (calls : list (Call A)) st :
  phase st = Closed ->
  Forall (call_fails p) calls ->
  failure_count st + Z.of_nat (length calls) < failure_threshold cfg ->
  execute_all cfg p calls st =
  {| phase := Closed;
     failure_count := failure_count st + Z.of_nat (length calls);
     opened_at := opened_at st |}.
Proof.
  revert st. induction calls as [|c calls IH]; intros st Hp Hfail Hlt; simpl.
  - destruct st; simpl in *. subst. f_equal. lia.
  - apply Forall_cons in Hfail as [Hc Hfail]. simpl in Hlt.
    destruct (execute_entered (c_now c) (c_done c) (c_operation c) (c_rnd c)
                st st (enter_Closed _ _ Hp)) as (_ & _ & Hst).
    unfold call_fails in Hc. rewrite Hc in Hst.
    unfold execute_call. rewrite Hst.
    unfold record_failure. rewrite Hp.
    destruct (Z.leb_spec (failure_threshold cfg) (failure_count st + 1)); [lia|].
    rewrite IH; simpl; [f_equal; lia | done | done | lia].
Qed.

(** The failing dispatch that reaches the threshold opens the breaker. *)
Lemma execute_call_reaches_threshold (c : Call A) st :
  phase st = Closed -> call_fails p c ->
  failure_threshold cfg <= failure_count st + 1 ->
  d_circuit (execute_call cfg p c st) =
  {| phase := Open; failure_count := failure_count st + 1; opened_at := c_done c |}.
Proof.
  intros Hp Hc Hle.
  destruct (execute_entered (c_now c) (c_done c) (c_operation c) (c_rnd c)
              st st (enter_Closed _ _ Hp)) as (_ & _ & Hst).
  unfold call_fails in Hc. rewrite Hc in Hst.
  unfold execute_call. rewrite Hst. unfold record_failure. rewrite Hp.
  by destruct (Z.leb_spec (failure_threshold cfg) (failure_count st + 1)); [|lia].
Qed.

(** A dispatch moves the breaker by at most two steps: entry, then the
    report of the outcome. *)
Lemma execute_call_steps (c : Call A) st :
  rtc (circuit_step cfg) st (d_circuit (execute_call cfg p c st)).
Proof.
  unfold execute_call, execute.
  destruct (enter cfg (c_now c) st) as [st1|] eqn:Henter; [|apply rtc_refl].
  destruct (retry_with_backoff p (c_operation c) (c_rnd c)) as [[a|e] tr]; simpl.
  - eapply rtc_l; [by eapply step_enter | apply rtc_once, step_success].
  - eapply rtc_l; [by eapply step_enter | apply rtc_once, step_failure].
Qed.

Lemma execute_all_app (calls1 calls2 : list (Call A)) st :
  execute_all cfg p (calls1 ++ calls2) st =
  execute_all cfg p calls2 (execute_all cfg p calls1 st).
Proof. apply fold_left_app. Qed.

(** Exactly [failure_threshold] failing dispatches in a row open a fresh
    breaker, at the completion time of the last one. *)
Lemma execute_all_opens (calls : list (Call A)) (c : Call A) :
  Forall (call_fails p) (calls ++ [c]) ->
  Z.of_nat (length (calls ++ [c])) = failure_threshold cfg ->
  execute_all cfg p (calls ++ [c]) circuit_init =
  {| phase := Open; failure_count := failure_threshold cfg; opened_at := c_done c |}.
Proof.
  intros Hfail Hlen. rewrite length_app in Hlen. simpl in Hlen.
  apply Forall_app in Hfail as [Hcalls Hc]. apply Forall_cons in Hc as [Hc _].
  rewrite execute_all_app.
  rewrite (execute_all_below_threshold calls circuit_init); simpl; [|done|done|lia].
  rewrite execute_call_reaches_threshold; simpl; [f_equal; lia | done | done | lia].
Qed.

End Dispatcher.

(** A dispatch to one target runs [execute] on that target's breaker (a
    fresh one with the default configuration when the table has none),
    stores the breaker back, and leaves every other target's breaker as it
    is. *)
Lemma execute_target_lookup {A : Type} (p : RetryPolicy) (target_key : string)
    (now now_done : Z) (operation : nat -> Result A) (rnd : nat -> Q)
    (table : gmap string Breaker) :
  let b := default {| b_config := get_circuit_breaker_defaults;
                      b_state := circuit_init |} (table !! target_key) in
  let d := execute (b_config b) p now now_done operation rnd (b_state b) in
  let out := execute_target p target_key now now_done operation rnd table in
  out.1.1 = d_result d /\ out.1.2 = d_trace d /\
  out.2 !! target_key = Some {| b_config := b_config b; b_state := d_circuit d |} /\
  forall other, other <> target_key -> out.2 !! other = table !! other.
Proof.
  unfold execute_target, get_circuit_breaker.
  destruct (table !! target_key) as [b|] eqn:Hb; simpl.
  - repeat split; [apply lookup_insert_eq|].
    intros other Hne. by rewrite lookup_insert_ne.
  - repeat split; [apply lookup_insert_eq|].
    intros other Hne. by rewrite !lookup_insert_ne.
Qed.



Lemma breaker_of_lookup (target_key : string) (table : gmap string Breaker) :
  breaker_of target_key table =
  default {| b_config := get_circuit_breaker_defaults; b_state := circuit_init |}
          (table !! target_key).
Proof.
  unfold breaker_of, get_circuit_breaker.
  by destruct (table !! target_key).
Qed.

Lemma breaker_of_stored (target_key : string) (b : Breaker)
    (table : gmap string Breaker) :
  table !! target_key = Some b -> breaker_of target_key table = b.
Proof. intros H. by rewrite breaker_of_lookup, H. Qed.

(** One dispatch, read off the table: it runs under the breaker the table
    hands out for the target, stores the breaker it leaves, and touches no
    other entry. *)
Lemma dispatch_table {A : Type} (p : RetryPolicy) (target_key : string)
    (c : Call A) (table : gmap string Breaker) :
  let b := breaker_of target_key table in
  let d := execute_call (b_config b) p c (b_state b) in
  let out := dispatch p target_key c table in
  out.1.1 = d_result d /\ out.1.2 = d_trace d /\
  out.2 !! target_key = Some {| b_config := b_config b; b_state := d_circuit d |} /\
  forall other, other <> target_key -> out.2 !! other = table !! other.
Proof.
  cbn zeta. rewrite breaker_of_lookup. unfold dispatch, execute_call.
  apply (execute_target_lookup p target_key (c_now c) (c_done c)
           (c_operation c) (c_rnd c) table).
Qed.

Lemma dispatch_breaker_of {A : Type} (p : RetryPolicy) (target_key key : string)
    (c : Call A) (table : gmap string Breaker) :
  let b := breaker_of target_key table in
  breaker_of target_key (dispatch p key c table).2 =
  if decide (key = target_key)
  then {| b_config := b_config b;
          b_state := d_circuit (execute_call (b_config b) p c (b_state b)) |}
  else b.
Proof.
  cbn zeta. destruct (dispatch_table p key c table) as (_ & _ & Hkey & Hother).
  destruct (decide (key = target_key)) as [->|Hne].
  - by apply breaker_of_stored.
  - rewrite !breaker_of_lookup, Hother; [done|]. by intros ->.
Qed.

Lemma dispatch_all_snoc {A : Type} (p : RetryPolicy)
    (calls : list (string * Call A)) (call : string * Call A)
    (table : gmap string Breaker) :
  dispatch_all p (calls ++ [call]) table =
  (dispatch p call.1 call.2 (dispatch_all p calls table)).2.
Proof. unfold dispatch_all. by rewrite fold_left_app. Qed.

(** The breaker of a target after a sequence of dispatches is the breaker
    it started with, taken through the dispatches that went to that
    target. *)
Lemma dispatch_all_breaker_of {A : Type} (p : RetryPolicy) (target_key : string)
    (calls : list (string * Call A)) (table : gmap string Breaker) :
  let b := breaker_of target_key table in
  breaker_of target_key (dispatch_all p calls table) =
  {| b_config := b_config b;
     b_state := execute_all (b_config b) p (calls_to target_key calls) (b_state b) |}.
Proof.
  cbn zeta. revert table.
  induction calls as [|[key c] calls IH]; intros table.
  - cbn. by destruct (breaker_of target_key table).
  - unfold dispatch_all in *. cbn [fold_left]. rewrite IH.
    cbn [fst snd]. rewrite dispatch_breaker_of.
    unfold calls_to. rewrite filter_cons. cbn [fst].
    destruct (decide (key = target_key)) as [->|Hne]; [|done].
    cbn [b_config b_state map snd execute_all fold_left]. done.
Qed.

Lemma calls_to_take {A : Type} (target_key : string)
    (calls : list (string * Call A)) (n : nat) :
  exists m, calls_to target_key (take n calls) = take m (calls_to target_key calls).
Proof.
  revert n. induction calls as [|[key c] calls IH]; intros n.
  - exists 0%nat. by rewrite take_nil.
  - destruct n as [|n]; [by exists 0%nat|].
    destruct (IH n) as [m Hm]. cbn [take]. unfold calls_to in *.
    rewrite !filter_cons. cbn [fst].
    destruct (decide (key = target_key)).
    + exists (S m). cbn [map take]. by rewrite Hm.
    + by exists m.
Qed.



(** ** Retry traces *)

Section RetryTrace.
Context {A : Type}.
Variable p : RetryPolicy.
Variable func : nat -> Result A.
Variable rnd : nat -> Q.

Lemma slept_step (attempt : nat) (tr : list RetryEvent) :
  Z.of_nat attempt < max_attempts p - 1 ->
  slept (Attempt attempt ::
         (if Z.of_nat attempt <? max_attempts p - 1
          then [Sleep (get_delay p (rnd attempt) attempt)] else []) ++ tr)
  = get_delay p (rnd attempt) attempt :: slept tr.
Proof.
  intros Hlt. by destruct (Z.ltb_spec (Z.of_nat attempt) (max_attempts p - 1)); [|lia].
Qed.

Lemma retry_loop_stops (remaining attempt j : nat) (e : PyExc) last_exception :
  Z.of_nat (attempt + remaining) = max_attempts p ->
  (attempt <= j)%nat ->
  Z.of_nat j < max_attempts p ->
  func j = Raise e ->
  (should_retry p e (Z.of_nat j) = false \/ Z.of_nat j = max_attempts p - 1) ->
  (forall i, (attempt <= i < j)%nat ->
     exists e', func i = Raise e' /\ should_retry p e' (Z.of_nat i) = true) ->
  let run := retry_loop p func rnd remaining attempt last_exception in
  fst run = Raise e /\
  attempts_made (snd run) = S (j - attempt) /\
  slept (snd run) = map (fun i => get_delay p (rnd i) i) (seq attempt (j - attempt)).
Proof.
  revert attempt last_exception.
  induction remaining as [|remaining IH];
    intros attempt last_exception Hsum Hle Hj He Hstop Hfail; simpl; [lia|].
  destruct (decide (attempt = j)) as [->|Hne].
  - rewrite He, Nat.sub_diag. simpl.
    destruct (should_retry p e (Z.of_nat j)) eqn:Hretry; simpl; [|done].
    destruct Hstop as [?|Hlast]; [done|].
    assert (remaining = 0%nat) as -> by lia. simpl.
    by destruct (Z.ltb_spec (Z.of_nat j) (max_attempts p - 1)); [lia|].
  - destruct (Hfail attempt) as (e' & -> & ->); [lia|]. simpl.
    specialize (IH (S attempt) (Some e')).
    destruct (retry_loop p func rnd remaining (S attempt) (Some e')) as [r tr].
    destruct IH as (Hr & Hn & Hs); [lia | lia | done | done | done | |].
    { intros i Hi. apply Hfail. lia. }
    cbn [fst snd] in *. rewrite attempts_made_cons_sleep by apply sleep_no_attempt.
    rewrite slept_step by lia. rewrite Hr, Hn, Hs.
    replace (j - attempt)%nat with (S (j - S attempt)) by lia.
    split; [done|]. split; [lia | done].
Qed.

Lemma retry_loop_success_slept (remaining attempt k : nat) (a : A) last_exception :
  (attempt <= k < attempt + remaining)%nat ->
  Z.of_nat k < max_attempts p ->
  func k = Return a ->
  (forall i, (attempt <= i < k)%nat ->
     exists e, func i = Raise e /\ should_retry p e (Z.of_nat i) = true) ->
  slept (snd (retry_loop p func rnd remaining attempt last_exception))
  = map (fun i => get_delay p (rnd i) i) (seq attempt (k - attempt)).
Proof.
  revert attempt last_exception.
  induction remaining as [|remaining IH];
    intros attempt last_exception Hk Hmax Hok Hfail; simpl; [lia|].
  destruct (decide (attempt = k)) as [->|Hne].
  - rewrite Hok, Nat.sub_diag. done.
  - destruct (Hfail attempt) as (e & -> & ->); [lia|]. simpl.
    specialize (IH (S attempt) (Some e)).
    destruct (retry_loop p func rnd remaining (S attempt) (Some e)) as [r tr].
    cbn [fst snd] in *. rewrite slept_step by lia.
    rewrite IH; [|lia|done|done|intros i Hi; apply Hfail; lia].
    by replace (k - attempt)%nat with (S (k - S attempt)) by lia.
Qed.

(** The loop sleeps only after attempts before the last allowed one, at
    most once each. *)
Lemma retry_loop_slept_length (remaining attempt : nat) last_exception :
  (length (slept (snd (retry_loop p func rnd remaining attempt last_exception)))
   <= Z.to_nat (max_attempts p - 1) - attempt)%nat.
Proof.
  revert attempt last_exception.
  induction remaining as [|remaining IH]; intros attempt last_exception; simpl;
    [lia|].
  destruct (func attempt) as [a|e]; simpl; [lia|].
  destruct (should_retry p e (Z.of_nat attempt)); simpl; [|lia].
  specialize (IH (S attempt) (Some e)).
  destruct (retry_loop p func rnd remaining (S attempt) (Some e)) as [r tr].
  simpl in *.
  destruct (Z.ltb_spec (Z.of_nat attempt) (max_attempts p - 1)); simpl; lia.
Qed.

Lemma retry_loop_slept_bounds (remaining attempt : nat) last_exception (lo hi : Q) :
  (forall i, (lo <= get_delay p (rnd i) i)%Q /\ (get_delay p (rnd i) i <= hi)%Q) ->
  Forall (fun d => (lo <= d)%Q /\ (d <= hi)%Q)
    (slept (snd (retry_loop p func rnd remaining attempt last_exception))).
Proof.
  intros Hd. revert attempt last_exception.
  induction remaining as [|remaining IH]; intros attempt last_exception; simpl;
    [constructor|].
  destruct (func attempt) as [a|e]; simpl; [constructor|].
  destruct (should_retry p e (Z.of_nat attempt)); simpl; [|constructor].
  specialize (IH (S attempt) (Some e)).
  destruct (retry_loop p func rnd remaining (S attempt) (Some e)) as [r tr].
  simpl in *.
  destruct (Z.of_nat attempt <? max_attempts p - 1); simpl; [|done].
  constructor; [apply Hd | done].
Qed.

End RetryTrace.

Lemma get_delay_range (p : RetryPolicy) (r : Q) (n : nat) :
  nonneg_policy p -> (0 <= r)%Q -> (r < 1)%Q ->
  (0 <= get_delay p r n)%Q /\ (get_delay p r n <= max_delay p)%Q.
Proof.
  intros (Hb & He & Hm) H0 H1.
  pose proof (capped_delay_nonneg p n Hb He Hm) as Hnn.
  pose proof (capped_delay_le_max p n) as Hmax.
  destruct (jitter_factor_bounds r H0 H1) as [Hlo Hhi].
  unfold get_delay. destruct (jitter p); split; try lra; nra.
Qed.

Lemma sum_bounded (l : list Q) (hi : Q) :
  Forall (fun d => (0 <= d)%Q /\ (d <= hi)%Q) l ->
  (0 <= fold_right Qplus 0 l)%Q /\
  (fold_right Qplus 0 l <= inject_Z (Z.of_nat (length l)) * hi)%Q.
Proof.
  induction 1 as [|d l [Hd0 Hd] _ [IH0 IH]]; simpl fold_right; simpl length.
  - split; [lra|]. change (inject_Z (Z.of_nat 0)) with 0%Q. lra.
  - rewrite Nat2Z.inj_succ, <- Z.add_1_r, inject_Z_plus. split; [lra|].
    change (inject_Z 1) with 1%Q. lra.
Qed.

Lemma slept_app (tr tr' : list RetryEvent) :
  slept (tr ++ tr') = slept tr ++ slept tr'.
Proof.
  induction tr as [|[attempt|delay] tr IH]; cbn; [done|done|by rewrite IH].
Qed.

Lemma attempts_made_app (tr tr' : list RetryEvent) :
  attempts_made (tr ++ tr') = (attempts_made tr + attempts_made tr')%nat.
Proof. unfold attempts_made. by rewrite List.filter_app, length_app. Qed.

(** A run that ends with one more invocation after the trace [tr]. *)
Lemma trace_then_attempt (tr : list RetryEvent) (j n : nat) (delays : list Q) :
  attempts_made tr = n -> slept tr = delays ->
  attempts_made (tr ++ [Attempt j]) = S n /\ slept (tr ++ [Attempt j]) = delays.
Proof.
  intros <- <-. rewrite attempts_made_app, slept_app. cbn.
  rewrite app_nil_r. split; [|done]. unfold attempts_made. cbn. lia.
Qed.

Section RetryFloatRange.
Context {A : Type}.
Variable p : RetryPolicy.
Variable func : nat -> Result A.
Variable rnd : nat -> Q.

(** The loop up to attempt [j], when the attempts before it fail retryably
    and their delays are in range: [j - attempt] invocations, each
    followed by its delay, and then the loop from [j]. *)
Lemma float_retry_loop_prefix (remaining attempt j : nat) last_exception :
  (attempt <= j)%nat ->
  (j < attempt + remaining)%nat ->
  Z.of_nat j < max_attempts p ->
  (forall i, (attempt <= i < j)%nat ->
     exists e, func i = Raise e /\ should_retry p e (Z.of_nat i) = true) ->
  (forall i, (attempt <= i < j)%nat ->
     FloatRange.representable (exponential_base p ^ Z.of_nat i)%Q = true) ->
  exists last tr,
    let rest := FloatRange.retry_loop p func rnd (remaining - (j - attempt)) j last in
    FloatRange.retry_loop p func rnd remaining attempt last_exception
      = (fst rest, tr ++ snd rest) /\
    attempts_made tr = (j - attempt)%nat /\
    slept tr = map (fun i => get_delay p (rnd i) i) (seq attempt (j - attempt)).
Proof.
  revert attempt last_exception.
  induction remaining as [|remaining IH];
    intros attempt last_exception Hle Hlt Hj Hfail Hrep; [lia|].
  destruct (decide (attempt = j)) as [->|Hne].
  - exists last_exception, []. rewrite Nat.sub_diag, Nat.sub_0_r. cbn zeta.
    split; [by destruct (FloatRange.retry_loop _ _ _ _ _ _)|done].
  - destruct (Hfail attempt) as (e & He & Hretry); [lia|].
    destruct (IH (S attempt) (Some e)) as (last & tr & Heq & Hn & Hs);
      [lia | lia | done | intros i Hi; apply Hfail; lia
       | intros i Hi; apply Hrep; lia |].
    exists last, (Attempt attempt :: Sleep (get_delay p (rnd attempt) attempt) :: tr).
    cbn zeta in *.
    replace (S remaining - (j - attempt))%nat with (remaining - (j - S attempt))%nat
      by lia.
    cbn [FloatRange.retry_loop]. rewrite He, Hretry. cbn [negb].
    destruct (Z.ltb_spec (Z.of_nat attempt) (max_attempts p - 1)); [|lia].
    rewrite get_delay_in_range by (apply Hrep; lia).
    rewrite Heq. cbn [fst snd].
    split; [done|]. split.
    + unfold attempts_made in *. cbn. rewrite Hn. lia.
    + cbn [slept]. rewrite Hs.
      replace (j - attempt)%nat with (S (j - S attempt)) by lia. done.
Qed.

End RetryFloatRange.

(** As long as no power leaves the float range the two readings of the
    loop agree. *)
Lemma float_retry_loop_agrees {A : Type} (p : RetryPolicy)
    (func : nat -> Result A) (rnd : nat -> Q)
    (remaining attempt : nat) last_exception :
  (forall i, Z.of_nat i < max_attempts p - 1 ->
     FloatRange.representable (exponential_base p ^ Z.of_nat i)%Q = true) ->
  FloatRange.retry_loop p func rnd remaining attempt last_exception =
  retry_loop p func rnd remaining attempt last_exception.
Proof.
  intros Hrep. revert attempt last_exception.
  induction remaining as [|remaining IH]; intros attempt last_exception; [done|].
  cbn [FloatRange.retry_loop retry_loop].
  destruct (func attempt) as [a|e]; [done|].
  destruct (should_retry p e (Z.of_nat attempt)); cbn [negb]; [|done].
  rewrite IH.
  destruct (Z.ltb_spec (Z.of_nat attempt) (max_attempts p - 1)) as [Hlt|Hge].
  - rewrite get_delay_in_range by (by apply Hrep).
    by destruct (retry_loop p func rnd remaining (S attempt) (Some e)).
  - by destruct (retry_loop p func rnd remaining (S attempt) (Some e)).
Qed.

(** X1. When the operation fails retryably on attempts [0 .. j-1] and then
    fails with an error that ends the retrying (one the policy does not
    retry, or the failure of the last allowed attempt), and the powers
    [exponential_base^i] of the attempts before [j] lie in the float
    range, [retry_with_backoff] raises exactly that error, after [j + 1]
    invocations, having slept the delays of attempts [0 .. j-1] and nothing
    after the final failure. If instead attempt [i < j] is the first whose
    power is out of the float range, the call ends there: it raises the
    [OverflowError] of [get_delay] after [i + 1] invocations, having slept
    the delays of attempts [0 .. i-1]. *)
Theorem retry_surfaces_error_that_stops_it :
  forall (A : Type) (p : RetryPolicy) (operation : nat -> Result A)
         (rnd : nat -> Q) (j : nat) (e : PyExc),
    stops_at p operation j e ->
    (powers_representable p j ->
     let run := FloatRange.retry_with_backoff p operation rnd in
     fst run = Raise e /\
     attempts_made (snd run) = S j /\
     slept (snd run) = delays_before p rnd j) /\
    (forall i, (i < j)%nat -> first_overflow p i ->
     let run := FloatRange.retry_with_backoff p operation rnd in
     fst run = Raise FloatRange.overflow_error /\
     attempts_made (snd run) = S i /\
     slept (snd run) = delays_before p rnd i).
Proof.
  intros A p operation rnd j e (Hj & He & Hstop & Hfail). split.
  - intros Hrep run.
    destruct (float_retry_loop_prefix p operation rnd
                (Z.to_nat (max_attempts p)) 0 j None)
      as (last & tr & Heq & Hn & Hs); [lia | lia | done | | |].
    { intros i Hi. apply Hfail. lia. }
    { intros i Hi. apply Hrep. lia. }
    subst run. unfold FloatRange.retry_with_backoff. cbn zeta in Heq.
    rewrite Heq. rewrite Nat.sub_0_r in *.
    destruct (Z.to_nat (max_attempts p) - j)%nat as [|remaining] eqn:Hrem; [lia|].
    cbn [FloatRange.retry_loop]. rewrite He.
    destruct (should_retry p e (Z.of_nat j)) eqn:Hretry; cbn [negb].
    + destruct Hstop as [?|Hlast]; [done|].
      destruct (Z.ltb_spec (Z.of_nat j) (max_attempts p - 1)); [lia|].
      assert (remaining = 0%nat) as -> by lia. cbn [FloatRange.retry_loop fst snd].
      split; [done|]. by apply trace_then_attempt.
    + cbn [raise_last fst snd]. split; [done|]. by apply trace_then_attempt.
  - intros i Hi [Hrep Hout] run.
    destruct (float_retry_loop_prefix p operation rnd
                (Z.to_nat (max_attempts p)) 0 i None)
      as (last & tr & Heq & Hn & Hs); [lia | lia | lia | | |].
    { intros i' Hi'. apply Hfail. lia. }
    { intros i' Hi'. apply Hrep. lia. }
    subst run. unfold FloatRange.retry_with_backoff. cbn zeta in Heq.
    rewrite Heq. rewrite Nat.sub_0_r in *.
    destruct (Z.to_nat (max_attempts p) - i)%nat as [|remaining] eqn:Hrem; [lia|].
    cbn [FloatRange.retry_loop].
    destruct (Hfail i Hi) as (e' & -> & ->). cbn [negb].
    destruct (Z.ltb_spec (Z.of_nat i) (max_attempts p - 1)); [|lia].
    rewrite get_delay_out_of_range by done. cbn [fst snd].
    split; [done|]. by apply trace_then_attempt.
Qed.

Lemma retry_surfaces_error_that_stops_it_witness :
  let run := FloatRange.retry_with_backoff RetryPolicy_default
               unauthorized_after_timeout fixed_draw in
  fst run = Raise (mkExc (HTTPStatusError 401) "Unauthorized") /\
  attempts_made (snd run) = 2%nat /\
  slept (snd run) = delays_before RetryPolicy_default fixed_draw 1.
Proof.
  apply (retry_surfaces_error_that_stops_it string RetryPolicy_default
           unauthorized_after_timeout fixed_draw 1
           (mkExc (HTTPStatusError 401) "Unauthorized")).
  - split; [simpl; lia|]. split; [reflexivity|]. split; [left; reflexivity|].
    intros i Hi. exists (mkExc HttpxTimeoutException "Timeout").
    assert (i = 0%nat) as -> by lia. split; reflexivity.
  - intros i Hi. assert (i = 0%nat) as -> by lia. vm_compute. reflexivity.
Defined.

(** X2. When the operation fails retryably on attempts [0 .. k-1] and
    succeeds on attempt [k < max_attempts], and the powers
    [exponential_base^i] of the attempts before [k] lie in the float
    range, [retry_with_backoff] returns that value after [k + 1]
    invocations and has slept exactly the delays of attempts [0 .. k-1]:
    one backoff per failure, none after the success. If instead attempt
    [i < k] is the first whose power is out of the float range, the
    success is never reached: the call raises the [OverflowError] of
    [get_delay] after [i + 1] invocations. *)
Theorem retry_success_sleeps_once_per_failure :
  forall (A : Type) (p : RetryPolicy) (operation : nat -> Result A)
         (rnd : nat -> Q) (k : nat) (a : A),
    succeeds_at p operation k a ->
    (powers_representable p k ->
     let run := FloatRange.retry_with_backoff p operation rnd in
     fst run = Return a /\
     attempts_made (snd run) = S k /\
     slept (snd run) = delays_before p rnd k) /\
    (forall i, (i < k)%nat -> first_overflow p i ->
     let run := FloatRange.retry_with_backoff p operation rnd in
     fst run = Raise FloatRange.overflow_error /\
     attempts_made (snd run) = S i /\
     slept (snd run) = delays_before p rnd i).
Proof.
  intros A p operation rnd k a (Hk & Hret & Hfail). split.
  - intros Hrep run.
    destruct (float_retry_loop_prefix p operation rnd
                (Z.to_nat (max_attempts p)) 0 k None)
      as (last & tr & Heq & Hn & Hs); [lia | lia | done | | |].
    { intros i Hi. apply Hfail. lia. }
    { intros i Hi. apply Hrep. lia. }
    subst run. unfold FloatRange.retry_with_backoff. cbn zeta in Heq.
    rewrite Heq. rewrite Nat.sub_0_r in *.
    destruct (Z.to_nat (max_attempts p) - k)%nat as [|remaining] eqn:Hrem; [lia|].
    cbn [FloatRange.retry_loop]. rewrite Hret. cbn [fst snd].
    split; [done|]. by apply trace_then_attempt.
  - intros i Hi [Hrep Hout] run.
    destruct (float_retry_loop_prefix p operation rnd
                (Z.to_nat (max_attempts p)) 0 i None)
      as (last & tr & Heq & Hn & Hs); [lia | lia | lia | | |].
    { intros i' Hi'. apply Hfail. lia. }
    { intros i' Hi'. apply Hrep. lia. }
    subst run. unfold FloatRange.retry_with_backoff. cbn zeta in Heq.
    rewrite Heq. rewrite Nat.sub_0_r in *.
    destruct (Z.to_nat (max_attempts p) - i)%nat as [|remaining] eqn:Hrem; [lia|].
    cbn [FloatRange.retry_loop].
    destruct (Hfail i Hi) as (e' & -> & ->). cbn [negb].
    destruct (Z.ltb_spec (Z.of_nat i) (max_attempts p - 1)); [|lia].
    rewrite get_delay_out_of_range by done. cbn [fst snd].
    split; [done|]. by apply trace_then_attempt.
Qed.

Lemma retry_success_sleeps_once_per_failure_witness :
  let run := FloatRange.retry_with_backoff RetryPolicy_default
               succeeds_third_time fixed_draw in
  fst run = Return "success" /\
  attempts_made (snd run) = 3%nat /\
  slept (snd run) = delays_before RetryPolicy_default fixed_draw 2.
Proof.
  apply (retry_success_sleeps_once_per_failure string RetryPolicy_default
           succeeds_third_time fixed_draw 2 "success").
  - split; [simpl; lia|]. split; [reflexivity|].
    intros i Hi. exists (mkExc HttpxTimeoutException "Timeout"). split.
    + unfold succeeds_third_time. by destruct (Nat.ltb_spec i 2); [|lia].
    + unfold should_retry. simpl. by destruct (Z.leb_spec 3 (Z.of_nat i)); [lia|].
  - intros i Hi.
    destruct i as [|[|i]]; [vm_compute; reflexivity..|lia].
Defined.

(** X3. With [max_attempts <= 0] the loop body never runs:
    [retry_with_backoff] does not invoke the operation at all and raises
    the [TypeError] of [raise None]. *)
Theorem retry_without_attempts_raises_TypeError :
  forall (A : Type) (p : RetryPolicy) (operation : nat -> Result A)
         (rnd : nat -> Q),
    max_attempts p <= 0 ->
    retry_with_backoff p operation rnd =
    (Raise (mkExc TypeError "exceptions must derive from BaseException"), []).
Proof.
  intros A p operation rnd Hle. unfold retry_with_backoff.
  by replace (Z.to_nat (max_attempts p)) with 0%nat by lia.
Qed.

Lemma retry_without_attempts_raises_TypeError_witness :
  retry_with_backoff
    {| max_attempts := 0; base_delay := 1; max_delay := 60;
       exponential_base := 2; jitter := true |}
    succeeds_third_time fixed_draw =
  (Raise (mkExc TypeError "exceptions must derive from BaseException"), []).
Proof.
  apply (retry_without_attempts_raises_TypeError string); simpl; lia.
Defined.

(** X4. Whatever the operation does, a retry run under a policy with
    non-negative delays sleeps at most [max_attempts - 1] times, each time
    for a delay between 0 and [max_delay], so the time it spends sleeping
    is at most [(max_attempts - 1) * max_delay]. *)
Theorem retry_total_backoff_bounded :
  forall (A : Type) (p : RetryPolicy) (operation : nat -> Result A)
         (rnd : nat -> Q),
    nonneg_policy p ->
    (forall i, (0 <= rnd i)%Q /\ (rnd i < 1)%Q) ->
    let tr := snd (retry_with_backoff p operation rnd) in
    (length (slept tr) <= Z.to_nat (max_attempts p - 1))%nat /\
    Forall (fun d => (0 <= d)%Q /\ (d <= max_delay p)%Q) (slept tr) /\
    (total_slept tr <= inject_Z (Z.of_nat (Z.to_nat (max_attempts p - 1))) * max_delay p)%Q.
Proof.
  intros A p operation rnd Hp Hrnd tr.
  assert (Hlen : (length (slept tr) <= Z.to_nat (max_attempts p - 1))%nat).
  { subst tr. unfold retry_with_backoff.
    pose proof (retry_loop_slept_length p operation rnd
                  (Z.to_nat (max_attempts p)) 0 None). lia. }
  assert (Hall : Forall (fun d => (0 <= d)%Q /\ (d <= max_delay p)%Q) (slept tr)).
  { subst tr. apply retry_loop_slept_bounds. intros i.
    destruct (Hrnd i). by apply get_delay_range. }
  split; [done|]. split; [done|].
  destruct (sum_bounded _ _ Hall) as [_ Hsum]. unfold total_slept.
  destruct Hp as (_ & _ & Hm).
  eapply Qle_trans; [exact Hsum|].
  apply Qmult_le_compat_r; [|done].
  rewrite <- Zle_Qle. lia.
Qed.

Lemma retry_total_backoff_bounded_witness :
  let tr := snd (retry_with_backoff RetryPolicy_default always_times_out fixed_draw) in
  (length (slept tr) <= 2)%nat /\
  Forall (fun d => (0 <= d)%Q /\ (d <= 60)%Q) (slept tr) /\
  (total_slept tr <= 2 * 60)%Q.
Proof.
  apply (retry_total_backoff_bounded string RetryPolicy_default always_times_out
           fixed_draw).
  - repeat split; vm_compute; discriminate.
  - intros i. split; [vm_compute; discriminate | reflexivity].
Defined.

(** ** The error handler: responses, alerts, log *)

(** The classifier never answers InternalError, nor Critical. *)
Lemma classify_error_range (exception : PyExc) :
  fst (_classify_error exception) <> INTERNAL_ERROR /\
  snd (_classify_error exception) <> CRITICAL.
Proof.
  unfold _classify_error.
  destruct (exc_class exception); simpl;
    repeat (match goal with |- context [if ?b then _ else _] => destruct b end);
    simpl; by split.
Qed.

(** X5. Every response [handle_prediction_error] returns, the fallback
    included, is coherent: its status code is the one mapped to its
    category, it carries [detail] exactly when its severity is High or
    Critical, it carries [retry_after = 60] exactly when its category is
    RateLimit or CircuitBreaker and no [retry_after] otherwise, and it
    echoes the request id and correlation id of the context. *)
Theorem handler_response_coherent :
  forall (now : Z) (exception : PyExc) (context : Context) (h : ErrorHandler),
    let r := fst (handle_prediction_error now exception context h) in
    er_status_code r = status_code_map (category r) /\
    (is_Some (er_detail r) <-> severity r = HIGH \/ severity r = CRITICAL) /\
    retry_after r =
      (if bool_decide (category r ∈ [RATE_LIMIT; CIRCUIT_BREAKER])
       then Some 60 else None) /\
    request_id r = Some (ctx_request_id context) /\
    correlation_id r = ctx_correlation_id context.
Proof.
  intros now exception context h r. subst r.
  unfold handle_prediction_error.
  destruct (_classify_error exception) as [cat sev].
  destruct (_log_error _ _ _ _ _); simpl.
  - split; [done|]. split; [|done].
    destruct sev; simpl; split; intros Hx;
      try (by destruct Hx); try (by left); try (by right);
      by destruct Hx as [? [=]].
  - split; [done|]. split; [|done].
    split; [by right | by eexists].
Qed.

Lemma handle_prediction_error_alerts_ErrorContext now exception (c : ErrorContext) h :
  alerts (snd (handle_prediction_error now exception (ErrCtx c) h)) =
  alerts h ++
  (if 10 <? total_errors (error_metrics h) + 1 then ["high_error_rate"] else []) ++
  (if bool_decide (fst (_classify_error exception) = CIRCUIT_BREAKER)
   then ["circuit_breaker_open"] else []).
Proof.
  unfold handle_prediction_error.
  pose proof (classify_error_range exception) as [_ Hsev].
  destruct (_classify_error exception) as [cat sev]. simpl in *.
  unfold _check_alert_conditions. simpl.
  rewrite bool_decide_eq_false_2 by done. simpl.
  replace (10 <? Z.min (total_errors (error_metrics h) + 1) 60)
    with (10 <? total_errors (error_metrics h) + 1); [done|].
  destruct (Z.ltb_spec 10 (total_errors (error_metrics h) + 1)),
           (Z.ltb_spec 10 (Z.min (total_errors (error_metrics h) + 1) 60)); lia.
Qed.

Lemma handle_prediction_error_state_RequestContext now exception (c : RequestContext) h :
  let h' := snd (handle_prediction_error now exception (ReqCtx c) h) in
  _error_log h' = _error_log h /\ alerts h' = alerts h.
Proof.
  unfold handle_prediction_error.
  by destruct (_classify_error exception) as [cat sev].
Qed.

(** X6. The alerts of one error-handling call. With an [ErrorContext] the
    call triggers "high_error_rate" exactly when the total after the call
    exceeds 10 (so on every call from the eleventh error on, the rate being
    [min(total_errors, 60)]), then "circuit_breaker_open" exactly when the
    error is a circuit-breaker error, and nothing else; with the gateway's
    [RequestContext] it triggers none. The "critical_error" alert is never
    triggered: the classifier never answers Critical. *)
Theorem handler_alerts :
  forall (now : Z) (exception : PyExc) (h : ErrorHandler),
    (forall c : ErrorContext,
       alerts (snd (handle_prediction_error now exception (ErrCtx c) h)) =
       alerts h ++
       (if 10 <? total_errors (error_metrics h) + 1 then ["high_error_rate"] else []) ++
       (if bool_decide (fst (_classify_error exception) = CIRCUIT_BREAKER)
        then ["circuit_breaker_open"] else [])) /\
    (forall c : RequestContext,
       alerts (snd (handle_prediction_error now exception (ReqCtx c) h)) = alerts h) /\
    snd (_classify_error exception) <> CRITICAL /\
    (forall context,
       "critical_error" ∈ alerts (snd (handle_prediction_error now exception context h)) ->
       "critical_error" ∈ alerts h).
Proof.
  intros now exception h.
  split; [intros; apply handle_prediction_error_alerts_ErrorContext|].
  split; [intros; apply handle_prediction_error_state_RequestContext|].
  split; [apply classify_error_range|].
  intros [c|c].
  - rewrite handle_prediction_error_alerts_ErrorContext.
    rewrite !elem_of_app. intros [?|[Hin|Hin]]; [done| |].
    + destruct (_ <? _); [|by apply elem_of_nil in Hin].
      apply list_elem_of_singleton in Hin. discriminate.
    + destruct (bool_decide _); [|by apply elem_of_nil in Hin].
      apply list_elem_of_singleton in Hin. discriminate.
  - by destruct (handle_prediction_error_state_RequestContext now exception c h)
      as [_ ->].
Qed.

Lemma handler_alerts_witness :
  let h := handle_all
             (replicate 10 (0, mkExc OtherException "boom", ErrCtx sample_error_context))
             ErrorHandler_init in
  alerts h = [] /\
  alerts (snd (handle_prediction_error 0 circuit_open_error
                 (ErrCtx sample_error_context) h))
  = ["high_error_rate"; "circuit_breaker_open"].
Proof.
  intros h. split; [reflexivity|].
  destruct (handler_alerts 0 circuit_open_error h) as (Herr & _).
  rewrite (Herr sample_error_context). reflexivity.
Defined.

(** ** The error log *)

Lemma keep_last_length {A : Type} (n : nat) (l : list A) :
  length (keep_last n l) = Nat.min n (length l).
Proof. unfold keep_last. rewrite length_drop. lia. Qed.

Lemma log_error_ErrorContext now exception error_response (c : ErrorContext) log :
  _log_error now exception error_response (ErrCtx c) log =
  Return (keep_last 1000 (log ++ [mkLogEntry now exception error_response (ErrCtx c)])).
Proof.
  unfold _log_error. simpl. f_equal.
  case_bool_decide as Hlen; [done|].
  unfold keep_last.
  by replace (length (log ++ [mkLogEntry now exception error_response (ErrCtx c)]) - 1000)%nat
    with 0%nat by lia.
Qed.

Lemma handle_prediction_error_log_ErrorContext now exception (c : ErrorContext) h :
  _error_log (snd (handle_prediction_error now exception (ErrCtx c) h)) =
  keep_last 1000
    (_error_log h ++
     [mkLogEntry now exception
        (fst (handle_prediction_error now exception (ErrCtx c) h)) (ErrCtx c)]).
Proof.
  unfold handle_prediction_error.
  destruct (_classify_error exception) as [cat sev].
  by rewrite log_error_ErrorContext.
Qed.

Lemma handle_prediction_error_log_bound now exception context h :
  (length (_error_log h) <= 1000)%nat ->
  (length (_error_log (snd (handle_prediction_error now exception context h)))
   <= 1000)%nat.
Proof.
  intros Hh. destruct context as [c|c].
  - rewrite handle_prediction_error_log_ErrorContext, keep_last_length. lia.
  - by destruct (handle_prediction_error_state_RequestContext now exception c h)
      as [-> _].
Qed.

Lemma handle_all_snoc calls call h :
  handle_all (calls ++ [call]) h =
  snd (handle_prediction_error call.1.1 call.1.2 call.2 (handle_all calls h)).
Proof.
  unfold handle_all. rewrite fold_left_app. simpl.
  by destruct call as [[now exception] context].
Qed.

Lemma handle_all_log_bound calls :
  (length (_error_log (handle_all calls ErrorHandler_init)) <= 1000)%nat.
Proof.
  induction calls as [|call calls IH] using rev_ind; [simpl; lia|].
  rewrite handle_all_snoc. by apply handle_prediction_error_log_bound.
Qed.

(** X7. The error log is a ring of 1000 entries: after any sequence of
    error-handling calls on a fresh handler it holds at most 1000 entries,
    and a call with an [ErrorContext] appends its entry at the end, the
    oldest entries being dropped once the log would exceed 1000. *)
Theorem error_log_is_bounded_ring :
  forall (calls : list HandlerCall) (now : Z) (exception : PyExc)
         (c : ErrorContext),
    let h := handle_all calls ErrorHandler_init in
    let out := handle_prediction_error now exception (ErrCtx c) h in
    let entry := mkLogEntry now exception (fst out) (ErrCtx c) in
    (length (_error_log h) <= 1000)%nat /\
    _error_log (snd out) =
      drop (length (_error_log h) + 1 - 1000) (_error_log h ++ [entry]) /\
    last (_error_log (snd out)) = Some entry /\
    length (_error_log (snd out)) = Nat.min 1000 (length (_error_log h) + 1).
Proof.
  intros calls now exception c h out entry.
  pose proof (handle_all_log_bound calls) as Hh. fold h in Hh.
  assert (Hlog : _error_log (snd out) =
                 drop (length (_error_log h) + 1 - 1000) (_error_log h ++ [entry])).
  { subst out entry. rewrite handle_prediction_error_log_ErrorContext.
    unfold keep_last. by rewrite length_app. }
  split; [done|]. split; [done|]. rewrite Hlog. split.
  - rewrite drop_app_le; [apply last_snoc|].
    generalize (length (_error_log h)). intros n. lia.
  - rewrite length_drop, length_app. change (length [entry]) with 1%nat.
    generalize (length (_error_log h)). intros n. lia.
Qed.

Lemma handle_all_RequestContext calls h :
  Forall is_ReqCtx calls ->
  let h' := handle_all calls h in
  _error_log h' = _error_log h /\ alerts h' = alerts h /\
  total_errors (error_metrics h') =
    total_errors (error_metrics h) + Z.of_nat (length calls).
Proof.
  intros Hall. revert h.
  induction Hall as [|[[now exception] context] calls [c Hc] _ IH]; intros h; simpl.
  - repeat split. lia.
  - simpl in Hc. subst context.
    destruct (IH (snd (handle_prediction_error now exception (ReqCtx c) h)))
      as (Hlog & Halerts & Htotal).
    destruct (handle_prediction_error_state_RequestContext now exception c h)
      as [Hl Ha].
    rewrite Hlog, Halerts, Htotal, Hl, Ha, handle_prediction_error_metrics.
    repeat split. simpl. lia.
Qed.

(** X8. Errors handled for the gateway, which passes its [RequestContext],
    are counted but leave no other trace: after any number of such calls on
    a fresh handler [total_errors] equals the number of calls while the
    error log and the alerts are still empty, and every response is the
    handler's fallback. *)
Theorem gateway_errors_counted_not_logged :
  forall (calls : list HandlerCall),
    Forall is_ReqCtx calls ->
    let h := handle_all calls ErrorHandler_init in
    _error_log h = [] /\ alerts h = [] /\
    total_errors (error_metrics h) = Z.of_nat (length calls) /\
    forall now exception (c : RequestContext),
      is_fallback (fst (handle_prediction_error now exception (ReqCtx c) h)).
Proof.
  intros calls Hall h.
  destruct (handle_all_RequestContext calls ErrorHandler_init Hall)
    as (Hlog & Halerts & Htotal).
  split; [done|]. split; [done|]. split; [exact Htotal|].
  intros now exception c. rewrite handle_prediction_error_RequestContext.
  by repeat split.
Qed.

Lemma gateway_errors_counted_not_logged_witness :
  let calls := replicate 3 (0, mkExc (HTTPStatusError 503) "down",
                            ReqCtx sample_request_context) in
  let h := handle_all calls ErrorHandler_init in
  _error_log h = [] /\ alerts h = [] /\ total_errors (error_metrics h) = 3.
Proof.
  intros calls h.
  destruct (gateway_errors_counted_not_logged calls) as (Hlog & Halerts & Htotal & _).
  - repeat constructor; by exists sample_request_context.
  - by repeat split.
Defined.

(** ** Reading the error log *)

Lemma handle_all_log_ErrorContext calls :
  Forall is_ErrCtx_entry (_error_log (handle_all calls ErrorHandler_init)).
Proof.
  induction calls as [|[[now exception] context] calls IH] using rev_ind;
    [constructor|].
  rewrite handle_all_snoc. simpl. destruct context as [c|c].
  - rewrite handle_prediction_error_log_ErrorContext. unfold keep_last.
    apply Forall_drop, Forall_app. split; [done|].
    constructor; [by exists c | constructor].
  - by destruct (handle_prediction_error_state_RequestContext now exception c
                   (handle_all calls ErrorHandler_init)) as [-> _].
Qed.

Lemma summarize_all_ErrorContext (entries : list LogEntry) :
  Forall is_ErrCtx_entry entries ->
  exists l, summarize_all entries = Return l /\
    map es_error_id l = map (fun en => error_id (log_error_response en)) entries /\
    map es_request_id l = map (fun en => ctx_request_id (log_context en)) entries.
Proof.
  induction 1 as [|entry entries [c Hc] _ (l & Hl & Hids & Hreqs)].
  - by exists [].
  - eexists. simpl. unfold summarize. rewrite Hc. simpl. rewrite Hl.
    split; [done|]. simpl. by rewrite Hids, Hreqs.
Qed.

Lemma py_slice_from_neg {A : Type} (limit : Z) (l : list A) :
  py_slice_from (- limit) l =
  if limit =? 0 then l
  else if 0 <? limit then keep_last (Z.to_nat limit) l
  else drop (Z.to_nat (- limit)) l.
Proof.
  unfold py_slice_from, keep_last.
  destruct (Z.eqb_spec limit 0) as [->|Hne]; [done|].
  destruct (Z.ltb_spec (- limit) 0), (Z.ltb_spec 0 limit); try lia; [|done].
  by rewrite Z.opp_involutive.
Qed.

(** X9. On a handler reached by error-handling calls from a fresh one,
    [get_recent_errors(limit)] never fails and summarizes, oldest first,
    the last [limit] log entries when [limit > 0] (all of them when there
    are fewer), every log entry when [limit = 0] (the slice [[-0:]] is the
    whole list, not an empty one), and all but the first [-limit] entries
    when [limit < 0]. *)
Theorem get_recent_errors_slice :
  forall (calls : list HandlerCall) (limit : Z),
    let h := handle_all calls ErrorHandler_init in
    let selected :=
      if limit =? 0 then _error_log h
      else if 0 <? limit then keep_last (Z.to_nat limit) (_error_log h)
      else drop (Z.to_nat (- limit)) (_error_log h) in
    exists l,
      get_recent_errors limit h = Return l /\
      map es_error_id l = map (fun en => error_id (log_error_response en)) selected /\
      map es_request_id l = map (fun en => ctx_request_id (log_context en)) selected /\
      (0 < limit -> length l = Nat.min (Z.to_nat limit) (length (_error_log h))) /\
      (limit = 0 -> length l = length (_error_log h)).
Proof.
  intros calls limit h selected.
  pose proof (handle_all_log_ErrorContext calls) as Hall. fold h in Hall.
  assert (Hsel : match _error_log h with
                 | [] => []
                 | _ => py_slice_from (- limit) (_error_log h)
                 end = selected).
  { subst selected. rewrite <- py_slice_from_neg.
    destruct (_error_log h); [|done].
    unfold py_slice_from. by destruct (_ <? _); rewrite drop_nil. }
  assert (Hsel_all : Forall is_ErrCtx_entry selected).
  { subst selected. unfold keep_last.
    destruct (_ =? _); [done|]. destruct (_ <? _); by apply Forall_drop. }
  destruct (summarize_all_ErrorContext selected Hsel_all) as (l & Hl & Hids & Hreqs).
  exists l. unfold get_recent_errors. rewrite Hsel.
  split; [done|]. split; [done|]. split; [done|].
  assert (Hlen : length l = length selected).
  { by rewrite <- (length_map es_error_id), Hids, length_map. }
  rewrite Hlen. subst selected. split.
  - intros Hpos. destruct (Z.eqb_spec limit 0); [lia|].
    destruct (Z.ltb_spec 0 limit); [|lia]. apply keep_last_length.
  - intros ->. done.
Qed.

Lemma get_recent_errors_slice_witness :
  let calls := replicate 3 (0, mkExc OtherException "boom", ErrCtx sample_error_context) in
  let h := handle_all calls ErrorHandler_init in
  (exists l, get_recent_errors 2 h = Return l /\ length l = 2%nat) /\
  (exists l, get_recent_errors 0 h = Return l /\ length l = 3%nat).
Proof.
  intros calls h. split.
  - destruct (get_recent_errors_slice calls 2) as (l & Hl & _ & _ & Hpos & _).
    exists l. split; [exact Hl|]. rewrite Hpos by lia. reflexivity.
  - destruct (get_recent_errors_slice calls 0) as (l & Hl & _ & _ & _ & Hzero).
    exists l. split; [exact Hl|]. rewrite Hzero by reflexivity. reflexivity.
Defined.

(** ** The table of circuit breakers *)

(** X10. [get_circuit_breaker] creates a breaker only for an endpoint that
    has none: asked again for the same endpoint, with whatever
    configuration, it returns the same breaker (the configuration of its
    creation included) and leaves the table as it is; a first request
    creates a fresh Closed breaker with the configuration given; no other
    endpoint's breaker is touched. *)
Theorem get_circuit_breaker_keeps_first_configuration :
  forall (endpoint : string) (cfg1 cfg2 : CircuitConfig)
         (table : gmap string Breaker),
    let out := get_circuit_breaker endpoint cfg1 table in
    get_circuit_breaker endpoint cfg2 out.1 = out /\
    out.1 !! endpoint = Some out.2 /\
    (table !! endpoint = None ->
       out.2 = {| b_config := cfg1; b_state := circuit_init |}) /\
    (forall b, table !! endpoint = Some b -> out = (table, b)) /\
    (forall other, other <> endpoint -> out.1 !! other = table !! other).
Proof.
  intros endpoint cfg1 cfg2 table out. subst out.
  unfold get_circuit_breaker.
  destruct (table !! endpoint) as [b|] eqn:Hb; simpl.
  - rewrite Hb. repeat split; try done. by intros ? [= ->].
  - rewrite lookup_insert_eq. repeat split; try done.
    intros other Hne. by rewrite lookup_insert_ne.
Qed.

Lemma get_circuit_breaker_keeps_first_configuration_witness :
  let strict := {| failure_threshold := 1; recovery_timeout := 5 |} in
  let out := get_circuit_breaker "scoring" get_circuit_breaker_defaults ∅ in
  get_circuit_breaker "scoring" strict out.1 = out /\
  out.2 = {| b_config := get_circuit_breaker_defaults; b_state := circuit_init |}.
Proof.
  intros strict out.
  destruct (get_circuit_breaker_keeps_first_configuration "scoring"
              get_circuit_breaker_defaults strict ∅) as (Hsame & _ & Hfresh & _).
  split; [exact Hsame | apply Hfresh; reflexivity].
Defined.

(** ** Token cache: writes and clearing *)



(** X12. [TokenCache.clear] called without a key, and also with the empty
    string as key, empties the whole cache; called with a non-empty key it
    removes that key only, and does nothing when the key is absent. *)
Theorem token_cache_clear :
  forall (T : Type) (cache : gmap string (CacheEntry T)),
    TokenCache_clear None cache = ∅ /\
    TokenCache_clear (Some "") cache = ∅ /\
    (forall key, key <> "" ->
       TokenCache_clear (Some key) cache !! key = None /\
       (forall other, other <> key ->
          TokenCache_clear (Some key) cache !! other = cache !! other) /\
       (cache !! key = None -> TokenCache_clear (Some key) cache = cache)).
Proof.
  intros T cache. split; [done|]. split; [done|].
  intros key Hne. unfold TokenCache_clear.
  rewrite bool_decide_eq_false_2 by done.
  split; [apply lookup_delete_eq|]. split.
  - intros other Hother. by rewrite lookup_delete_ne.
  - apply delete_id.
Qed.

Lemma token_cache_clear_witness :
  let cache : gmap string (CacheEntry UserInfo) :=
    {["a" := {| token_data := sample_user; expires_at := 10 |}]} in
  TokenCache_clear (Some "") cache = ∅ /\
  TokenCache_clear (Some "b") cache = cache.
Proof.
  intros cache.
  destruct (token_cache_clear UserInfo cache) as (_ & Hempty & Hkey).
  split; [exact Hempty|].
  destruct (Hkey "b") as (_ & _ & Habsent); [discriminate|].
  apply Habsent. reflexivity.
Defined.

(** ** Validation failures *)



(** ** Replacing and splitting *)

Lemma string_app_nil (b : string) : "" +:+ b = b.
Proof. reflexivity. Qed.

Lemma string_app_cons (x : ascii) (a b : string) :
  String x a +:+ b = String x (a +:+ b).
Proof. reflexivity. Qed.

Lemma string_app_nil_r (a : string) : a +:+ "" = a.
Proof.
  induction a as [|x a IH]; [done|]. by rewrite string_app_cons, IH.
Qed.

Lemma string_app_assoc (a b c : string) : (a +:+ b) +:+ c = a +:+ (b +:+ c).
Proof.
  induction a as [|x a IH]; [done|]. by rewrite !string_app_cons, IH.
Qed.

Lemma rev_app_append (a b u : string) :
  String.rev_app a b +:+ u = String.rev_app a (b +:+ u).
Proof.
  revert b. induction a as [|x a IH]; intros b; [done|].
  cbn [String.rev_app]. by rewrite IH, string_app_cons.
Qed.

Lemma rev_cons_append (c : ascii) (acc u : string) :
  String.rev (String c acc) +:+ u = String.rev acc +:+ String c u.
Proof.
  unfold String.rev. cbn [String.rev_app].
  by rewrite !rev_app_append, string_app_cons, !string_app_nil.
Qed.

Lemma replace_go_skip (old new a rest : string) :
  replace_go old new (String.length a) (a +:+ rest) = replace_go old new 0 rest.
Proof.
  induction a as [|c a IH]; [done|].
  rewrite string_app_cons. cbn [String.length replace_go]. exact IH.
Qed.

(** An occurrence at the front is replaced and the scan goes on behind
    it. *)
Lemma str_replace_prefix (c : ascii) (old' new s : string) :
  str_replace (String c old') new (String c old' +:+ s) =
  new +:+ str_replace (String c old') new s.
Proof.
  unfold str_replace.
  pose proof (prefix_append (String c old') s) as Hp.
  rewrite string_app_cons in *.
  cbn [replace_go]. rewrite Hp.
  replace (String.length (String c old') - 1)%nat with (String.length old')
    by (cbn [String.length]; lia).
  by rewrite replace_go_skip.
Qed.

(** A string without an occurrence is left as it is. *)
Lemma str_replace_absent (old new s : string) :
  PyStr.contains old s = false -> str_replace old new s = s.
Proof.
  unfold str_replace. induction s as [|c s IH]; [done|].
  intros Hc. cbn [PyStr.contains] in Hc.
  apply orb_false_iff in Hc as [Hp Hr].
  cbn [replace_go]. rewrite Hp. by rewrite IH.
Qed.

Lemma split_once_app (sep : ascii) (u p : string) :
  PyStr.count sep u = 0%nat ->
  split_once sep (u +:+ String sep p) = Some (u, p).
Proof.
  induction u as [|c u IH].
  - intros _. rewrite string_app_nil. cbn [split_once]. by rewrite Ascii.eqb_refl.
  - rewrite string_app_cons. cbn [split_once PyStr.count].
    destruct (Ascii.eqb c sep); [done|]. intros Hc. by rewrite IH.
Qed.

Lemma split_once_inv (sep : ascii) (s u p : string) :
  split_once sep s = Some (u, p) ->
  s = u +:+ String sep p /\ PyStr.count sep u = 0%nat.
Proof.
  revert u. induction s as [|c s IH]; intros u; cbn [split_once]; [done|].
  destruct (Ascii.eqb_spec c sep) as [->|Hne].
  - by intros [= <- <-].
  - destruct (split_once sep s) as [[before after]|]; [|done].
    intros [= <- <-]. destruct (IH before eq_refl) as [-> Hc].
    split; [done|]. cbn [PyStr.count]. by destruct (Ascii.eqb_spec c sep).
Qed.

Lemma split_go_segment (sep : ascii) (u acc r : string) :
  PyStr.count sep u = 0%nat ->
  PyStr.split_go sep acc (u +:+ String sep r) =
  (String.rev acc +:+ u) :: PyStr.split_go sep EmptyString r.
Proof.
  revert acc. induction u as [|c u IH]; intros acc.
  - intros _. rewrite string_app_nil, string_app_nil_r. cbn [PyStr.split_go].
    by rewrite Ascii.eqb_refl.
  - rewrite string_app_cons. cbn [PyStr.split_go PyStr.count].
    destruct (Ascii.eqb c sep); [done|]. intros Hc.
    rewrite IH by done. by rewrite rev_cons_append.
Qed.

Lemma split_go_last (sep : ascii) (u acc : string) :
  PyStr.count sep u = 0%nat ->
  PyStr.split_go sep acc u = [String.rev acc +:+ u].
Proof.
  revert acc. induction u as [|c u IH]; intros acc.
  - intros _. by rewrite string_app_nil_r.
  - cbn [PyStr.split_go PyStr.count].
    destruct (Ascii.eqb c sep); [done|]. intros Hc.
    rewrite IH by done. by rewrite rev_cons_append.
Qed.

(** The first segment of a split is the text before the first
    separator. *)
Lemma split_segment (sep : ascii) (u r : string) :
  PyStr.count sep u = 0%nat ->
  PyStr.split sep (u +:+ String sep r) = u :: PyStr.split sep r.
Proof. intros Hc. unfold PyStr.split. by rewrite split_go_segment. Qed.

Lemma split_last (sep : ascii) (u : string) :
  PyStr.count sep u = 0%nat -> PyStr.split sep u = [u].
Proof. intros Hc. unfold PyStr.split. by rewrite split_go_last. Qed.

(** ** API keys *)

Lemma api_key_of_token (k : string) :
  PyStr.contains "Bearer " k = false ->
  PyStr.contains "ApiKey " k = false ->
  let strip := fun t => str_replace "ApiKey " "" (str_replace "Bearer " "" t) in
  strip k = k /\ strip ("Bearer " +:+ k) = k /\ strip ("ApiKey " +:+ k) = k /\
  strip ("Bearer " +:+ ("ApiKey " +:+ k)) = k.
Proof.
  intros Hb Ha strip. subst strip. cbv beta.
  assert (Hk : str_replace "ApiKey " "" (str_replace "Bearer " "" k) = k).
  { by rewrite (str_replace_absent "Bearer "), (str_replace_absent "ApiKey "). }
  assert (Hak : str_replace "ApiKey " "" (str_replace "Bearer " "" ("ApiKey " +:+ k)) = k).
  { rewrite (str_replace_absent "Bearer " "" ("ApiKey " +:+ k)) by (simpl; exact Hb).
    rewrite (str_replace_prefix "A" "piKey " "" k).
    by rewrite (str_replace_absent "ApiKey "). }
  split; [done|]. split; [|split; [done|]].
  - rewrite (str_replace_prefix "B" "earer " "" k).
    by rewrite (str_replace_absent "Bearer "), (str_replace_absent "ApiKey ").
  - rewrite (str_replace_prefix "B" "earer " "" ("ApiKey " +:+ k)).
    change (("" +:+ str_replace "Bearer " "" ("ApiKey " +:+ k)))
      with (str_replace "Bearer " "" ("ApiKey " +:+ k)).
    exact Hak.
Qed.

(** X14. An API key is looked up after the markers ["Bearer "] and
    ["ApiKey "] have been removed: for a key [k] that contains neither
    marker, the tokens [k], ["Bearer k"], ["ApiKey k"] and
    ["Bearer ApiKey k"] all validate alike. The static table decides first
    (missing attributes get the defaults ["api_user"], [["user"]],
    [["predict"]], and the principal expires 24 hours on); the Key Vault is
    asked only for a key the table lacks, under the name
    ["api-key-"] + the first 16 hex digits of the key's SHA-256; with
    neither, the answer is [None]. *)
Theorem api_key_validation :
  forall (valid_api_keys : gmap string ApiKeyInfo)
         (secret_client : option (string -> option UserInfo))
         (sha256_hexdigest : string -> string) (now : Z) (k : string),
    PyStr.contains "Bearer " k = false ->
    PyStr.contains "ApiKey " k = false ->
    let validate := _validate_api_key valid_api_keys secret_client sha256_hexdigest now in
    let expected :=
      match valid_api_keys !! k with
      | Some key_info => Some (api_key_user key_info now)
      | None =>
          match secret_client with
          | Some get_secret =>
              get_secret ("api-key-" +:+ PyStr.take 16 (sha256_hexdigest k))
          | None => None
          end
      end in
    validate k = expected /\
    validate ("Bearer " +:+ k) = expected /\
    validate ("ApiKey " +:+ k) = expected /\
    validate ("Bearer " +:+ ("ApiKey " +:+ k)) = expected.
Proof.
  intros table vault sha now k Hb Ha validate expected.
  destruct (api_key_of_token k Hb Ha) as (H1 & H2 & H3 & H4).
  subst validate expected. unfold _validate_api_key.
  cbv beta in H1, H2, H3, H4. rewrite H1, H2, H3, H4. done.
Qed.

Lemma api_key_validation_witness :
  _validate_api_key sample_keys None (fun s => s) 0 "Bearer k1" =
  Some {| user_id := "u1"; username := "api_user"; roles := ["user"];
          permissions := ["predict"]; user_expires_at := hours 24 |} /\
  _validate_api_key sample_keys None (fun s => s) 0 "Bearer k2" = None.
Proof.
  split.
  - apply (api_key_validation sample_keys None (fun s => s) 0 "k1"); reflexivity.
  - apply (api_key_validation sample_keys None (fun s => s) 0 "k2"); reflexivity.
Defined.

Lemma is_jwt_token_count (v : string) :
  _is_jwt_token v = (PyStr.count "." v =? 2)%nat.
Proof.
  unfold _is_jwt_token. rewrite split_length.
  destruct (Nat.eqb_spec (PyStr.count "." v) 2) as [->|Hne]; [done|].
  by destruct (Nat.eqb_spec (S (PyStr.count "." v)) 3); [lia|].
Qed.



(** ** Basic authentication *)

(** X16. [_validate_basic_auth] accepts a token exactly when the decoded
    credentials have the form [username:password] with no colon in
    [username] (the split is at the first colon, so the password may
    contain colons), the user is configured with a password, and that
    password equals the given one; the principal then carries the user's
    name as id, the configured roles and permissions or their defaults, and
    expires 8 hours on. Undecodable credentials, credentials without a
    colon, an unknown user, a user without a password and a wrong password
    all give [None]. *)
Theorem basic_auth_validation :
  forall (basic_auth_users : gmap string BasicAuthUser)
         (b64decode : string -> option string) (now : Z) (auth_token : string)
         (u : UserInfo),
    _validate_basic_auth basic_auth_users b64decode now auth_token = Some u <->
    exists username password user_config,
      b64decode (str_replace "Basic " "" auth_token)
        = Some (username +:+ String ":" password) /\
      PyStr.count ":" username = 0%nat /\
      basic_auth_users !! username = Some user_config /\
      bu_password user_config = Some password /\
      u = {| user_id := username;
             username := username;
             roles := default ["user"] (bu_roles user_config);
             permissions := default ["predict"] (bu_permissions user_config);
             user_expires_at := now + hours 8 |}.
Proof.
  intros users b64 now tok u. unfold _validate_basic_auth. split.
  - destruct (b64 (str_replace "Basic " "" tok)) as [decoded|]; [|done].
    destruct (split_once ":" decoded) as [[username password]|] eqn:Hsplit; [|done].
    apply split_once_inv in Hsplit as [-> Hcount].
    destruct (users !! username) as [cfg|] eqn:Hcfg; [|done].
    destruct (bu_password cfg) as [configured|] eqn:Hpw; [|done].
    case_bool_decide as Heq; [|done]. subst configured.
    intros [= <-]. by exists username, password, cfg.
  - intros (username & password & cfg & -> & Hcount & Hcfg & Hpw & ->).
    rewrite split_once_app by done. rewrite Hcfg, Hpw.
    by rewrite bool_decide_eq_true_2.
Qed.

Lemma basic_auth_validation_witness :
  let b64decode := fun s : string =>
    if bool_decide (s = "dGVzdF91c2VyOmE6Yg==") then Some "test_user:a:b" else None in
  _validate_basic_auth sample_users b64decode 0 "Basic dGVzdF91c2VyOmE6Yg==" =
  Some {| user_id := "test_user"; username := "test_user"; roles := ["user"];
          permissions := ["predict"]; user_expires_at := hours 8 |}.
Proof.
  intros b64decode.
  apply (basic_auth_validation sample_users b64decode 0).
  exists "test_user", "a:b",
    {| bu_password := Some "a:b"; bu_roles := None; bu_permissions := None |}.
  repeat split; reflexivity.
Defined.

(** ** Legacy tokens *)

Lemma parse_legacy_token_two_parts py_int fromtimestamp time_time
    (uid ts : string) (more : list string) (legacy_token : string) :
  PyStr.split ":" legacy_token = uid :: ts :: more ->
  parse_legacy_token py_int fromtimestamp time_time legacy_token =
  match py_int ts with
  | None => None
  | Some timestamp =>
      if negb (FloatRange.representable (inject_Z timestamp)) then None
      else if Qle_bool 86400 (time_time - inject_Z timestamp)%Q then None
      else match fromtimestamp (timestamp + 86400) with
           | None => None
           | Some expires_at =>
               Some {| user_id := uid; username := uid; roles := ["legacy_user"];
                       permissions := ["predict"];
                       user_expires_at := expires_at |}
           end
  end.
Proof. intros Hs. unfold parse_legacy_token. by rewrite Hs. Qed.

(** X17. A legacy token ["userid:timestamp"] or
    ["userid:timestamp:signature"] is accepted exactly when [int] reads the
    timestamp, the timestamp converts to a float, the token is younger
    than 86400 seconds, and [datetime.fromtimestamp(timestamp + 86400)]
    can build the expiry; the principal has the user id as id and name,
    the role ["legacy_user"], the permission ["predict"], and expires at
    that time. [fromtimestamp] raises for a time it cannot represent (one
    past the year 9999, as for a timestamp given in milliseconds), and the
    token is then refused like an expired one. The signature takes no
    part: any third segment, or none, gives the same answer. Only the age
    is bounded, so a timestamp in the future is accepted as long as its
    expiry can be built. A token without a colon is refused. The token is
    what is left of the credential once every ["Legacy "] is removed,
    decrypted first when [encrypt_legacy_tokens] is set. *)
Theorem legacy_token_validation :
  forall (py_int : string -> option Z) (fromtimestamp : Z -> option Z)
         (time_time : Q) (uid ts : string),
    PyStr.count ":" uid = 0%nat -> PyStr.count ":" ts = 0%nat ->
    let principal := fun expires_at =>
      {| user_id := uid; username := uid; roles := ["legacy_user"];
         permissions := ["predict"];
         user_expires_at := expires_at |} in
    let expected :=
      match py_int ts with
      | None => None
      | Some timestamp =>
          if negb (FloatRange.representable (inject_Z timestamp)) then None
          else if Qle_bool 86400 (time_time - inject_Z timestamp)%Q then None
          else match fromtimestamp (timestamp + 86400) with
               | None => None
               | Some expires_at => Some (principal expires_at)
               end
      end in
    parse_legacy_token py_int fromtimestamp time_time (uid +:+ String ":" ts)
      = expected /\
    (forall signature,
       parse_legacy_token py_int fromtimestamp time_time
         (uid +:+ String ":" (ts +:+ String ":" signature)) = expected) /\
    (forall timestamp, py_int ts = Some timestamp ->
       (forall expires_at,
          FloatRange.representable (inject_Z timestamp) = true ->
          (time_time < inject_Z timestamp + 86400)%Q ->
          fromtimestamp (timestamp + 86400) = Some expires_at ->
          expected = Some (principal expires_at)) /\
       ((inject_Z timestamp + 86400 <= time_time)%Q -> expected = None) /\
       (fromtimestamp (timestamp + 86400) = None -> expected = None) /\
       (FloatRange.representable (inject_Z timestamp) = false -> expected = None)) /\
    (py_int ts = None -> expected = None) /\
    parse_legacy_token py_int fromtimestamp time_time uid = None /\
    (forall (decrypt : string -> option string) (content : string),
       PyStr.contains "Legacy " content = false ->
       _validate_legacy_token false decrypt py_int fromtimestamp time_time
         ("Legacy " +:+ content)
         = parse_legacy_token py_int fromtimestamp time_time content /\
       _validate_legacy_token true decrypt py_int fromtimestamp time_time
         ("Legacy " +:+ content)
         = match decrypt content with
           | Some decrypted =>
               parse_legacy_token py_int fromtimestamp time_time decrypted
           | None => None
           end).
Proof.
  intros py_int fromtimestamp time_time uid ts Huid Hts principal expected.
  split; [|split; [|split; [|split; [|split]]]].
  - apply parse_legacy_token_two_parts with (more := []).
    by rewrite split_segment, split_last.
  - intros signature.
    apply parse_legacy_token_two_parts with (more := PyStr.split ":" signature).
    by rewrite !split_segment.
  - intros timestamp Hint. subst expected. rewrite Hint.
    split; [|split; [|split]].
    + intros expires_at Hrep Hlt Hfrom. rewrite Hrep, Hfrom. cbn [negb].
      destruct (Qle_bool 86400 (time_time - inject_Z timestamp)) eqn:Hage; [|done].
      apply Qle_bool_iff in Hage. lra.
    + intros Hle. destruct (negb _); [done|].
      destruct (Qle_bool 86400 (time_time - inject_Z timestamp)) eqn:Hage; [done|].
      assert (Hage' : (86400 <= time_time - inject_Z timestamp)%Q) by lra.
      apply Qle_bool_iff in Hage'. congruence.
    + intros Hfrom. rewrite Hfrom. destruct (negb _); [done|].
      by destruct (Qle_bool _ _).
    + intros Hrep. by rewrite Hrep.
  - intros Hint. subst expected. by rewrite Hint.
  - unfold parse_legacy_token. by rewrite split_last.
  - intros decrypt content Hc. unfold _validate_legacy_token.
    rewrite (str_replace_prefix "L" "egacy " "" content).
    rewrite (str_replace_absent "Legacy " "" content Hc).
    by rewrite string_app_nil.
Qed.

Lemma legacy_token_validation_witness :
  parse_legacy_token sample_int sample_fromtimestamp 5000 "u7:1000:forged" =
  Some {| user_id := "u7"; username := "u7"; roles := ["legacy_user"];
          permissions := ["predict"]; user_expires_at := 87400000000 |} /\
  parse_legacy_token sample_int sample_fromtimestamp 500 "u7:1000" =
  Some {| user_id := "u7"; username := "u7"; roles := ["legacy_user"];
          permissions := ["predict"]; user_expires_at := 87400000000 |} /\
  parse_legacy_token sample_int sample_fromtimestamp 1000000000
    "u7:1000000000000" = None.
Proof.
  split; [|split].
  - destruct (legacy_token_validation sample_int sample_fromtimestamp 5000 "u7" "1000")
      as (_ & Hsig & Hage & _); [reflexivity | reflexivity |].
    eapply eq_trans; [exact (Hsig "forged")|].
    apply (proj1 (Hage 1000 eq_refl)); reflexivity.
  - destruct (legacy_token_validation sample_int sample_fromtimestamp 500 "u7" "1000")
      as (Hplain & _ & Hage & _); [reflexivity | reflexivity |].
    eapply eq_trans; [exact Hplain|].
    apply (proj1 (Hage 1000 eq_refl)); reflexivity.
  - destruct (legacy_token_validation sample_int sample_fromtimestamp 1000000000
                "u7" "1000000000000")
      as (Hplain & _ & Hage & _); [reflexivity | reflexivity |].
    eapply eq_trans; [exact Hplain|].
    apply (proj1 (proj2 (proj2 (Hage 1000000000000 eq_refl)))). reflexivity.
Defined.

(** ** Endpoints and headers *)

Lemma endpoint_of_config_of_endpoint (info : AzureMLEndpointInfo) :
  endpoint_of_config (config_of_endpoint info) = Some info.
Proof. destruct info. vm_compute. reflexivity. Qed.

Lemma config_of_endpoint_size (info : AzureMLEndpointInfo) :
  size (config_of_endpoint info) = 5%nat.
Proof. destruct info. vm_compute. reflexivity. Qed.

Lemma endpoint_of_config_inv (endpoint_config : gmap string string)
    (info : AzureMLEndpointInfo) :
  endpoint_of_config endpoint_config = Some info ->
  endpoint_config = config_of_endpoint info.
Proof.
  unfold endpoint_of_config. intros H.
  destruct (endpoint_config !! "endpoint_url") as [u|] eqn:Hu; [|done].
  destruct (endpoint_config !! "api_key") as [k|] eqn:Hk; [|done].
  destruct (endpoint_config !! "model_name") as [n|] eqn:Hn; [|done].
  destruct (endpoint_config !! "model_version") as [v|] eqn:Hv; [|done].
  destruct (endpoint_config !! "deployment_name") as [d|] eqn:Hd; [|done].
  destruct (size endpoint_config =? 5)%nat eqn:Hsize; [|done].
  apply Nat.eqb_eq in Hsize. injection H as <-. symmetry.
  apply map_subseteq_size_eq.
  - apply map_subseteq_spec. intros i x. unfold config_of_endpoint.
    cbn [endpoint_url ep_api_key model_name ep_model_version deployment_name].
    rewrite !lookup_insert_Some, lookup_empty.
    intros [[<- <-]|[_ [[<- <-]|[_ [[<- <-]|[_ [[<- <-]|[_ [[<- <-]|[_ ?]]]]]]]]]];
      done.
  - rewrite Hsize, config_of_endpoint_size. done.
Qed.

(** X18. Once [get_azure_ml_endpoint] has answered for a model, the answer
    is kept for good: every later call for that model returns the same URL
    and leaves the cache alone, whatever Key Vault and the configuration
    hold by then. *)
Theorem endpoint_once_resolved_is_kept :
  forall secret_client model_endpoints default_model_id model_id
         _endpoint_cache url cache',
    get_azure_ml_endpoint secret_client model_endpoints default_model_id
      model_id _endpoint_cache = (Return url, cache') ->
    forall secret_client' model_endpoints',
      get_azure_ml_endpoint secret_client' model_endpoints' default_model_id
        model_id cache' = (Return url, cache').
Proof.
  intros sc me d mid cache url cache' H sc' me'.
  unfold get_azure_ml_endpoint in *.
  set (m := effective_model_id d mid) in *.
  destruct (cache !! m) as [info|] eqn:Hc.
  - injection H as <- <-. by rewrite Hc.
  - destruct (_get_endpoint_info sc me m) as [info|]; [|done].
    injection H as <- <-. by rewrite lookup_insert_eq.
Qed.

Lemma endpoint_once_resolved_is_kept_witness :
  get_azure_ml_endpoint None ∅ "default" None
    (<["default" := sample_endpoint]> ∅) =
  (Return "https://test-endpoint.azureml.net/score",
   <["default" := sample_endpoint]> ∅).
Proof.
  apply (endpoint_once_resolved_is_kept None
           (<["default" := config_of_endpoint sample_endpoint]> ∅)
           "default" (Some "") ∅).
  vm_compute. reflexivity.
Defined.

(** X19. How a model that is not cached is resolved. A missing and an empty
    model id both stand for [default_model_id]. An endpoint found in Key
    Vault wins over the configuration; without one, the configured entry is
    used and cached, provided it gives exactly the five fields of
    [AzureMLEndpointInfo]; in every other case, an entry lacking a field or
    carrying another one included, the call raises [ValueError] and the
    cache is unchanged. *)
Theorem endpoint_resolution_order :
  forall secret_client model_endpoints default_model_id model_id _endpoint_cache,
    let m := effective_model_id default_model_id model_id in
    let answer := get_azure_ml_endpoint secret_client model_endpoints
                    default_model_id model_id _endpoint_cache in
    let no_secret :=
      match secret_client with
      | Some get_secret => get_secret ("ml-endpoint-" +:+ m) = None
      | None => True
      end in
    _endpoint_cache !! m = None ->
    effective_model_id default_model_id None = default_model_id /\
    effective_model_id default_model_id (Some "") = default_model_id /\
    (forall get_secret info,
       secret_client = Some get_secret ->
       get_secret ("ml-endpoint-" +:+ m) = Some info ->
       answer = (Return (endpoint_url info), <[m := info]> _endpoint_cache)) /\
    (forall info,
       no_secret ->
       model_endpoints !! m = Some (config_of_endpoint info) ->
       answer = (Return (endpoint_url info), <[m := info]> _endpoint_cache)) /\
    (no_secret ->
     (forall info, model_endpoints !! m <> Some (config_of_endpoint info)) ->
     answer = (Raise (mkExc ValueError ("No endpoint configured for model: " +:+ m)),
               _endpoint_cache)).
Proof.
  intros sc me d mid cache m answer no_secret Hc.
  assert (Hcfg : no_secret ->
            _get_endpoint_info sc me m =
            match me !! m with
            | Some endpoint_config => endpoint_of_config endpoint_config
            | None => None
            end).
  { subst no_secret. unfold _get_endpoint_info.
    destruct sc as [get_secret|]; [|done]. by intros ->. }
  split; [done|]. split; [done|]. split; [|split].
  - intros get_secret info -> Hget. subst answer.
    unfold get_azure_ml_endpoint. fold m. rewrite Hc.
    unfold _get_endpoint_info. by rewrite Hget.
  - intros info Hno Hme. subst answer.
    unfold get_azure_ml_endpoint. fold m. rewrite Hc, (Hcfg Hno), Hme.
    by rewrite endpoint_of_config_of_endpoint.
  - intros Hno Hme. subst answer.
    unfold get_azure_ml_endpoint. fold m. rewrite Hc, (Hcfg Hno).
    destruct (me !! m) as [endpoint_config|] eqn:Hlook; [|done].
    destruct (endpoint_of_config endpoint_config) as [info|] eqn:Hinfo; [|done].
    apply endpoint_of_config_inv in Hinfo. subst endpoint_config.
    by destruct (Hme info).
Qed.

Lemma endpoint_resolution_order_witness :
  get_azure_ml_endpoint None (<["default" := partial_endpoint_config]> ∅)
    "default" None ∅ =
  (Raise (mkExc ValueError "No endpoint configured for model: default"), ∅).
Proof.
  destruct (endpoint_resolution_order None
              (<["default" := partial_endpoint_config]> ∅) "default" None ∅)
    as (_ & _ & _ & _ & Hraise); [reflexivity|].
  apply Hraise; [exact I|].
  intros info Hme.
  assert (Hsize : size partial_endpoint_config = size (config_of_endpoint info)).
  { f_equal. vm_compute in Hme. vm_compute. congruence. }
  rewrite config_of_endpoint_size in Hsize. vm_compute in Hsize. discriminate.
Defined.

Lemma secret_value_nonempty secret_client name v :
  secret_value secret_client name = Some v -> v <> "".
Proof.
  unfold secret_value. destruct secret_client as [get_secret|]; [|done].
  destruct (get_secret name) as [w|]; [|done].
  destruct (bool_decide (w = "")) eqn:Hw; [done|].
  intros [= <-]. by apply bool_decide_eq_false in Hw.
Qed.

(** X20. The key sent to Azure ML. [get_azure_ml_headers] answers exactly
    when one of the three sources holds a non-empty key, and the key it
    puts after ["Bearer "] is never empty: the user's own Key Vault secret
    when there is one, else the configured key, else the Key Vault default;
    with no source it raises [ValueError]. The headers are the three fixed
    ones, followed by [X-User-ID] and [X-Request-Time] exactly when
    [add_correlation_headers] is set. *)
Theorem azure_ml_headers_key_priority :
  forall secret_client azure_ml_api_key add_correlation_headers request_time
         user_info,
    let user_secret :=
      secret_value secret_client ("azure-ml-key-" +:+ user_id user_info) in
    let default_secret := secret_value secret_client "azure-ml-api-key" in
    let headers := get_azure_ml_headers secret_client azure_ml_api_key
                     add_correlation_headers request_time user_info in
    (forall hs, headers = Return hs ->
       exists key, key <> "" /\
         (user_secret = Some key \/
          (user_secret = None /\ azure_ml_api_key = key) \/
          (user_secret = None /\ azure_ml_api_key = "" /\
           default_secret = Some key)) /\
         hs = [("Authorization", "Bearer " +:+ key);
               ("Content-Type", "application/json");
               ("User-Agent", "Legacy-Integration-Gateway/1.0")] ++
              (if add_correlation_headers
               then [("X-User-ID", user_id user_info);
                     ("X-Request-Time", request_time)]
               else [])) /\
    (forall e, headers = Raise e ->
       e = mkExc ValueError "No Azure ML API key available" /\
       user_secret = None /\ azure_ml_api_key = "" /\ default_secret = None) /\
    (secret_client = None ->
     headers = Raise (mkExc ValueError "No Azure ML API key available") <->
     azure_ml_api_key = "").
Proof.
  intros sc key flag t u user_secret default_secret headers.
  subst headers. unfold get_azure_ml_headers, _get_azure_ml_api_key.
  fold user_secret. fold default_secret.
  split; [|split].
  - intros hs H.
    destruct user_secret as [v|] eqn:Hus.
    + injection H as <-. exists v. split; [|split; [by left|done]].
      by apply secret_value_nonempty in Hus.
    + destruct (bool_decide (key = "")) eqn:Hk; cbn [negb] in H.
      * apply bool_decide_eq_true in Hk.
        destruct default_secret as [v|] eqn:Hds; [|done].
        injection H as <-. exists v. split; [|split; [|done]].
        -- by apply secret_value_nonempty in Hds.
        -- right. right. done.
      * apply bool_decide_eq_false in Hk. injection H as <-.
        exists key. split; [done|]. split; [|done]. right. left. done.
  - intros e H.
    destruct user_secret as [v|]; [done|].
    destruct (bool_decide (key = "")) eqn:Hk; cbn [negb] in H; [|done].
    apply bool_decide_eq_true in Hk.
    destruct default_secret as [v|]; [done|].
    injection H as <-. done.
  - intros ->. subst user_secret default_secret. cbn [secret_value].
    destruct (bool_decide (key = "")) eqn:Hk; cbn [negb].
    + apply bool_decide_eq_true in Hk. done.
    + apply bool_decide_eq_false in Hk. split; [done|]. intros ->. done.
Qed.

(** ** Authentication of a request *)

(** X21. [authenticate_request] lets a request in exactly when the bridge
    answered with a principal, and returns that principal. Every other
    outcome, a refusal as well as an exception inside the bridge, leaves as
    the same [HTTPException] 401 with detail ["Authentication failed"]: the
    detail ["Invalid authentication credentials"] raised inside the [try]
    block never reaches the caller. *)
Theorem authenticate_request_outcomes :
  forall validated : Result (option UserInfo),
    (forall user_info,
       authenticate_request validated = Return user_info <->
       validated = Return (Some user_info)) /\
    (forall e,
       authenticate_request validated = Raise e ->
       e = mkExc (HTTPException 401 (Some "Authentication failed")) "" /\
       e <> mkExc (HTTPException 401 (Some "Invalid authentication credentials")) "") /\
    (authenticate_request_body (Return None) =
       Raise (mkExc (HTTPException 401 (Some "Invalid authentication credentials")) "") /\
     authenticate_request (Return None) =
       Raise (mkExc (HTTPException 401 (Some "Authentication failed")) "")).
Proof.
  intros validated. split; [|split].
  - intros user_info. unfold authenticate_request, authenticate_request_body.
    destruct validated as [[u|]|e]; split; intros H; try discriminate;
      by simplify_eq.
  - intros e. unfold authenticate_request, authenticate_request_body.
    destruct validated as [[u|]|e']; intros H; try discriminate;
      simplify_eq; split; done.
  - done.
Qed.

(** ** The metrics collector *)

Lemma record_all_snoc rs r m :
  record_all (rs ++ [r]) m = record_one (record_all rs m) r.
Proof. unfold record_all. by rewrite foldl_app. Qed.

Lemma keep_last_all {A : Type} (n : nat) (l : list A) :
  (length l <= n)%nat -> keep_last n l = l.
Proof.
  intros H. unfold keep_last.
  replace (length l - n)%nat with 0%nat by lia. done.
Qed.

Lemma keep_last_snoc {A : Type} (n : nat) (l : list A) (x : A) :
  keep_last n (keep_last n l ++ [x]) = keep_last n (l ++ [x]).
Proof.
  destruct (decide (length l <= n)%nat) as [Hle|Hgt].
  { by rewrite (keep_last_all n l Hle). }
  destruct n as [|n].
  { unfold keep_last. rewrite !Nat.sub_0_r. by rewrite !drop_all. }
  unfold keep_last. rewrite !length_app, !length_drop. cbn [length].
  replace (length l - (length l - S n) + 1 - S n)%nat with 1%nat by lia.
  rewrite (drop_app_le l [x] (length l + 1 - S n)) by lia.
  rewrite (drop_app_le (drop (length l - S n) l) [x] 1)
    by (rewrite length_drop; lia).
  rewrite drop_drop. do 2 f_equal. lia.
Qed.

(** X22. After any sequence of [record_request] calls on fresh metrics the
    counters agree: [total_requests] is the number of calls and equals
    [successful_requests + failed_requests]; [failed_requests] is the sum
    of [errors_by_status], which has no entry for a status from 200 to 399;
    the categories account for at most the failed requests;
    [predictions_made + batch_requests] is at most the total; the error
    rate lies between 0 and 100; and [response_times] holds the processing
    times of the last 10000 calls, oldest first. *)
Theorem record_request_counters_agree :
  forall (start : Z) (rs : list RequestRecord),
    let m := record_all rs (Monitoring.ServiceMetrics_init start) in
    Monitoring.total_requests m = Z.of_nat (length rs) /\
    Monitoring.total_requests m =
      Monitoring.successful_requests m + Monitoring.failed_requests m /\
    0 <= Monitoring.successful_requests m /\
    Monitoring.failed_requests m = sum_values (Monitoring.errors_by_status m) /\
    (forall code, 200 <= code < 400 ->
       Monitoring.errors_by_status m !! code = None) /\
    sum_values (Monitoring.errors_by_category m) <= Monitoring.failed_requests m /\
    (0 <= Monitoring.predictions_made m /\ 0 <= Monitoring.batch_requests m /\
     Monitoring.predictions_made m + Monitoring.batch_requests m
       <= Monitoring.total_requests m) /\
    (0 <= Monitoring.error_rate m <= 100)%Q /\
    Monitoring.response_times m =
      keep_last (Z.to_nat 10000) (map rr_processing_time rs).
Proof.
  intros start rs m.
  assert (Hinv :
    Monitoring.total_requests m = Z.of_nat (length rs) /\
    Monitoring.total_requests m =
      Monitoring.successful_requests m + Monitoring.failed_requests m /\
    0 <= Monitoring.successful_requests m /\
    Monitoring.failed_requests m = sum_values (Monitoring.errors_by_status m) /\
    (forall code, 200 <= code < 400 ->
       Monitoring.errors_by_status m !! code = None) /\
    sum_values (Monitoring.errors_by_category m) <= Monitoring.failed_requests m /\
    (0 <= Monitoring.predictions_made m /\ 0 <= Monitoring.batch_requests m /\
     Monitoring.predictions_made m + Monitoring.batch_requests m
       <= Monitoring.total_requests m) /\
    Monitoring.response_times m =
      keep_last (Z.to_nat 10000) (map rr_processing_time rs)).
  { subst m. induction rs as [|r rs IH] using rev_ind.
    - pose proof (sum_values_empty (K:=Z)) as HZ.
      pose proof (sum_values_empty (K:=string)) as Hstr.
      cbn. rewrite HZ, Hstr. repeat split; try done.
    - rewrite record_all_snoc.
      set (m := record_all rs (Monitoring.ServiceMetrics_init start)) in *.
      destruct IH as (Hn & Htot & Hs & Hf & Hcodes & Hcat & (Hp & Hb & Hpb) & Hrt).
      unfold record_one, Monitoring.record_request.
      cbn [Monitoring.total_requests Monitoring.successful_requests
           Monitoring.failed_requests Monitoring.errors_by_status
           Monitoring.errors_by_category Monitoring.predictions_made
           Monitoring.batch_requests Monitoring.response_times].
      rewrite length_app, map_app. cbn [length map].
      assert (Hrt' : Monitoring.deque_append (Z.to_nat 10000) (rr_processing_time r)
                       (Monitoring.response_times m) =
                     keep_last (Z.to_nat 10000)
                       (map rr_processing_time rs ++ [rr_processing_time r])).
      { unfold Monitoring.deque_append. rewrite Hrt. apply keep_last_snoc. }
      assert (Hpb' :
        0 <= (if bool_decide (rr_endpoint r = "/predict")
              then Monitoring.predictions_made m + 1
              else Monitoring.predictions_made m) /\
        0 <= (if bool_decide (rr_endpoint r = "/predict")
              then Monitoring.batch_requests m
              else if bool_decide (rr_endpoint r = "/batch-predict")
                   then Monitoring.batch_requests m + 1
                   else Monitoring.batch_requests m) /\
        (if bool_decide (rr_endpoint r = "/predict")
         then Monitoring.predictions_made m + 1
         else Monitoring.predictions_made m) +
        (if bool_decide (rr_endpoint r = "/predict")
         then Monitoring.batch_requests m
         else if bool_decide (rr_endpoint r = "/batch-predict")
              then Monitoring.batch_requests m + 1
              else Monitoring.batch_requests m)
        <= Monitoring.total_requests m + 1).
      { destruct (bool_decide (rr_endpoint r = "/predict"));
          [|destruct (bool_decide (rr_endpoint r = "/batch-predict"))]; lia. }
      destruct ((200 <=? rr_status_code r) && (rr_status_code r <? 400)) eqn:Hok.
      + repeat split; try done; try lia.
      + assert (Hcode : ~ (200 <= rr_status_code r < 400)).
        { intros [H1 H2]. apply Z.leb_le in H1. apply Z.ltb_lt in H2.
          rewrite H1, H2 in Hok. discriminate. }
        split; [lia|]. split; [lia|]. split; [lia|].
        split; [rewrite sum_values_bump; lia|].
        split.
        { intros code Hrange. unfold bump.
          rewrite lookup_insert_ne; [by apply Hcodes|].
          intros Heq. apply Hcode. by rewrite Heq. }
        split.
        { destruct (rr_error_category r) as [c|]; [|lia].
          destruct (Monitoring.truthy (Some c)); [|lia].
          rewrite sum_values_bump. lia. }
        split; [exact Hpb'|exact Hrt']. }
  destruct Hinv as (Hn & Htot & Hs & Hf & Hcodes & Hcat & Hpb & Hrt).
  assert (Hfail : 0 <= Monitoring.failed_requests m <= Monitoring.total_requests m).
  { split; [|lia].
    assert (0 <= sum_values (Monitoring.errors_by_category m)); [|lia].
    clear. subst m. induction rs as [|r rs IH] using rev_ind.
    - pose proof (sum_values_empty (K:=string)) as Hstr.
      cbn. by rewrite Hstr.
    - rewrite record_all_snoc.
      set (m := record_all rs (Monitoring.ServiceMetrics_init start)) in *.
      unfold record_one, Monitoring.record_request.
      cbn [Monitoring.errors_by_category].
      destruct ((200 <=? rr_status_code r) && (rr_status_code r <? 400)); [done|].
      destruct (rr_error_category r) as [c|]; [|done].
      destruct (Monitoring.truthy (Some c)); [|done].
      rewrite sum_values_bump. lia. }
  repeat split; try done; try lia.
  - unfold Monitoring.error_rate.
    destruct (0 <? Monitoring.total_requests m) eqn:Hpos; [|done].
    apply Z.ltb_lt in Hpos.
    apply Qmult_le_0_compat; [|done].
    apply Qle_shift_div_l.
    + change 0%Q with (inject_Z 0). rewrite <- Zlt_Qlt. done.
    + rewrite Qmult_0_l. change 0%Q with (inject_Z 0). rewrite <- Zle_Qle. lia.
  - unfold Monitoring.error_rate.
    destruct (0 <? Monitoring.total_requests m) eqn:Hpos; [|done].
    apply Z.ltb_lt in Hpos.
    assert (Hq : (inject_Z (Monitoring.failed_requests m)
                  / inject_Z (Monitoring.total_requests m) <= 1)%Q).
    { apply Qle_shift_div_r.
      - change 0%Q with (inject_Z 0). rewrite <- Zlt_Qlt. done.
      - rewrite Qmult_1_l. rewrite <- Zle_Qle. lia. }
    lra.
Qed.

(** ** Processing times *)

Lemma py_min_spec (a b : Q) :
  (Monitoring.py_min a b = a /\ (a <= b)%Q) \/
  (Monitoring.py_min a b = b /\ (b < a)%Q).
Proof.
  unfold Monitoring.py_min. destruct (Qle_bool a b) eqn:H.
  - left. split; [done|]. by apply Qle_bool_iff.
  - right. split; [done|]. apply Qnot_le_lt. intros Hle.
    apply Qle_bool_iff in Hle. congruence.
Qed.

Lemma py_max_spec (a b : Q) :
  (Monitoring.py_max a b = a /\ (b <= a)%Q) \/
  (Monitoring.py_max a b = b /\ (a < b)%Q).
Proof.
  unfold Monitoring.py_max. destruct (Qle_bool b a) eqn:H.
  - left. split; [done|]. by apply Qle_bool_iff.
  - right. split; [done|]. apply Qnot_le_lt. intros Hle.
    apply Qle_bool_iff in Hle. congruence.
Qed.

Lemma record_all_times (start : Z) (rs : list RequestRecord) :
  let m := record_all rs (Monitoring.ServiceMetrics_init start) in
  (0 <= Monitoring.max_processing_time m)%Q /\
  (Monitoring.max_processing_time m = 0%Q \/
   exists r, r ∈ rs /\ Monitoring.max_processing_time m = rr_processing_time r) /\
  (forall r, r ∈ rs ->
     (rr_processing_time r <= Monitoring.max_processing_time m)%Q) /\
  match Monitoring.min_processing_time m with
  | None => rs = []
  | Some mn =>
      rs <> [] /\
      (exists r, r ∈ rs /\ mn = rr_processing_time r) /\
      (forall r, r ∈ rs -> (mn <= rr_processing_time r)%Q)
  end.
Proof.
  induction rs as [|r rs IH] using rev_ind.
  - cbn. repeat split; try done.
    + by left.
    + intros r Hr. by apply elem_of_nil in Hr.
  - cbn zeta in *. rewrite record_all_snoc.
    set (m := record_all rs (Monitoring.ServiceMetrics_init start)) in *.
    destruct IH as (Hmx0 & Hmxin & Hmx & Hmin).
    unfold record_one, Monitoring.record_request.
    cbn [Monitoring.max_processing_time Monitoring.min_processing_time].
    set (t := rr_processing_time r) in *.
    set (mx := Monitoring.max_processing_time m) in *.
    assert (Hlast : r ∈ rs ++ [r]).
    { apply elem_of_app. right. by apply list_elem_of_singleton. }
    assert (Hmax' : (0 <= Monitoring.py_max mx t)%Q /\
              (Monitoring.py_max mx t = 0%Q \/
               exists r', r' ∈ rs ++ [r] /\
                 Monitoring.py_max mx t = rr_processing_time r') /\
              (forall r', r' ∈ rs ++ [r] ->
                 (rr_processing_time r' <= Monitoring.py_max mx t)%Q)).
    { destruct (py_max_spec mx t) as [[-> Hle]|[-> Hlt]].
      - split; [done|]. split.
        + destruct Hmxin as [?|(r' & Hr' & ?)]; [by left|right].
          exists r'. split; [|done]. apply elem_of_app. by left.
        + intros r' Hr'. apply elem_of_app in Hr' as [Hr'|Hr'].
          * by apply Hmx.
          * apply list_elem_of_singleton in Hr'. by subst r'.
      - split; [lra|]. split.
        + right. by exists r.
        + intros r' Hr'. apply elem_of_app in Hr' as [Hr'|Hr'].
          * apply Hmx in Hr'. lra.
          * apply list_elem_of_singleton in Hr'. subst r'. fold t. lra. }
    destruct Hmax' as (H1 & H2 & H3).
    split; [done|]. split; [done|]. split; [done|].
    split; [by destruct rs|].
    destruct (Monitoring.min_processing_time m) as [mn|].
    + destruct Hmin as (Hne & (r0 & Hr0 & Hr0eq) & Hlow).
      destruct (py_min_spec mn t) as [[-> Hmt]|[-> Hmt]].
      * split; [exists r0; split; [apply elem_of_app; by left|done]|].
        intros r' Hr'. apply elem_of_app in Hr' as [Hr'|Hr'].
        -- by apply Hlow.
        -- apply list_elem_of_singleton in Hr'. by subst r'.
      * split; [by exists r|].
        intros r' Hr'. apply elem_of_app in Hr' as [Hr'|Hr'].
        -- apply Hlow in Hr'. fold t. lra.
        -- apply list_elem_of_singleton in Hr'. subst r'. fold t. lra.
    + subst rs. split; [by exists r|].
      intros r' Hr'. apply list_elem_of_singleton in Hr'. subst r'. fold t. lra.
Qed.

(** X23. Once a request has been recorded, [min_processing_time] is the
    processing time of one of the recorded calls and no call was faster;
    [max_processing_time] is at least every recorded time, and is one of
    them or the initial 0.0, below which it never falls; so the minimum
    never exceeds the maximum. On fresh metrics the minimum is still
    infinite. Only comparisons are involved, no float arithmetic. *)
Theorem processing_time_extremes :
  forall (start : Z) (rs : list RequestRecord),
    rs <> [] ->
    let m := record_all rs (Monitoring.ServiceMetrics_init start) in
    Monitoring.min_processing_time (Monitoring.ServiceMetrics_init start) = None /\
    exists mn,
      Monitoring.min_processing_time m = Some mn /\
      (exists r, r ∈ rs /\ mn = rr_processing_time r) /\
      (forall r, r ∈ rs ->
         (mn <= rr_processing_time r <= Monitoring.max_processing_time m)%Q) /\
      (Monitoring.max_processing_time m = 0%Q \/
       exists r, r ∈ rs /\ Monitoring.max_processing_time m = rr_processing_time r) /\
      (0 <= Monitoring.max_processing_time m)%Q /\
      (mn <= Monitoring.max_processing_time m)%Q.
Proof.
  intros start rs Hne m. split; [done|].
  destruct (record_all_times start rs) as (Hmx0 & Hmxin & Hmx & Hmin).
  fold m in Hmx0, Hmxin, Hmx, Hmin.
  destruct (Monitoring.min_processing_time m) as [mn|]; [|done].
  destruct Hmin as (_ & Hin & Hlow).
  exists mn. split; [done|]. split; [done|].
  split; [intros r Hr; split; [by apply Hlow|by apply Hmx]|].
  split; [done|]. split; [done|].
  destruct Hin as (r & Hr & ->). by apply Hmx.
Qed.

Lemma processing_time_extremes_witness :
  exists mn,
    Monitoring.min_processing_time
      (record_all [mkRequestRecord 0 "POST" "/predict" 200 (1#2) None;
                   mkRequestRecord 1 "POST" "/predict" 500 (1#4) None]
         (Monitoring.ServiceMetrics_init 0)) = Some mn /\
    (mn <= 1 # 4)%Q.
Proof.
  destruct (processing_time_extremes 0
              [mkRequestRecord 0 "POST" "/predict" 200 (1#2) None;
               mkRequestRecord 1 "POST" "/predict" 500 (1#4) None])
    as (_ & mn & Hmn & _ & Hall & _); [discriminate|].
  exists mn. split; [exact Hmn|].
  apply (Hall (mkRequestRecord 1 "POST" "/predict" 500 (1#4) None)).
  apply elem_of_cons. right. apply elem_of_cons. by left.
Defined.

(** ** Predictions and batch sizes *)

Lemma collect_all_snoc cs c m :
  collect_all (cs ++ [c]) m = collect_one (collect_all cs m) c.
Proof. unfold collect_all. by rewrite foldl_app. Qed.

Lemma requests_of_app cs cs' :
  requests_of (cs ++ cs') = requests_of cs ++ requests_of cs'.
Proof.
  induction cs as [|[r|size] cs IH]; cbn; [done|by rewrite IH|done].
Qed.

Lemma batch_sizes_app cs cs' :
  batch_sizes (cs ++ cs') = batch_sizes cs ++ batch_sizes cs'.
Proof.
  induction cs as [|[r|size] cs IH]; cbn; [done|done|by rewrite IH].
Qed.

Lemma sum_list_app l l' : sum_list (l ++ l') = sum_list l + sum_list l'.
Proof. unfold sum_list. induction l as [|x l IH]; cbn; [done|]. rewrite IH. lia. Qed.

Lemma count_endpoint_snoc endpoint rs r :
  count_endpoint endpoint (rs ++ [r]) =
  count_endpoint endpoint rs + (if bool_decide (rr_endpoint r = endpoint) then 1 else 0).
Proof.
  unfold count_endpoint. rewrite filter_app, length_app, filter_cons, filter_nil.
  destruct (decide (rr_endpoint r = endpoint)) as [He|He].
  - rewrite (bool_decide_eq_true_2 _ He). cbn. lia.
  - rewrite (bool_decide_eq_false_2 _ He). cbn. lia.
Qed.

(** X24. Whatever the order of the [record_request] and
    [record_batch_prediction] calls on fresh metrics: [predictions_made]
    is the number of requests recorded for [/predict] plus the sum of the
    batch sizes recorded; [batch_requests] is the number of requests
    recorded for [/batch-predict]; [record_batch_prediction] touches no
    request counter, so the counters and [response_times] are those of the
    [record_request] calls alone; and as long as no request for
    [/batch-predict] has been recorded, recording batch sizes leaves
    [avg_batch_size] at 0.0. *)
Theorem predictions_made_accounting :
  forall (start : Z) (cs : list CollectorCall),
    let m := collect_all cs (Monitoring.ServiceMetrics_init start) in
    let requests := record_all (requests_of cs) (Monitoring.ServiceMetrics_init start) in
    Monitoring.predictions_made m =
      count_endpoint "/predict" (requests_of cs) + sum_list (batch_sizes cs) /\
    Monitoring.batch_requests m = count_endpoint "/batch-predict" (requests_of cs) /\
    (Monitoring.total_requests m = Monitoring.total_requests requests /\
     Monitoring.successful_requests m = Monitoring.successful_requests requests /\
     Monitoring.failed_requests m = Monitoring.failed_requests requests /\
     Monitoring.errors_by_status m = Monitoring.errors_by_status requests /\
     Monitoring.errors_by_category m = Monitoring.errors_by_category requests /\
     Monitoring.response_times m = Monitoring.response_times requests) /\
    (count_endpoint "/batch-predict" (requests_of cs) = 0 ->
     Monitoring.avg_batch_size m = 0%Q).
Proof.
  intros start cs.
  induction cs as [|c cs IH] using rev_ind.
  - cbn. repeat split; done.
  - cbn zeta in *. rewrite collect_all_snoc, requests_of_app, batch_sizes_app,
      sum_list_app.
    set (m := collect_all cs (Monitoring.ServiceMetrics_init start)) in *.
    destruct IH as (Hp & Hb & (Ht & Hs & Hf & Hes & Hec & Hrt) & Havg).
    destruct c as [r|size].
    + cbn [requests_of batch_sizes collect_one]. rewrite record_all_snoc.
      rewrite !count_endpoint_snoc.
      set (requests := record_all (requests_of cs)
                         (Monitoring.ServiceMetrics_init start)) in *.
      unfold record_one, Monitoring.record_request.
      cbn [Monitoring.predictions_made Monitoring.batch_requests
           Monitoring.total_requests Monitoring.successful_requests
           Monitoring.failed_requests Monitoring.errors_by_status
           Monitoring.errors_by_category Monitoring.response_times
           Monitoring.avg_batch_size].
      rewrite Ht, Hs, Hf, Hes, Hec, Hrt, Hp, Hb.
      change (sum_list []) with 0.
      split; [destruct (bool_decide (rr_endpoint r = "/predict")); lia|].
      split.
      { destruct (bool_decide (rr_endpoint r = "/predict")) eqn:Hpred.
        - apply bool_decide_eq_true in Hpred.
          rewrite bool_decide_eq_false_2; [lia|]. rewrite Hpred. discriminate.
        - destruct (bool_decide (rr_endpoint r = "/batch-predict")); lia. }
      split; [done|].
      intros Hnone. apply Havg.
      destruct (bool_decide (rr_endpoint r = "/batch-predict"));
        unfold count_endpoint in *; lia.
    + cbn [requests_of batch_sizes collect_one]. rewrite app_nil_r.
      unfold Monitoring.record_batch_prediction.
      cbn [Monitoring.predictions_made Monitoring.batch_requests
           Monitoring.total_requests Monitoring.successful_requests
           Monitoring.failed_requests Monitoring.errors_by_status
           Monitoring.errors_by_category Monitoring.response_times
           Monitoring.avg_batch_size].
      split; [rewrite Hp; unfold sum_list; cbn; lia|].
      split; [done|]. split; [done|].
      intros Hnone. rewrite Hb, Hnone. cbn. by apply Havg.
Qed.

(** ** Percentiles *)

Lemma py_int_of_float_floor (k : Q) :
  (0 <= k)%Q ->
  0 <= Monitoring.py_int_of_float k /\
  (inject_Z (Monitoring.py_int_of_float k) <= k)%Q /\
  (k < inject_Z (Monitoring.py_int_of_float k) + 1)%Q.
Proof.
  intros Hk.
  assert (Hnum : 0 <= Qnum k).
  { unfold Qle in Hk. cbn in Hk. lia. }
  assert (Hfloor : Monitoring.py_int_of_float k = Qfloor k).
  { unfold Monitoring.py_int_of_float, Qfloor. destruct k as [n d].
    cbn [Qnum Qden] in *. apply Z.quot_div_nonneg; lia. }
  rewrite Hfloor. split; [|split].
  - destruct k as [n d]. cbn [Qfloor Qnum] in *. apply Z.div_pos; lia.
  - apply Qfloor_le.
  - pose proof (Qlt_floor k) as H. rewrite inject_Z_plus in H. exact H.
Qed.

Lemma py_getitem_nonneg {A : Type} (l : list A) (i : Z) :
  0 <= i -> Monitoring.py_getitem l i = l !! Z.to_nat i.
Proof.
  intros Hi. unfold Monitoring.py_getitem.
  destruct (i <? 0) eqn:Hneg; [|done]. apply Z.ltb_lt in Hneg. lia.
Qed.

Lemma Qdiv_100_le (x y : Q) : (x <= y)%Q -> (x / 100 <= y / 100)%Q.
Proof.
  intros H. unfold Qdiv. apply Qmult_le_compat_r; [assumption|]. discriminate.
Qed.

Lemma Qdiv_100_full (x : Q) : (x * inject_Z 100 / 100 == x)%Q.
Proof. change (inject_Z 100) with 100%Q. field. Qed.

Lemma Qdiv_100_zero (x : Q) : (x * inject_Z 0 / 100 == 0)%Q.
Proof. change (inject_Z 0) with 0%Q. field. Qed.

(** The position [k] of a percentile in a list of [n] values. *)
Lemma percentile_position (n percentile : Z) :
  1 <= n -> 0 <= percentile <= 100 ->
  let k := (inject_Z (n - 1) * inject_Z percentile / 100)%Q in
  (0 <= k)%Q /\ (k <= inject_Z (n - 1))%Q.
Proof.
  intros Hn Hp k. subst k.
  assert (HX : (0 <= inject_Z (n - 1))%Q).
  { change 0%Q with (inject_Z 0). rewrite <- Zle_Qle. lia. }
  assert (HY0 : (0 <= inject_Z percentile)%Q).
  { change 0%Q with (inject_Z 0). rewrite <- Zle_Qle. lia. }
  assert (HY1 : (inject_Z percentile <= 100)%Q).
  { change 100%Q with (inject_Z 100). rewrite <- Zle_Qle. lia. }
  set (X := inject_Z (n - 1)) in *. set (Y := inject_Z percentile) in *.
  split.
  - apply Qle_shift_div_l; [reflexivity|]. nra.
  - apply Qle_shift_div_r; [reflexivity|]. nra.
Qed.

Lemma calculate_percentile_shape (l : list Q) (percentile : Z) :
  l <> [] -> 0 <= percentile <= 100 ->
  let k := (inject_Z (Z.of_nat (length l) - 1) * inject_Z percentile / 100)%Q in
  exists (f : nat) (a b : Q),
    (inject_Z (Z.of_nat f) <= k)%Q /\ (k < inject_Z (Z.of_nat f) + 1)%Q /\
    (f <= length l - 1)%nat /\
    l !! f = Some a /\
    l !! Nat.min (S f) (length l - 1) = Some b /\
    Monitoring._calculate_percentile l percentile =
      Some (if decide (f = (length l - 1)%nat) then a
            else (a + (k - inject_Z (Z.of_nat f)) * (b - a))%Q).
Proof.
  intros Hl Hp k.
  assert (Hn : 1 <= Z.of_nat (length l)) by (destruct l; [done|cbn; lia]).
  destruct (percentile_position (Z.of_nat (length l)) percentile Hn Hp)
    as [Hk0 Hk1]. fold k in Hk0, Hk1.
  destruct (py_int_of_float_floor k Hk0) as (Hf0 & Hfk & Hkf).
  set (fz := Monitoring.py_int_of_float k) in *.
  assert (Hfn : fz <= Z.of_nat (length l) - 1).
  { assert (H : (inject_Z fz < inject_Z (Z.of_nat (length l) - 1 + 1))%Q).
    { rewrite inject_Z_plus. change (inject_Z 1) with 1%Q. lra. }
    rewrite <- Zlt_Qlt in H. lia. }
  assert (Hfz : Z.of_nat (Z.to_nat fz) = fz) by lia.
  destruct (lookup_lt_is_Some_2 l (Z.to_nat fz)) as [a Ha]; [lia|].
  destruct (lookup_lt_is_Some_2 l (Nat.min (S (Z.to_nat fz)) (length l - 1)))
    as [b Hb]; [lia|].
  exists (Z.to_nat fz), a, b. rewrite Hfz.
  split; [done|]. split; [done|]. split; [lia|]. split; [done|]. split; [done|].
  unfold Monitoring._calculate_percentile. destruct l as [|x l']; [done|].
  set (l := x :: l') in *. fold k. fold fz.
  destruct (fz =? Z.of_nat (length l) - 1) eqn:Hlast.
  - apply Z.eqb_eq in Hlast. rewrite py_getitem_nonneg by done. rewrite Ha.
    destruct (decide (Z.to_nat fz = (length l - 1)%nat)) as [_|Hne]; [done|lia].
  - apply Z.eqb_neq in Hlast.
    rewrite !py_getitem_nonneg by lia. rewrite Ha.
    replace (Z.to_nat (fz + 1)) with (Nat.min (S (Z.to_nat fz)) (length l - 1))
      by lia.
    rewrite Hb.
    destruct (decide (Z.to_nat fz = (length l - 1)%nat)) as [He|_]; [lia|done].
Qed.

(** X25. On a non-empty list in non-decreasing order and for percentiles
    from 0 to 100, [_calculate_percentile] never fails, answers a value
    between the first and the last element, and is monotone in the
    percentile, so that [p50 <= p95 <= p99]; percentile 100 is the last
    element and percentile 0 equals the first. On the empty list the answer
    is 0.0 (floats read as exact rationals). *)
Theorem calculate_percentile_monotone :
  forall (sorted_values : list Q) (p q : Z),
    nondecreasing sorted_values ->
    sorted_values <> [] ->
    0 <= p -> p <= q -> q <= 100 ->
    exists v w lo hi,
      Monitoring._calculate_percentile sorted_values p = Some v /\
      Monitoring._calculate_percentile sorted_values q = Some w /\
      head sorted_values = Some lo /\
      last sorted_values = Some hi /\
      (lo <= v)%Q /\ (v <= w)%Q /\ (w <= hi)%Q /\
      Monitoring._calculate_percentile sorted_values 100 = Some hi /\
      (exists v0, Monitoring._calculate_percentile sorted_values 0 = Some v0 /\
                  (v0 == lo)%Q) /\
      Monitoring._calculate_percentile [] p = Some 0%Q.
Proof.
  intros l p q Hsorted Hl Hp Hpq Hq.
  destruct (calculate_percentile_shape l p Hl) as
    (f & a & b & Hfk & Hkf & Hfn & Ha & Hb & Hv); [lia|].
  destruct (calculate_percentile_shape l q Hl) as
    (g & a' & b' & Hgk & Hkg & Hgn & Ha' & Hb' & Hw); [lia|].
  destruct (calculate_percentile_shape l 100 Hl) as
    (t & at' & bt & Htk & Hkt & Htn & Hat & Hbt & Hhi); [lia|].
  destruct (calculate_percentile_shape l 0 Hl) as
    (z & az & bz & Hzk & Hkz & Hzn & Haz & Hbz & Hlo); [lia|].
  assert (Hn : 1 <= Z.of_nat (length l)) by (destruct l; [done|cbn; lia]).
  set (X := inject_Z (Z.of_nat (length l) - 1)) in *.
  assert (HX : (0 <= X)%Q).
  { subst X. change 0%Q with (inject_Z 0). rewrite <- Zle_Qle. lia. }
  assert (HP0 : (0 <= inject_Z p)%Q).
  { change 0%Q with (inject_Z 0). rewrite <- Zle_Qle. lia. }
  assert (HPQ : (inject_Z p <= inject_Z q)%Q) by (rewrite <- Zle_Qle; lia).
  set (kp := (X * inject_Z p / 100)%Q) in *.
  set (kq := (X * inject_Z q / 100)%Q) in *.
  assert (Hk : (kp <= kq)%Q).
  { subst kp kq. apply Qdiv_100_le. nra. }
  (* the first and the last element *)
  destruct (lookup_lt_is_Some_2 l 0) as [lo Hlo0]; [lia|].
  destruct (lookup_lt_is_Some_2 l (length l - 1)) as [hi Hhi0]; [lia|].
  assert (Hab : (a <= b)%Q) by (apply (Hsorted f (Nat.min (S f) (length l - 1))); [lia|done..]).
  assert (Hab' : (a' <= b')%Q) by (apply (Hsorted g (Nat.min (S g) (length l - 1))); [lia|done..]).
  assert (Hloa : (lo <= a)%Q) by (apply (Hsorted 0%nat f); [lia|done..]).
  assert (Hbhi : (b' <= hi)%Q)
    by (apply (Hsorted (Nat.min (S g) (length l - 1)) (length l - 1)%nat); [lia|done..]).
  assert (Hahi : (a' <= hi)%Q) by (apply (Hsorted g (length l - 1)%nat); [lia|done..]).
  (* percentile 100 is at the last index *)
  assert (Ht : t = (length l - 1)%nat).
  { rewrite (Qdiv_100_full X) in Htk, Hkt. subst X.
    assert (H : (inject_Z (Z.of_nat (length l) - 1) < inject_Z (Z.of_nat t + 1))%Q).
    { rewrite inject_Z_plus. exact Hkt. }
    rewrite <- Zlt_Qlt in H. lia. }
  (* percentile 0 is at the first index *)
  assert (Hz : z = 0%nat).
  { rewrite (Qdiv_100_zero X) in Hkz.
    assert (H : (inject_Z 0 < inject_Z (Z.of_nat z + 1))%Q).
    { rewrite inject_Z_plus. change (inject_Z 0) with 0%Q.
      change (inject_Z 1) with 1%Q. lra. }
    rewrite <- Zlt_Qlt in H.
    assert (Hz0 : (inject_Z (Z.of_nat z) <= inject_Z 0)%Q).
    { rewrite (Qdiv_100_zero X) in Hzk. exact Hzk. }
    rewrite <- Zle_Qle in Hz0. lia. }
  exists (if decide (f = (length l - 1)%nat) then a
          else (a + (kp - inject_Z (Z.of_nat f)) * (b - a))%Q),
         (if decide (g = (length l - 1)%nat) then a'
          else (a' + (kq - inject_Z (Z.of_nat g)) * (b' - a'))%Q),
         lo, hi.
  split; [exact Hv|]. split; [exact Hw|].
  split; [by rewrite head_lookup|].
  split; [rewrite last_lookup; replace (Nat.pred (length l)) with (length l - 1)%nat by lia; done|].
  split.
  { destruct (decide (f = (length l - 1)%nat)); [done|]. nra. }
  split.
  { assert (Hfg : (f <= g)%nat).
    { assert (H : (inject_Z (Z.of_nat f) < inject_Z (Z.of_nat g + 1))%Q).
      { rewrite inject_Z_plus. change (inject_Z 1) with 1%Q. lra. }
      rewrite <- Zlt_Qlt in H. lia. }
    destruct (decide (f = g)) as [<-|Hne].
    - assert (a' = a) by congruence. subst a'.
      destruct (decide (f = (length l - 1)%nat)); [lra|].
      assert (b' = b) by congruence. subst b'. nra.
    - assert (Hba' : (b <= a')%Q).
      { apply (Hsorted (Nat.min (S f) (length l - 1)) g); [lia|done..]. }
      destruct (decide (f = (length l - 1)%nat)) as [Hf|_]; [lia|].
      assert (Hvb : (a + (kp - inject_Z (Z.of_nat f)) * (b - a) <= b)%Q) by nra.
      destruct (decide (g = (length l - 1)%nat)); [lra|].
      assert (Hwa : (a' <= a' + (kq - inject_Z (Z.of_nat g)) * (b' - a'))%Q) by nra.
      lra. }
  split.
  { destruct (decide (g = (length l - 1)%nat)); [done|]. nra. }
  split.
  { rewrite Hhi. subst t.
    destruct (decide ((length l - 1)%nat = (length l - 1)%nat)); [|done].
    congruence. }
  split; [|done].
  eexists. split; [exact Hlo|]. subst z.
  assert (az = lo) by congruence. subst az.
  destruct (decide (0%nat = (length l - 1)%nat)); [reflexivity|].
  rewrite (Qdiv_100_zero X). change (inject_Z (Z.of_nat 0)) with 0%Q. ring.
Qed.

Lemma calculate_percentile_monotone_witness :
  exists v w,
    Monitoring._calculate_percentile [1; 2; 4; 8]%Q 50 = Some v /\
    Monitoring._calculate_percentile [1; 2; 4; 8]%Q 95 = Some w /\
    (v <= w)%Q.
Proof.
  destruct (calculate_percentile_monotone [1; 2; 4; 8]%Q 50 95)
    as (v & w & lo & hi & Hv & Hw & _ & _ & _ & Hvw & _); try lia.
  - intros i j a b Hij Ha Hb.
    destruct i as [|[|[|[|i]]]]; destruct j as [|[|[|[|j]]]];
      cbn in Ha, Hb; try lia; try discriminate;
      injection Ha as <-; injection Hb as <-; discriminate.
  - discriminate.
  - exists v, w. split; [exact Hv|]. split; [exact Hw|exact Hvw].
Defined.

(** ** Health *)

Lemma dict_get_set_eq {V : Type} (k : string) (v : V) (d : list (string * V)) :
  Monitoring.dict_get k (Monitoring.dict_set k v d) = Some v.
Proof.
  induction d as [|[k' v'] d IH]; cbn.
  - by rewrite bool_decide_eq_true_2.
  - destruct (bool_decide (k' = k)) eqn:Hk; cbn; rewrite Hk; done.
Qed.

Lemma dict_get_set_ne {V : Type} (k k0 : string) (v : V) (d : list (string * V)) :
  k0 <> k ->
  Monitoring.dict_get k0 (Monitoring.dict_set k v d) = Monitoring.dict_get k0 d.
Proof.
  intros Hne. induction d as [|[k' v'] d IH]; cbn.
  - rewrite bool_decide_eq_false_2; [done|]. by intros ->.
  - destruct (bool_decide (k' = k)) eqn:Hk; cbn.
    + apply bool_decide_eq_true in Hk. subst k'.
      rewrite !bool_decide_eq_false_2; [done|by intros ->..].
    + destruct (bool_decide (k' = k0)); done.
Qed.

Lemma dict_set_fresh {V : Type} (k : string) (v : V) (d : list (string * V)) :
  k ∉ map fst d -> Monitoring.dict_set k v d = d ++ [(k, v)].
Proof.
  induction d as [|[k' v'] d IH]; cbn; [done|]. intros Hk.
  apply not_elem_of_cons in Hk as [Hne Hk].
  rewrite bool_decide_eq_false_2 by (by intros ->). by rewrite IH.
Qed.

Lemma elem_of_dict_set {V : Type} (k : string) (v : V) (d : list (string * V))
    (item : string * V) :
  NoDup (map fst d) ->
  item ∈ Monitoring.dict_set k v d ->
  item = (k, v) \/ (item ∈ d /\ fst item <> k).
Proof.
  induction d as [|[k' v'] d IH]; cbn; intros Hnd Hin.
  - apply list_elem_of_singleton in Hin. by left.
  - apply NoDup_cons in Hnd as [Hk' Hnd].
    destruct (bool_decide (k' = k)) eqn:Hk.
    + apply bool_decide_eq_true in Hk. subst k'.
      apply elem_of_cons in Hin as [->|Hin]; [by left|].
      right. split; [by apply elem_of_cons; right|].
      intros Heq. apply Hk'. rewrite <- Heq.
      apply list_elem_of_fmap. by exists item.
    + apply bool_decide_eq_false in Hk.
      apply elem_of_cons in Hin as [->|Hin].
      * right. split; [apply elem_of_cons; by left|done].
      * destruct (IH Hnd Hin) as [->|[Hin' Hne]]; [by left|].
        right. split; [by apply elem_of_cons; right|done].
Qed.

Lemma health_fold (items : list (string * Monitoring.HealthStatus)) :
  forall overall_status unhealthy service_statuses,
    foldl Monitoring.health_step (overall_status, unhealthy, service_statuses) items =
    (overall_of overall_status items,
     unhealthy ++ map fst (filter (fun item => has_status "unhealthy" item = true) items),
     foldl (fun s item => Monitoring.dict_set (fst item) (Monitoring.status (snd item)) s)
           service_statuses items).
Proof.
  induction items as [|[name health] items IH]; intros o u s.
  - cbn. unfold overall_of. cbn. rewrite andb_false_r, app_nil_r. done.
  - cbn [foldl]. unfold Monitoring.health_step at 2.
    unfold overall_of. cbn [existsb]. rewrite filter_cons.
    change (has_status "unhealthy" (name, health))
      with (bool_decide (Monitoring.status health = "unhealthy")).
    change (has_status "degraded" (name, health))
      with (bool_decide (Monitoring.status health = "degraded")).
    destruct (bool_decide (Monitoring.status health = "unhealthy")) eqn:Hu.
    + rewrite IH. rewrite decide_True by done. cbn [orb map].
      rewrite <- app_assoc. cbn [app]. do 2 f_equal; unfold overall_of;
        destruct (existsb (has_status "unhealthy") items); done.
    + rewrite decide_False by done. cbn [orb].
      destruct (bool_decide (Monitoring.status health = "degraded")) eqn:Hd;
        cbn [andb orb].
      * destruct (bool_decide (o = "healthy")) eqn:Ho; cbn [andb].
        -- rewrite IH. do 2 f_equal; unfold overall_of;
             destruct (existsb (has_status "unhealthy") items); done.
        -- rewrite IH. do 2 f_equal; unfold overall_of; rewrite ?Ho; done.
      * rewrite IH. do 2 f_equal; done.
Qed.

Lemma dependencies_fold (items : list (string * Monitoring.HealthStatus)) :
  forall service_statuses,
    NoDup (map fst service_statuses ++ map fst items) ->
    foldl (fun s item => Monitoring.dict_set (fst item) (Monitoring.status (snd item)) s)
          service_statuses items =
    service_statuses ++ map service_status items.
Proof.
  induction items as [|[name health] items IH]; intros s Hnd.
  - cbn. by rewrite app_nil_r.
  - cbn [foldl fst snd map] in *.
    rewrite dict_set_fresh.
    + rewrite IH.
      * rewrite <- app_assoc. done.
      * rewrite map_app. cbn [map fst]. rewrite <- app_assoc. exact Hnd.
    + apply NoDup_app in Hnd as (_ & Hdisj & _).
      intros Hin. apply (Hdisj name Hin). apply elem_of_cons. by left.
Qed.

Lemma foldl_min_le (l : list Z) :
  forall x, foldl Z.min x l <= x /\ forall y, y ∈ l -> foldl Z.min x l <= y.
Proof.
  induction l as [|z l IH]; intros x.
  - cbn. split; [lia|]. intros y Hy. by apply elem_of_nil in Hy.
  - cbn [foldl]. destruct (IH (Z.min x z)) as [H1 H2]. split; [lia|].
    intros y Hy. apply elem_of_cons in Hy as [->|Hy]; [lia|by apply H2].
Qed.

Lemma foldl_min_in (l : list Z) :
  forall x, foldl Z.min x l = x \/ foldl Z.min x l ∈ l.
Proof.
  induction l as [|z l IH]; intros x; [by left|].
  cbn [foldl]. destruct (IH (Z.min x z)) as [H|H].
  - rewrite H. destruct (Z.min_spec x z) as [[_ ->]|[_ ->]]; [by left|].
    right. apply elem_of_cons. by left.
  - right. apply elem_of_cons. by right.
Qed.

Lemma foldl_max_ge (l : list Z) :
  forall x, x <= foldl Z.max x l /\ forall y, y ∈ l -> y <= foldl Z.max x l.
Proof.
  induction l as [|z l IH]; intros x.
  - cbn. split; [lia|]. intros y Hy. by apply elem_of_nil in Hy.
  - cbn [foldl]. destruct (IH (Z.max x z)) as [H1 H2]. split; [lia|].
    intros y Hy. apply elem_of_cons in Hy as [->|Hy]; [lia|by apply H2].
Qed.

Lemma existsb_has_status (s : string) (items : list (string * Monitoring.HealthStatus)) :
  existsb (has_status s) items = true <->
  exists item, item ∈ items /\ Monitoring.status (snd item) = s.
Proof.
  rewrite existsb_exists. split.
  - intros (item & Hin & Hs). exists item. split; [by apply list_elem_of_In|].
    by apply bool_decide_eq_true in Hs.
  - intros (item & Hin & Hs). exists item. split; [by apply list_elem_of_In|].
    by apply bool_decide_eq_true.
Qed.

Lemma get_health_status_report (empty_message : string) (now : Z)
    (table : list (string * Monitoring.HealthStatus)) :
  table <> [] ->
  exists oldest newest,
    Monitoring.min_of (map (fun item => Monitoring.last_check (snd item)) table)
      = Some oldest /\
    Monitoring.max_of (map (fun item => Monitoring.last_check (snd item)) table)
      = Some newest /\
    (forall item, item ∈ table ->
       oldest <= Monitoring.last_check (snd item) <= newest) /\
    (exists item, item ∈ table /\ Monitoring.last_check (snd item) = oldest) /\
    Monitoring.get_health_status empty_message now table =
    Return {| Monitoring.hr_status := overall_of "healthy" table;
              Monitoring.uptime := Monitoring.total_seconds (now - oldest);
              Monitoring.azure_ml_status :=
                match Monitoring.dict_get "azure_ml" table with
                | Some health => Monitoring.status health
                | None => "unknown"
                end;
              Monitoring.dependencies :=
                foldl (fun s item =>
                         Monitoring.dict_set (fst item) (Monitoring.status (snd item)) s)
                      [] table;
              Monitoring.unhealthy_services :=
                map fst (filter (fun item => has_status "unhealthy" item = true) table);
              Monitoring.hr_last_check := newest |}.
Proof.
  intros Hne. destruct table as [|item0 table]; [done|].
  set (items := item0 :: table) in *.
  exists (foldl Z.min (Monitoring.last_check (snd item0))
            (map (fun item => Monitoring.last_check (snd item)) table)),
         (foldl Z.max (Monitoring.last_check (snd item0))
            (map (fun item => Monitoring.last_check (snd item)) table)).
  split; [done|]. split; [done|]. split; [|split].
  - intros item Hin.
    destruct (foldl_min_le (map (fun item => Monitoring.last_check (snd item)) table)
                (Monitoring.last_check (snd item0))) as [Hm0 Hm].
    destruct (foldl_max_ge (map (fun item => Monitoring.last_check (snd item)) table)
                (Monitoring.last_check (snd item0))) as [HM0 HM].
    apply elem_of_cons in Hin as [->|Hin]; [lia|].
    assert (Hc : Monitoring.last_check (snd item) ∈
                 map (fun item => Monitoring.last_check (snd item)) table).
    { apply list_elem_of_fmap. by exists item. }
    split; [by apply Hm|by apply HM].
  - destruct (foldl_min_in (map (fun item => Monitoring.last_check (snd item)) table)
                (Monitoring.last_check (snd item0))) as [H|H].
    + exists item0. split; [apply elem_of_cons; by left|done].
    + apply list_elem_of_fmap in H as (item & Heq & Hin).
      exists item. split; [apply elem_of_cons; by right|done].
  - unfold Monitoring.get_health_status. rewrite health_fold. done.
Qed.

(** X26. The overall health [get_health_status] reports for a non-empty
    table of services: ["unhealthy"] exactly when some service is
    unhealthy; ["degraded"] exactly when none is unhealthy and some service
    is degraded; ["healthy"] in every other case, so services that are
    ["unknown"] or ["disabled"] count as healthy and the table
    [initialize] builds is reported healthy. The order of the services
    does not matter for it. [unhealthy_services] lists the unhealthy
    services in table order, [dependencies] gives every service its
    status, and the reported uptime is the age of the oldest check: if
    every service was checked at or after [since], it is at most
    [now - since]. On an empty table the call raises [ValueError]. *)
Theorem health_status_overall :
  forall (empty_message : string) (now : Z)
         (table : list (string * Monitoring.HealthStatus)),
    table <> [] ->
    NoDup (map fst table) ->
    exists report,
      Monitoring.get_health_status empty_message now table = Return report /\
      (Monitoring.hr_status report = "unhealthy" <->
         exists item, item ∈ table /\ Monitoring.status (snd item) = "unhealthy") /\
      (Monitoring.hr_status report = "degraded" <->
         (forall item, item ∈ table -> Monitoring.status (snd item) <> "unhealthy") /\
         exists item, item ∈ table /\ Monitoring.status (snd item) = "degraded") /\
      (Monitoring.hr_status report = "healthy" <->
         forall item, item ∈ table ->
           Monitoring.status (snd item) <> "unhealthy" /\
           Monitoring.status (snd item) <> "degraded") /\
      Monitoring.unhealthy_services report =
        map fst (filter (fun item => has_status "unhealthy" item = true) table) /\
      Monitoring.dependencies report = map service_status table /\
      (forall since,
         (forall item, item ∈ table -> since <= Monitoring.last_check (snd item)) ->
         (Monitoring.uptime report <= Monitoring.total_seconds (now - since))%Q) /\
      (forall item, item ∈ table ->
         Monitoring.last_check (snd item) <= Monitoring.hr_last_check report) /\
      Monitoring.get_health_status empty_message now [] =
        Raise (mkExc ValueError empty_message).
Proof.
  intros empty_message now table Hne Hnd.
  destruct (get_health_status_report empty_message now table Hne)
    as (oldest & newest & Hmin & Hmax & Hrange & Hattained & Hget).
  eexists. split; [exact Hget|].
  cbn [Monitoring.hr_status Monitoring.unhealthy_services
       Monitoring.dependencies Monitoring.uptime Monitoring.hr_last_check].
  assert (Hu := existsb_has_status "unhealthy" table).
  assert (Hd := existsb_has_status "degraded" table).
  unfold overall_of. change (bool_decide ("healthy" = "healthy")) with true.
  cbn [andb].
  split; [|split; [|split; [|split; [|split; [|split; [|split]]]]]].
  - destruct (existsb (has_status "unhealthy") table).
    + split; [intros _; by apply Hu|done].
    + split; [|intros H; apply Hu in H; discriminate].
      destruct (existsb (has_status "degraded") table); discriminate.
  - destruct (existsb (has_status "unhealthy") table).
    + split; [discriminate|]. intros [Hno _].
      destruct (proj1 Hu eq_refl) as (item & Hin & Hs). by destruct (Hno item Hin).
    + destruct (existsb (has_status "degraded") table).
      * split; [|done]. intros _. split; [|by apply Hd].
        intros item Hin Hs.
        assert (H : false = true) by (apply Hu; by exists item). discriminate.
      * split; [discriminate|]. intros [_ H]. apply Hd in H. discriminate.
  - destruct (existsb (has_status "unhealthy") table).
    + split; [discriminate|]. intros Hno.
      destruct (proj1 Hu eq_refl) as (item & Hin & Hs).
      by destruct (proj1 (Hno item Hin)).
    + destruct (existsb (has_status "degraded") table).
      * split; [discriminate|]. intros Hno.
        destruct (proj1 Hd eq_refl) as (item & Hin & Hs).
        by destruct (proj2 (Hno item Hin)).
      * split; [|done]. intros _ item Hin. split; intros Hs.
        -- assert (H : false = true) by (apply Hu; by exists item). discriminate.
        -- assert (H : false = true) by (apply Hd; by exists item). discriminate.
  - done.
  - rewrite dependencies_fold; [done|]. cbn. exact Hnd.
  - intros since Hsince. unfold Monitoring.total_seconds, Qle. cbn [Qnum Qden].
    destruct Hattained as (item & Hin & <-).
    specialize (Hsince item Hin). lia.
  - intros item Hin. by apply Hrange.
  - done.
Qed.

Lemma health_status_overall_witness :
  exists report,
    Monitoring.get_health_status "min() arg is an empty sequence" 5000000
      (Monitoring.initialize 0) = Return report /\
    Monitoring.hr_status report = "healthy".
Proof.
  destruct (health_status_overall "min() arg is an empty sequence" 5000000
              (Monitoring.initialize 0))
    as (report & Hget & _ & _ & Hhealthy & _).
  - discriminate.
  - apply (bool_decide_unpack _). vm_compute. exact I.
  - exists report. split; [exact Hget|]. apply Hhealthy.
    intros item Hin. vm_compute in Hin.
    repeat (apply elem_of_cons in Hin as [->|Hin]; [split; discriminate|]).
    by apply elem_of_nil in Hin.
Defined.

Lemma dict_set_in {V : Type} (k : string) (v : V) (d : list (string * V)) :
  (k, v) ∈ Monitoring.dict_set k v d.
Proof.
  induction d as [|[k' v'] d IH]; cbn.
  - by apply list_elem_of_singleton.
  - destruct (bool_decide (k' = k)) eqn:Hk.
    + apply bool_decide_eq_true in Hk. subst k'. apply elem_of_cons. by left.
    + apply elem_of_cons. by right.
Qed.

Lemma dict_set_nonempty {V : Type} (k : string) (v : V) (d : list (string * V)) :
  Monitoring.dict_set k v d <> [].
Proof.
  destruct d as [|[k' v'] d]; cbn; [done|].
  by destruct (bool_decide (k' = k)).
Qed.

(** The check when [os.getpid()] returns, which it does only when
    monitoring.py runs as the main script. *)
Lemma check_gateway_health_entry (process_id : Z) (p : Monitoring.SystemProbe)
    (elapsed : Q) (now : Z) (table : list (string * Monitoring.HealthStatus)) :
  exists h,
    Monitoring._check_gateway_health (Return process_id) (Return p) elapsed now table =
      Monitoring.dict_set "gateway" h table /\
    Monitoring.status h <> "unhealthy" /\
    Monitoring.error_message h <> Some "Critical resource usage" /\
    (Monitoring.status h = "degraded" <->
       (90 < Monitoring.memory_percent p \/ 95 < Monitoring.cpu_percent p)%Q) /\
    (Monitoring.status h = "healthy" <->
       (Monitoring.memory_percent p <= 90 /\ Monitoring.cpu_percent p <= 95)%Q).
Proof.
  unfold Monitoring._check_gateway_health.
  destruct (Qle_bool (Monitoring.memory_percent p) 90) eqn:Hm; cbn [negb orb].
  - apply Qle_bool_iff in Hm.
    destruct (Qle_bool (Monitoring.cpu_percent p) 95) eqn:Hc; cbn [negb].
    + apply Qle_bool_iff in Hc.
      assert (H95 : Qle_bool (Monitoring.memory_percent p) 95 = true).
      { apply Qle_bool_iff. lra. }
      rewrite H95. cbn [negb].
      eexists. split; [reflexivity|]. cbn.
      split; [done|]. split; [done|]. split.
      * split; [discriminate|]. intros [H|H]; lra.
      * split; [done|done].
    + assert (Hc' : (95 < Monitoring.cpu_percent p)%Q).
      { apply Qnot_le_lt. intros H. apply Qle_bool_iff in H. congruence. }
      eexists. split; [reflexivity|]. cbn.
      split; [done|]. split; [done|]. split.
      * split; [by right|done].
      * split; [discriminate|]. intros [_ H]. lra.
  - assert (Hm' : (90 < Monitoring.memory_percent p)%Q).
    { apply Qnot_le_lt. intros H. apply Qle_bool_iff in H. congruence. }
    eexists. split; [reflexivity|]. cbn.
    split; [done|]. split; [done|]. split.
    * split; [by left|done].
    * split; [discriminate|]. intros [H _]. lra.
Qed.

(** X27. As the gateway imports it, monitoring.py has no [os]: building
    the [details] dict calls [os.getpid()], the [NameError] is caught by
    the [except] branch, and [_check_gateway_health] records the gateway
    as ["unhealthy"] on every call, whatever the memory and CPU readings;
    the error message is the [NameError]'s, or the earlier exception's
    when reading the system already failed. No other service's entry is
    touched, and [get_health_status] then reports ["unhealthy"] overall
    with the gateway among the unhealthy services. The resource
    thresholds take effect only where [os.getpid()] returns (the module
    run as the main script, which imports [os]): the gateway is then
    ["degraded"] exactly when memory is above 90 percent or the CPU above
    95 percent and ["healthy"] otherwise, and never ["unhealthy"], the
    branch for memory above 95 percent being unreachable. *)
Theorem gateway_check_as_imported_is_unhealthy :
  forall (probe : Result Monitoring.SystemProbe) (elapsed : Q) (now : Z)
         (table : list (string * Monitoring.HealthStatus)),
    let table' := Monitoring._check_gateway_health Monitoring.os_getpid_imported
                    probe elapsed now table in
    (exists h,
       Monitoring.dict_get "gateway" table' = Some h /\
       Monitoring.status h = "unhealthy" /\
       Monitoring.last_check h = now /\
       Monitoring.error_message h =
         Some (match probe with
               | Raise e => exc_str e
               | Return _ => "name 'os' is not defined"
               end)) /\
    (forall name, name <> "gateway" ->
       Monitoring.dict_get name table' = Monitoring.dict_get name table) /\
    (forall empty_message now',
       exists report,
         Monitoring.get_health_status empty_message now' table' = Return report /\
         Monitoring.hr_status report = "unhealthy" /\
         "gateway" ∈ Monitoring.unhealthy_services report) /\
    (forall (process_id : Z) (p : Monitoring.SystemProbe),
       exists h,
         Monitoring.dict_get "gateway"
           (Monitoring._check_gateway_health (Return process_id) (Return p)
              elapsed now table) = Some h /\
         Monitoring.status h <> "unhealthy" /\
         Monitoring.error_message h <> Some "Critical resource usage" /\
         (Monitoring.status h = "degraded" <->
            (90 < Monitoring.memory_percent p \/ 95 < Monitoring.cpu_percent p)%Q) /\
         (Monitoring.status h = "healthy" <->
            (Monitoring.memory_percent p <= 90 /\ Monitoring.cpu_percent p <= 95)%Q)).
Proof.
  intros probe elapsed now table table'.
  set (text := match probe with
               | Raise e => exc_str e
               | Return _ => "name 'os' is not defined"
               end).
  set (h := {| Monitoring.service := "gateway"; Monitoring.status := "unhealthy";
               Monitoring.last_check := now; Monitoring.response_time := 0%Q;
               Monitoring.error_message := Some text;
               Monitoring.details := [] |}).
  assert (Htable : table' = Monitoring.dict_set "gateway" h table).
  { subst table' h text. unfold Monitoring._check_gateway_health.
    by destruct probe. }
  split; [|split; [|split]].
  - exists h. rewrite Htable, dict_get_set_eq. done.
  - intros name Hne. rewrite Htable. by apply dict_get_set_ne.
  - intros empty_message now'.
    assert (Hne : table' <> []) by (rewrite Htable; apply dict_set_nonempty).
    destruct (get_health_status_report empty_message now' table' Hne)
      as (oldest & newest & _ & _ & _ & _ & Hget).
    assert (Hin : ("gateway", h) ∈ table') by (rewrite Htable; apply dict_set_in).
    eexists. split; [exact Hget|].
    cbn [Monitoring.hr_status Monitoring.unhealthy_services]. split.
    + unfold overall_of.
      assert (Hex : existsb (has_status "unhealthy") table' = true).
      { apply existsb_has_status. by exists ("gateway", h). }
      by rewrite Hex.
    + apply list_elem_of_fmap. exists ("gateway", h). split; [done|].
      apply list_elem_of_filter. split; [done|exact Hin].
  - intros process_id p.
    destruct (check_gateway_health_entry process_id p elapsed now table)
      as (h' & Hh' & Hnot & Hmsg & Hdeg & Hok).
    exists h'. rewrite Hh', dict_get_set_eq. done.
Qed.
